(** * WiredTiger: modify (delta) application and cursor return values

    A shallow embedding of [src/support/modify.c] and [src/btree/bt_ret.c].

    - [size_t] values are [Z] in [0, 2^64) and every C operation on them is
      written with its wrap-around ([size_add], [size_sub], [size_mul]).
    - Memory is explicit: an allocation is a [list byte]; a store or a load
      outside the allocation is undefined behaviour in C and is the outcome
      [Undef] here.
    - A function that returns an error code returns a [result]: [Ok] for 0,
      [Err e] for the error, [Undef] when the C program has no defined
      behaviour.
    - The data pointer of a modification may point into the buffer that is
      being modified; it is a [src_ptr], read where it points when the C
      code reads it. *)

From Stdlib Require Import ZArith List Bool Lia.
From coqutil Require Import Byte Word.LittleEndianList.
Import ListNotations.

Local Open Scope Z_scope.

(** ** Machine integers *)

Definition SIZE_MOD : Z := 2 ^ 64.
Definition sizeof_size_t : Z := 8.
Definition INT_MAX : Z := 2 ^ 31 - 1.
Definition UINT32_MAX : Z := 2 ^ 32 - 1.
Definition ENOMEM : Z := 12.

(** Reduction of a mathematical integer to a [size_t]. *)
Definition wrap (z : Z) : Z := z mod SIZE_MOD.

Definition size_add (a b : Z) : Z := wrap (a + b).
Definition size_sub (a b : Z) : Z := wrap (a - b).
Definition size_mul (a b : Z) : Z := wrap (a * b).

(** [(int)x] for a [size_t] x, and [(size_t)i] for an [int] i. *)
Definition int_of_size (z : Z) : Z := (z + 2 ^ 31) mod 2 ^ 32 - 2 ^ 31.
Definition size_of_int (i : Z) : Z := wrap i.

Definition WT_MAX (a b : Z) : Z := if a <? b then b else a.

Definition in_size_t (z : Z) : Prop := 0 <= z < SIZE_MOD.

(** ** Outcomes of a call *)

Inductive result (A : Type) : Type :=
| Ok (a : A)
| Err (e : Z)
| Undef.
Arguments Ok {A} a.
Arguments Err {A} e.
Arguments Undef {A}.

Definition bind {A B : Type} (m : result A) (k : A -> result B) : result B :=
  match m with
  | Ok a => k a
  | Err e => Err e
  | Undef => Undef
  end.

Declare Scope result_scope.
Delimit Scope result_scope with result.
Notation "x <- m ;; k" := (bind m (fun x => k))
  (at level 61, m at next level, right associativity) : result_scope.
Notation "'WT_RET' m ;; k" := (bind m (fun _ => k))
  (at level 61, m at next level, right associativity) : result_scope.
Local Open Scope result_scope.

(** ** Memory *)

Definition len (m : list byte) : Z := Z.of_nat (length m).

(** The [n] bytes at address [at_] of the allocation [m]. *)
Definition slice (m : list byte) (at_ n : Z) : list byte :=
  firstn (Z.to_nat n) (skipn (Z.to_nat at_) m).

Definition in_bounds (m : list byte) (at_ n : Z) : bool :=
  (0 <=? at_) && (0 <=? n) && (at_ + n <=? len m).

Definition mem_read (m : list byte) (at_ n : Z) : result (list byte) :=
  if in_bounds m at_ n then Ok (slice m at_ n) else Undef.

Definition splice_at (m : list byte) (at_ : Z) (bs : list byte) : list byte :=
  firstn (Z.to_nat at_) m ++ bs ++ skipn (Z.to_nat (at_ + len bs)) m.

Definition mem_write (m : list byte) (at_ : Z) (bs : list byte)
  : result (list byte) :=
  if in_bounds m at_ (len bs) then Ok (splice_at m at_ bs) else Undef.

(** [memset(m + at_, c, n)]. *)
Definition memset (m : list byte) (at_ : Z) (c : byte) (n : Z)
  : result (list byte) :=
  if 0 <=? n then mem_write m at_ (repeat c (Z.to_nat n)) else Undef.

(** [memmove(m + to, src + from, n)]; with [src = m] the regions may overlap,
    the bytes are read before any is written. *)
Definition memmove (m : list byte) (to : Z) (src : list byte) (from n : Z)
  : result (list byte) :=
  bs <- mem_read src from n ;;
  mem_write m to bs.

(** A [size_t] stored in memory: 8 bytes, least significant first. *)
Definition store_size_t (m : list byte) (at_ : Z) (w : Z)
  : result (list byte) :=
  mem_write m at_ (le_split 8 w).

Definition load_size_t (m : list byte) (at_ : Z) : result Z :=
  bs <- mem_read m at_ sizeof_size_t ;;
  Ok (le_combine bs).

(** ** The session: allocator and transaction snapshot

    The functions of both files take the session first. What they use of it
    is the allocator (a request may fail; fresh memory has arbitrary
    contents) and the snapshot that decides which updates are visible. *)

Record WT_SESSION_IMPL : Type := mkSession {
  alloc_ok : Z -> bool;        (* does an allocation of that many bytes succeed *)
  fresh : Z -> byte;           (* contents of memory that was never written *)
  snapshot : Z -> bool;        (* is a transaction id visible to the reader *)
  bitcnt : Z                   (* S2BT(session)->bitcnt *)
}.

Definition fresh_bytes (session : WT_SESSION_IMPL) (from n : Z) : list byte :=
  map (fun i => fresh session (from + Z.of_nat i)) (seq 0 (Z.to_nat n)).

(** [realloc] of the allocation [m] to [n] bytes: contents kept, tail
    uninitialised. *)
Definition realloc (session : WT_SESSION_IMPL) (m : list byte) (n : Z)
  : result (list byte) :=
  if alloc_ok session n
  then Ok (m ++ fresh_bytes session (len m) (n - len m))
  else Err ENOMEM.

(** ** WT_ITEM *)

(** Where an item's [data] pointer points: into the item's own allocation
    [mem], at a byte offset, or at memory the item does not own (an on-page
    cell, an update's payload), given by the bytes found there. *)
Inductive data_ptr : Type :=
| InMem (off : Z)
| External (bytes : list byte).

Record WT_ITEM : Type := mkItem {
  data : data_ptr;
  size : Z;
  mem : list byte
}.

Definition memsize (i : WT_ITEM) : Z := len (mem i).

Definition WT_DATA_IN_ITEM (i : WT_ITEM) : bool :=
  match data i with
  | InMem off => (0 <=? off) && (off <? memsize i)
  | External _ => false
  end.

(** [WT_PTRDIFF(i->data, i->mem)]. *)
Definition data_offset (i : WT_ITEM) : Z :=
  match data i with
  | InMem off => off
  | External _ => 0
  end.

(** The memory found at [i->data]. *)
Definition data_bytes (i : WT_ITEM) : list byte :=
  match data i with
  | InMem off => skipn (Z.to_nat off) (mem i)
  | External bs => bs
  end.

(** The value an item holds: [size] bytes at [data]. *)
Definition item_bytes (i : WT_ITEM) : list byte :=
  firstn (Z.to_nat (size i)) (data_bytes i).

Definition set_size (i : WT_ITEM) (n : Z) : WT_ITEM :=
  mkItem (data i) n (mem i).

Definition set_mem (i : WT_ITEM) (m : list byte) : WT_ITEM :=
  mkItem (data i) (size i) m.

(** Modelled from the spec: [__wt_buf_grow] (declared in the buffer header,
    not part of the two files). "Grow capacity to at least this value,
    converting any aliased/external buffer into owned storage in the
    process"; "Failure mode: only allocation failure when growing capacity".
    Data already in the item keeps its offset; data outside it is copied to
    the start of the item's memory. *)
Definition __wt_buf_grow (session : WT_SESSION_IMPL) (buf : WT_ITEM) (n : Z)
  : result WT_ITEM :=
  if (memsize buf <? n) || negb (WT_DATA_IN_ITEM buf) then
    m <- (if memsize buf <? n then realloc session (mem buf) n
          else Ok (mem buf)) ;;
    if WT_DATA_IN_ITEM buf then Ok (set_mem buf m)
    else
      m <- memmove m 0 (data_bytes buf) 0 (size buf) ;;
      Ok (mkItem (InMem 0) (size buf) m)
  else Ok buf.

(** Stores through [value->data]: defined only when the data is the item's
    own memory. *)
Definition data_memmove (value : WT_ITEM) (to : Z) (src : list byte)
    (from n : Z) : result WT_ITEM :=
  match data value with
  | InMem off =>
      m <- memmove (mem value) (off + to) src from n ;;
      Ok (set_mem value m)
  | External _ => Undef
  end.

Definition data_memmove_self (value : WT_ITEM) (to from n : Z)
  : result WT_ITEM :=
  match data value with
  | InMem off =>
      m <- memmove (mem value) (off + to) (mem value) (off + from) n ;;
      Ok (set_mem value m)
  | External _ => Undef
  end.

Definition data_memset (value : WT_ITEM) (at_ : Z) (c : byte) (n : Z)
  : result WT_ITEM :=
  match data value with
  | InMem off =>
      m <- memset (mem value) (off + at_) c n ;;
      Ok (set_mem value m)
  | External _ => Undef
  end.

(** ** modify.c *)

(** Where the [data] pointer of a modification points. The cursor API
    hands the caller's pointers through, and nothing keeps a caller from
    pointing into the value that is being modified. So a pointer is either
    into memory that the modify functions do not write, given by the bytes
    found there, or into an allocation of the value, [value->mem + off].
    The allocation is named by its capacity: [realloc] above always yields
    a longer one, so that a pointer made for a capacity that the value no
    longer has is dangling, and an access through it is undefined. *)
Inductive src_ptr : Type :=
| Outside (bytes : list byte)
| InValue (capacity : Z) (off : Z).

(** [memmove(value->data + to, src, n)]: the bytes are read before any is
    written, also when [src] lies in the value's own memory. *)
Definition src_memmove (value : WT_ITEM) (to : Z) (src : src_ptr) (n : Z)
  : result WT_ITEM :=
  match src with
  | Outside bs => data_memmove value to bs 0 n
  | InValue capacity off =>
      if memsize value =? capacity
      then data_memmove value to (mem value) off n
      else Undef
  end.

(** [__modify_apply_one]: apply a single modify structure change to the
    buffer. *)
Definition __modify_apply_one (session : WT_SESSION_IMPL) (value : WT_ITEM)
    (data_size offset size_ : Z) (data : src_ptr) : result WT_ITEM :=
  let len_ := if WT_DATA_IN_ITEM value then data_offset value else 0 in
  value <- __wt_buf_grow session value
             (size_add (size_add len_ (WT_MAX (size value) offset)) data_size) ;;
  if (size_add offset data_size <? size value) && (data_size =? size_) then
    (* Fast path: overwriting bytes that already exist in the buffer. *)
    src_memmove value offset data data_size
  else if size value <=? offset then
    (* Appending past the end of the value: gap bytes, then the new bytes. *)
    value <- (if size value <? offset
              then data_memset value (size value) Byte.x00
                     (size_sub offset (size value))
              else Ok value) ;;
    value <- src_memmove value offset data data_size ;;
    Ok (set_size value (size_add offset data_size))
  else
    (* Correct the replacement size if it's nonsense. *)
    let size_ := if size value <? size_add offset size_
                 then size_sub (size value) offset else size_ in
    if data_size =? size_ then
      (* Overwrite *)
      value <- src_memmove value offset data data_size ;;
      Ok (set_size value (size_add offset data_size))
    else
      (* Shrink or grow *)
      let from := size_add offset size_ in
      let to := size_add offset data_size in
      value <- data_memmove_self value to from
                 (size_sub (size value) (size_add offset size_)) ;;
      value <- src_memmove value offset data data_size ;;
      Ok (set_size value (size_add (size value) (size_sub data_size size_))).

(** A [WT_MODIFY]: replace [mod_size] bytes at [mod_offset] with the
    [mod_data_size] bytes at [mod_data]. Of the item [data] of the C
    structure the two fields that are used are kept, [data.data] and
    [data.size]. *)
Record WT_MODIFY : Type := mkModify {
  mod_data : src_ptr;
  mod_data_size : Z;
  mod_offset : Z;
  mod_size : Z
}.

(** [entries[i]]: reading past the array is undefined. *)
Definition entry_at (entries : list WT_MODIFY) (i : Z) : result WT_MODIFY :=
  if i <? 0 then Undef
  else match nth_error entries (Z.to_nat i) with
       | Some e => Ok e
       | None => Undef
       end.

(** The loop of [__wt_modify_apply_api]: [n] iterations left, index [i]. *)
Fixpoint modify_apply_api_loop (session : WT_SESSION_IMPL)
    (entries : list WT_MODIFY) (n : nat) (i : Z) (value : WT_ITEM)
  : result WT_ITEM :=
  match n with
  | O => Ok value
  | S n' =>
      e <- entry_at entries i ;;
      value <- __modify_apply_one session value (mod_data_size e)
                 (mod_offset e) (mod_size e) (mod_data e) ;;
      modify_apply_api_loop session entries n' (i + 1) value
  end.

(** [__wt_modify_apply_api]: apply a single set of WT_MODIFY changes to a
    buffer, the cursor API interface. *)
Definition __wt_modify_apply_api (session : WT_SESSION_IMPL) (value : WT_ITEM)
    (entries : list WT_MODIFY) (nentries : Z) : result WT_ITEM :=
  modify_apply_api_loop session entries (Z.to_nat nentries) 0 value.

(** The first loop of [__wt_modify_pack]: the length of the packed value. *)
Fixpoint modify_pack_len (entries : list WT_MODIFY) (n : nat) (i : Z)
    (len_ : Z) : result Z :=
  match n with
  | O => Ok len_
  | S n' =>
      e <- entry_at entries i ;;
      let len_ := size_add len_ (size_mul 3 sizeof_size_t) in
      let len_ := size_add len_ (mod_data_size e) in
      modify_pack_len entries n' (i + 1) len_
  end.

(** [memcpy(m + to, src, n)] into the scratch memory [m], which is fresh
    and overlaps nothing. [vmem] is the allocation that the entries'
    pointers into a value refer to, as it is when the entries are
    packed. *)
Definition src_memcpy (m : list byte) (to : Z) (vmem : list byte)
    (src : src_ptr) (n : Z) : result (list byte) :=
  match src with
  | Outside bs => memmove m to bs 0 n
  | InValue capacity off =>
      if len vmem =? capacity then memmove m to vmem off n else Undef
  end.

(** The second loop of [__wt_modify_pack]: [p] and [data_] are the byte
    offsets of the two cursors into the scratch memory [m]. *)
Fixpoint modify_pack_fill (vmem : list byte) (entries : list WT_MODIFY)
    (n : nat) (i : Z) (p data_ : Z) (m : list byte)
  : result (Z * list byte) :=
  match n with
  | O => Ok (data_, m)
  | S n' =>
      e <- entry_at entries i ;;
      m <- store_size_t m p (mod_data_size e) ;;
      m <- store_size_t m (p + sizeof_size_t) (mod_offset e) ;;
      m <- store_size_t m (p + 2 * sizeof_size_t) (mod_size e) ;;
      m <- src_memcpy m data_ vmem (mod_data e) (mod_data_size e) ;;
      modify_pack_fill vmem entries n' (i + 1) (p + 3 * sizeof_size_t)
        (data_ + mod_data_size e) m
  end.

(** [__wt_scr_alloc]: a scratch item with room for [n] bytes, its data at the
    start of its memory and its size zero. The helper is declared outside the
    two files; what is used of it is that it can fail and that the memory it
    returns has that capacity. *)
Definition __wt_scr_alloc (session : WT_SESSION_IMPL) (n : Z)
  : result WT_ITEM :=
  m <- realloc session [] n ;;
  Ok (mkItem (InMem 0) 0 m).

(** Offset of the data area of a packed value with [nentries] entries. *)
Definition modify_data_start (nentries : Z) : Z :=
  size_add sizeof_size_t
    (size_mul (size_mul (size_of_int nentries) 3) sizeof_size_t).

(** [__wt_modify_pack]: pack a modify structure into a buffer. The C
    function reads the data of the entries through their pointers; [vmem]
    is the memory found behind those that point into a value. *)
Definition __wt_modify_pack (session : WT_SESSION_IMPL) (vmem : list byte)
    (entries : list WT_MODIFY) (nentries : Z) : result WT_ITEM :=
  len_ <- modify_pack_len entries (Z.to_nat nentries) 0 sizeof_size_t ;;
  modify <- __wt_scr_alloc session len_ ;;
  let data_ := modify_data_start nentries in
  m <- store_size_t (mem modify) 0 (size_of_int nentries) ;;
  r <- modify_pack_fill vmem entries (Z.to_nat nentries) 0 sizeof_size_t
         data_ m ;;
  let '(data_, m) := r in
  Ok (mkItem (data modify) (wrap (data_ - data_offset modify)) m).

(** The loop of [__wt_modify_apply] over the packed value [modify]: the
    data of an entry is in the packed value, not in the buffer. *)
Fixpoint modify_apply_loop (session : WT_SESSION_IMPL) (modify : list byte)
    (n : nat) (p data_ : Z) (value : WT_ITEM) : result WT_ITEM :=
  match n with
  | O => Ok value
  | S n' =>
      p0 <- load_size_t modify p ;;
      p1 <- load_size_t modify (p + sizeof_size_t) ;;
      p2 <- load_size_t modify (p + 2 * sizeof_size_t) ;;
      value <- __modify_apply_one session value p0 p1 p2
                 (Outside (skipn (Z.to_nat data_) modify)) ;;
      modify_apply_loop session modify n' (p + 3 * sizeof_size_t)
        (data_ + p0) value
  end.

(** [__wt_modify_apply]: apply a single set of WT_MODIFY changes to a
    buffer. [modify] is the memory at the pointer of that name, an update's
    payload. *)
Definition __wt_modify_apply (session : WT_SESSION_IMPL) (value : WT_ITEM)
    (modify : list byte) : result WT_ITEM :=
  w <- load_size_t modify 0 ;;
  let nentries := int_of_size w in
  let data_ := modify_data_start nentries in
  modify_apply_loop session modify (Z.to_nat nentries) sizeof_size_t data_
    value.

(** ** bt_ret.c *)

(** *** Updates *)

(** The update types the file tests for; an update of a further type
    ([WT_UPDATE_RESERVED]) carries neither a value nor a modification. *)
Inductive upd_type : Type :=
| WT_UPDATE_DELETED
| WT_UPDATE_MODIFIED
| WT_UPDATE_RESERVED
| WT_UPDATE_STANDARD.

Definition upd_type_eqb (a b : upd_type) : bool :=
  match a, b with
  | WT_UPDATE_DELETED, WT_UPDATE_DELETED
  | WT_UPDATE_MODIFIED, WT_UPDATE_MODIFIED
  | WT_UPDATE_RESERVED, WT_UPDATE_RESERVED
  | WT_UPDATE_STANDARD, WT_UPDATE_STANDARD => true
  | _, _ => false
  end.

(** One node of an update chain. The chain itself ([upd->next], newest
    first) is the list of its nodes; [NULL] is the empty list. *)
Record WT_UPDATE : Type := mkUpdate {
  txnid : Z;
  type : upd_type;
  upd_size : Z;
  WT_UPDATE_DATA : list byte           (* the memory at the update's payload *)
}.

(** Modelled from the spec: the macro [WT_UPDATE_DATA_VALUE] (declared in the
    btree header). "If kind is Full or Tombstone, stop: this node is the
    base." *)
Definition WT_UPDATE_DATA_VALUE (upd : WT_UPDATE) : bool :=
  upd_type_eqb (type upd) WT_UPDATE_STANDARD
  || upd_type_eqb (type upd) WT_UPDATE_DELETED.

(** The visibility predicate of the transaction subsystem. *)
Definition __wt_txn_upd_visible (session : WT_SESSION_IMPL) (upd : WT_UPDATE)
  : bool :=
  snapshot session (txnid upd).

(** *** Cursors *)

Record WT_CURSOR : Type := mkCursor {
  key : WT_ITEM;
  value : WT_ITEM;
  recno : Z;
  flags : Z
}.

Definition F_SET (flags_ mask : Z) : Z := Z.lor flags_ mask.
Definition F_CLR (flags_ mask : Z) : Z := Z.ldiff flags_ mask.
Definition F_ISSET (flags_ mask : Z) : bool := negb (Z.land flags_ mask =? 0).

Definition set_key (c : WT_CURSOR) (k : WT_ITEM) : WT_CURSOR :=
  mkCursor k (value c) (recno c) (flags c).
Definition set_value (c : WT_CURSOR) (v : WT_ITEM) : WT_CURSOR :=
  mkCursor (key c) v (recno c) (flags c).
Definition set_recno (c : WT_CURSOR) (r : Z) : WT_CURSOR :=
  mkCursor (key c) (value c) r (flags c).
Definition set_flags (c : WT_CURSOR) (f : Z) : WT_CURSOR :=
  mkCursor (key c) (value c) (recno c) f.

Inductive page_type : Type :=
| WT_PAGE_ROW_LEAF
| WT_PAGE_COL_VAR
| WT_PAGE_COL_FIX.

(** What the file uses and does not define: the page and its decoders, the
    insert list, and the constants of the headers. *)
Class BtreeExtern : Type := {
  WT_PAGE : Type;
  WT_ROW : Type;
  WT_CELL : Type;
  WT_CELL_UNPACK : Type;
  WT_INSERT : Type;
  page_type_of : WT_PAGE -> page_type;
  pg_row : WT_PAGE -> Z -> WT_ROW;
  (* WT_COL_PTR(page, &page->pg_var[slot]) *)
  pg_var_cell : WT_PAGE -> Z -> WT_CELL;
  (* returns true and sets the item, or returns false *)
  __wt_row_leaf_value : WT_PAGE -> WT_ROW -> WT_ITEM -> option WT_ITEM;
  __wt_row_leaf_value_cell : WT_PAGE -> WT_ROW -> option WT_CELL;
  __wt_cell_unpack : WT_CELL -> WT_CELL_UNPACK;
  __wt_page_cell_data_ref :
    WT_SESSION_IMPL -> WT_PAGE -> WT_CELL_UNPACK -> WT_ITEM -> result WT_ITEM;
  __bit_getv_recno : WT_PAGE -> Z -> Z -> byte;
  __wt_row_leaf_key :
    WT_SESSION_IMPL -> WT_PAGE -> WT_ROW -> WT_ITEM -> result WT_ITEM;
  WT_INSERT_KEY : WT_INSERT -> list byte;
  WT_INSERT_KEY_SIZE : WT_INSERT -> Z;
  WT_MAX_MODIFY_UPDATE : Z;
  WT_CURSTD_KEY_EXT : Z;
  WT_CURSTD_KEY_INT : Z;
  WT_CURSTD_VALUE_EXT : Z;
  WT_CURSTD_VALUE_INT : Z
}.

Record WT_CURSOR_BTREE `{BtreeExtern} : Type := mkCbt {
  iface : WT_CURSOR;
  ref_page : WT_PAGE;                  (* cbt->ref->page *)
  slot : Z;
  ins : option WT_INSERT;
  compare : Z;
  row_key : WT_ITEM;
  tmp : WT_ITEM;
  cbt_recno : Z
}.

Definition set_iface `{BtreeExtern} (cbt : WT_CURSOR_BTREE) (c : WT_CURSOR)
  : WT_CURSOR_BTREE :=
  mkCbt _ c (ref_page cbt) (slot cbt) (ins cbt) (compare cbt) (row_key cbt)
    (tmp cbt) (cbt_recno cbt).

(** Modelled from the spec: [__wt_buf_set] (declared in the buffer header).
    "Initialize the result buffer from the base: Full, copy of its payload;
    Tombstone, zero-length buffer"; the copy can fail for lack of memory. The
    item's data is set to the start of its memory, which is grown to the
    size, and the bytes are copied there. *)
Definition __wt_buf_set (session : WT_SESSION_IMPL) (buf : WT_ITEM)
    (data_ : list byte) (size_ : Z) : result WT_ITEM :=
  buf <- __wt_buf_grow session (mkItem (InMem 0) 0 (mem buf)) size_ ;;
  m <- memmove (mem buf) 0 data_ 0 size_ ;;
  Ok (mkItem (InMem 0) size_ m).

Section BtRet.
Context `{BtreeExtern}.

(** [__key_return]: change the cursor to reference an internal return
    key. *)
Definition __key_return (session : WT_SESSION_IMPL) (cbt : WT_CURSOR_BTREE)
  : result WT_CURSOR_BTREE :=
  let page := ref_page cbt in
  let cursor := iface cbt in
  match page_type_of page with
  | WT_PAGE_ROW_LEAF =>
      let rip := pg_row page (slot cbt) in
      match ins cbt with
      | Some i =>
          Ok (set_iface cbt
                (set_key cursor
                   (mkItem (External (WT_INSERT_KEY i))
                      (WT_INSERT_KEY_SIZE i) (mem (key cursor)))))
      | None =>
          if compare cbt =? 0 then
            (* swap the cursor's search-key and temporary buffers *)
            let tmp_ := row_key cbt in
            let row_key_ := tmp cbt in
            Ok (mkCbt _
                  (set_key cursor
                     (mkItem (External (data_bytes row_key_))
                        (size row_key_) (mem (key cursor))))
                  (ref_page cbt) (slot cbt) (ins cbt) (compare cbt)
                  row_key_ tmp_ (cbt_recno cbt))
          else
            k <- __wt_row_leaf_key session page rip (key cursor) ;;
            Ok (set_iface cbt (set_key cursor k))
      end
  | _ =>
      (* WT_PAGE_COL_FIX, WT_PAGE_COL_VAR *)
      Ok (set_iface cbt (set_recno cursor (cbt_recno cbt)))
  end.

(** [__value_return]: change the cursor to reference an internal
    original-page return value. *)
Definition __value_return (session : WT_SESSION_IMPL)
    (cbt : WT_CURSOR_BTREE) : result WT_CURSOR_BTREE :=
  let page := ref_page cbt in
  let cursor := iface cbt in
  let ret v := Ok (set_iface cbt (set_value cursor v)) in
  match page_type_of page with
  | WT_PAGE_ROW_LEAF =>
      let rip := pg_row page (slot cbt) in
      match __wt_row_leaf_value page rip (value cursor) with
      | Some v => ret v
      | None =>
          match __wt_row_leaf_value_cell page rip with
          | None => ret (set_size (value cursor) 0)
          | Some cell =>
              v <- __wt_page_cell_data_ref session page
                     (__wt_cell_unpack cell) (value cursor) ;;
              ret v
          end
      end
  | WT_PAGE_COL_VAR =>
      let cell := pg_var_cell page (slot cbt) in
      v <- __wt_page_cell_data_ref session page (__wt_cell_unpack cell)
             (value cursor) ;;
      ret v
  | WT_PAGE_COL_FIX =>
      let v := __bit_getv_recno page (recno cursor) (bitcnt session) in
      v <- __wt_buf_set session (value cursor) [v] 1 ;;
      ret v
  end.
End BtRet.

(** *** The update walk of [__value_return_upd] *)

(** [u_int] arithmetic. *)
Definition UINT_MOD : Z := 2 ^ 32.
Definition uint_add (a b : Z) : Z := (a + b) mod UINT_MOD.
Definition uint_sub (a b : Z) : Z := (a - b) mod UINT_MOD.

(** [listp[i] = upd]: the array holds the entries stored so far; a store one
    past them extends it, a store further away is outside the array. *)
Definition list_store (listp : list WT_UPDATE) (i : Z) (upd : WT_UPDATE)
  : result (list WT_UPDATE) :=
  if (i <? 0) || (Z.of_nat (length listp) <? i) then Undef
  else Ok (firstn (Z.to_nat i) listp ++ upd :: skipn (Z.to_nat i + 1) listp).

Definition list_at (listp : list WT_UPDATE) (i : Z) : result WT_UPDATE :=
  if i <? 0 then Undef
  else match nth_error listp (Z.to_nat i) with
       | Some u => Ok u
       | None => Undef
       end.

(** [__wt_realloc_def] on the list of collected updates: the macro is
    declared elsewhere. It is given the size of the allocation so far and
    the number of entries wanted and grows the allocation as it sees fit;
    what is modelled is that it can fail, that it needs room for [number]
    pointers at least, which is what is asked of the allocator here, and
    that it keeps what the list holds (as does the copy from the stack
    array at the first spill). *)
Definition __wt_realloc_def (session : WT_SESSION_IMPL) (number : Z)
  : result unit :=
  if alloc_ok session (size_mul number sizeof_size_t) then Ok tt
  else Err ENOMEM.

Section BtRetUpd.
Context `{BtreeExtern}.

(** The [for] loop: find a complete update that's visible to us, tracking
    modifications that are visible to us. Returns [upd] as the loop leaves
    it (the empty chain for [NULL]), [i] and the list. *)
Fixpoint value_return_upd_walk (session : WT_SESSION_IMPL)
    (upd : list WT_UPDATE) (i : Z) (listp : list WT_UPDATE)
  : result (list WT_UPDATE * Z * list WT_UPDATE) :=
  match upd with
  | [] => Ok ([], i, listp)
  | u :: next =>
      if negb (__wt_txn_upd_visible session u) then
        value_return_upd_walk session next i listp
      else if WT_UPDATE_DATA_VALUE u then Ok (upd, i, listp)
      else if upd_type_eqb (type u) WT_UPDATE_MODIFIED then
        WT_RET (if WT_MAX_MODIFY_UPDATE <=? i
                then __wt_realloc_def session (uint_add i 1)
                else Ok tt) ;;
        listp <- list_store listp i u ;;
        value_return_upd_walk session next (uint_add i 1) listp
      else value_return_upd_walk session next i listp
  end.

(** The [while (i > 0)] loop: [n] iterations left. *)
Fixpoint value_return_upd_replay (session : WT_SESSION_IMPL)
    (listp : list WT_UPDATE) (n : nat) (i : Z) (v : WT_ITEM)
  : result WT_ITEM :=
  match n with
  | O => Ok v
  | S n' =>
      let i := uint_sub i 1 in
      u <- list_at listp i ;;
      v <- __wt_modify_apply session v (WT_UPDATE_DATA u) ;;
      value_return_upd_replay session listp n' i v
  end.

(** [__value_return_upd]: change the cursor to reference an internal
    update structure return value. The two [WT_ASSERT]s are diagnostic
    checks and compile to nothing otherwise. *)
Definition __value_return_upd (session : WT_SESSION_IMPL)
    (cbt : WT_CURSOR_BTREE) (upd : list WT_UPDATE)
  : result WT_CURSOR_BTREE :=
  let cursor := iface cbt in
  match upd with
  | [] => Undef
  | u :: _ =>
      if upd_type_eqb (type u) WT_UPDATE_STANDARD then
        Ok (set_iface cbt
              (set_value cursor
                 (mkItem (External (WT_UPDATE_DATA u)) (upd_size u)
                    (mem (value cursor)))))
      else
        r <- value_return_upd_walk session upd 0 [] ;;
        let '(upd, i, listp) := r in
        cbt <- match upd with
               | [] => __value_return session cbt
               | b :: _ =>
                   if upd_type_eqb (type b) WT_UPDATE_DELETED then
                     v <- __wt_buf_set session (value cursor) [] 0 ;;
                     Ok (set_iface cbt (set_value cursor v))
                   else
                     v <- __wt_buf_set session (value cursor)
                            (WT_UPDATE_DATA b) (upd_size b) ;;
                     Ok (set_iface cbt (set_value cursor v))
               end ;;
        v <- value_return_upd_replay session listp (Z.to_nat i) i
               (value (iface cbt)) ;;
        Ok (set_iface cbt (set_value (iface cbt) v))
  end.

(** [__wt_key_return]: change the cursor to reference an internal return
    key. *)
Definition __wt_key_return (session : WT_SESSION_IMPL)
    (cbt : WT_CURSOR_BTREE) : result WT_CURSOR_BTREE :=
  let cbt :=
    set_iface cbt
      (set_flags (iface cbt) (F_CLR (flags (iface cbt)) WT_CURSTD_KEY_EXT)) in
  if negb (F_ISSET (flags (iface cbt)) WT_CURSTD_KEY_INT) then
    cbt <- __key_return session cbt ;;
    Ok (set_iface cbt
          (set_flags (iface cbt)
             (F_SET (flags (iface cbt)) WT_CURSTD_KEY_INT)))
  else Ok cbt.

(** [__wt_value_return]: change the cursor to reference an internal return
    value. *)
Definition __wt_value_return (session : WT_SESSION_IMPL)
    (cbt : WT_CURSOR_BTREE) (upd : list WT_UPDATE)
  : result WT_CURSOR_BTREE :=
  let cbt :=
    set_iface cbt
      (set_flags (iface cbt)
         (F_CLR (flags (iface cbt)) WT_CURSTD_VALUE_EXT)) in
  cbt <- match upd with
         | [] => __value_return session cbt
         | _ :: _ => __value_return_upd session cbt upd
         end ;;
  Ok (set_iface cbt
        (set_flags (iface cbt) (F_SET (flags (iface cbt)) WT_CURSTD_VALUE_INT))).
End BtRetUpd.

(** ** Well-formed values, and the splice of the specification *)

(** What the C types and the allocator guarantee of an item: its size and
    capacity are [size_t] values and its [size] bytes of data exist, inside
    its own memory or in the memory it references. *)
Definition wf_item (i : WT_ITEM) : Prop :=
  in_size_t (size i) /\ memsize i < SIZE_MOD /\
  match data i with
  | InMem off => 0 <= off /\ off + size i <= memsize i
  | External bs => size i <= len bs
  end.

(** The replacement size after the correction of [__modify_apply_one]. *)
Definition clamped_size (vsize offset size_ : Z) : Z :=
  if vsize <? size_add offset size_ then size_sub vsize offset else size_.

(** The splice as the specification words it, on byte strings and
    unbounded integers: past the end, zero-fill the gap and append; else
    replace [min replace_len (len B - offset)] bytes at [offset] by the
    data. *)
Definition apply_edit (B : list byte) (offset replace_len : Z)
    (data_ : list byte) : list byte :=
  if len B <=? offset then
    B ++ repeat Byte.x00 (Z.to_nat (offset - len B)) ++ data_
  else
    let r := Z.min replace_len (len B - offset) in
    slice B 0 offset ++ data_ ++ slice B (offset + r) (len B - (offset + r)).
(** ** The data of a modification *)

(** The [n] bytes found at a data pointer, in the allocation [m] for a
    pointer into the value. *)
Definition src_bytes (m : list byte) (p : src_ptr) (n : Z) : list byte :=
  match p with
  | Outside bs => slice bs 0 n
  | InValue _ off => slice m off n
  end.

(** There are [n] bytes at the pointer: in the memory it points to, or in
    the allocation [m], which is the one the pointer was made for. *)
Definition src_readable (m : list byte) (p : src_ptr) (n : Z) : Prop :=
  match p with
  | Outside bs => n <= len bs
  | InValue capacity off => capacity = len m /\ 0 <= off /\ off + n <= len m
  end.

(** The data of the edit [(ds, off, sz)] on [v] is not written before it
    is copied. That is so for data outside the value's memory. Data inside
    it, at [o], is read from the memory as the edit has left it so far: the
    pointer has to be one into the present allocation and the value has to
    be in the item's own memory (else growing the buffer copies the value
    over it); for an edit at or past the end of the value the data has to
    end at or before the end of the value, short of the gap that is filled
    with zeros; on the size-changing path it has to start at or before the
    offset of the edit, short of where the trailing bytes are moved to. The
    two other paths make one move, which reads before it writes. *)
Definition src_kept (v : WT_ITEM) (ds off sz : Z) (p : src_ptr) : Prop :=
  match p with
  | Outside _ => True
  | InValue capacity o =>
      capacity = memsize v /\ WT_DATA_IN_ITEM v = true /\
      (size v <= off -> o + ds <= data_offset v + size v) /\
      (off < size v -> ds <> clamped_size (size v) off sz ->
       o <= data_offset v + off)
  end.

(** ** Edits applied one after the other, and what a packed value holds *)

(** What the C types guarantee of an entry: its three sizes are [size_t]
    values. *)
Definition wf_modify (e : WT_MODIFY) : Prop :=
  in_size_t (mod_data_size e) /\ in_size_t (mod_offset e) /\
  in_size_t (mod_size e).

(** The data of the entry does not lie in the memory of a value. *)
Definition modify_outside (e : WT_MODIFY) : Prop :=
  exists bs, mod_data e = Outside bs.

(** The data of the entry is there to be read. *)
Definition modify_readable (vmem : list byte) (e : WT_MODIFY) : Prop :=
  src_readable vmem (mod_data e) (mod_data_size e).

(** The data of an entry: [data.size] bytes at [data.data]. *)
Definition modify_bytes (vmem : list byte) (e : WT_MODIFY) : list byte :=
  src_bytes vmem (mod_data e) (mod_data_size e).

(** The entry with a copy of its data, as found in [vmem], in place of the
    pointer. *)
Definition modify_resolve (vmem : list byte) (e : WT_MODIFY) : WT_MODIFY :=
  mkModify (Outside (modify_bytes vmem e)) (mod_data_size e) (mod_offset e)
    (mod_size e).

(** [__modify_apply_one] on the entries of a list, first to last. *)
Fixpoint modify_apply_list (session : WT_SESSION_IMPL)
    (es : list WT_MODIFY) (value : WT_ITEM) : result WT_ITEM :=
  match es with
  | [] => Ok value
  | e :: es' =>
      value <- __modify_apply_one session value (mod_data_size e)
                 (mod_offset e) (mod_size e) (mod_data e) ;;
      modify_apply_list session es' value
  end.

(** The memory [m] holds the entries [es]: their triples from offset [p]
    on, their data, as found behind their pointers, from offset [data_]
    on. *)
Fixpoint holds_entries (vmem m : list byte) (p data_ : Z)
    (es : list WT_MODIFY) : Prop :=
  match es with
  | [] => True
  | e :: es' =>
      load_size_t m p = Ok (mod_data_size e) /\
      load_size_t m (p + sizeof_size_t) = Ok (mod_offset e) /\
      load_size_t m (p + 2 * sizeof_size_t) = Ok (mod_size e) /\
      mem_read m data_ (mod_data_size e) = Ok (modify_bytes vmem e) /\
      holds_entries vmem m (p + 3 * sizeof_size_t)
        (data_ + mod_data_size e) es'
  end.

(** The sum of the data sizes of the entries. *)
Definition data_total (es : list WT_MODIFY) : Z :=
  fold_right (fun e acc => mod_data_size e + acc) 0 es.


(** ** The update chain as the walk sees it *)

(** The base of a chain: the nearest visible update that carries a whole
    value, a standard update or a tombstone. *)
Definition is_base (session : WT_SESSION_IMPL) (upd : WT_UPDATE) : bool :=
  __wt_txn_upd_visible session upd && WT_UPDATE_DATA_VALUE upd.

Definition base_of (session : WT_SESSION_IMPL) (chain : list WT_UPDATE)
  : option WT_UPDATE :=
  find (is_base session) chain.

(** The updates above the base, newest first. *)
Fixpoint above_base (session : WT_SESSION_IMPL) (chain : list WT_UPDATE)
  : list WT_UPDATE :=
  match chain with
  | [] => []
  | u :: next =>
      if is_base session u then [] else u :: above_base session next
  end.

(** The pending modifications: the visible modify updates above the base,
    newest first. *)
Definition pending (session : WT_SESSION_IMPL) (chain : list WT_UPDATE)
  : list WT_UPDATE :=
  filter (fun u => __wt_txn_upd_visible session u
                   && upd_type_eqb (type u) WT_UPDATE_MODIFIED)
    (above_base session chain).

(** [__wt_modify_apply] on the payloads of a list of updates, first to
    last. *)
Fixpoint modify_apply_updates (session : WT_SESSION_IMPL)
    (us : list WT_UPDATE) (v : WT_ITEM) : result WT_ITEM :=
  match us with
  | [] => Ok v
  | u :: us' =>
      v <- __wt_modify_apply session v (WT_UPDATE_DATA u) ;;
      modify_apply_updates session us' v
  end.

(** The payload of [upd] is the entries [es], packed; the entries have
    their data in memory of their own. *)
Definition packed_from (upd : WT_UPDATE) (es : list WT_MODIFY) : Prop :=
  Z.of_nat (length es) <= INT_MAX /\ Forall wf_modify es /\
  Forall modify_outside es /\
  exists session blob,
    __wt_modify_pack session [] es (Z.of_nat (length es)) = Ok blob /\
    WT_UPDATE_DATA upd = data_bytes blob.

(** The cursor's value set from the base: the on-page value when the chain
    has none, the empty value for a tombstone, a copy of the payload for a
    standard update. *)
Definition value_from_base `{BtreeExtern} (session : WT_SESSION_IMPL)
    (cbt : WT_CURSOR_BTREE) (base : option WT_UPDATE)
  : result WT_CURSOR_BTREE :=
  match base with
  | None => __value_return session cbt
  | Some b =>
      if upd_type_eqb (type b) WT_UPDATE_DELETED then
        v <- __wt_buf_set session (value (iface cbt)) [] 0 ;;
        Ok (set_iface cbt (set_value (iface cbt) v))
      else
        v <- __wt_buf_set session (value (iface cbt))
               (WT_UPDATE_DATA b) (upd_size b) ;;
        Ok (set_iface cbt (set_value (iface cbt) v))
  end.

(** The allocations of the walk succeed: every growth of the list past the
    stack array. *)
Definition spill_ok `{BtreeExtern} (session : WT_SESSION_IMPL) (n : Z)
  : Prop :=
  forall i, WT_MAX_MODIFY_UPDATE <= i < n ->
            alloc_ok session (size_mul (uint_add i 1) sizeof_size_t) = true.

(** ** Concrete values for the examples *)

Definition result_get {A : Type} (r : result A) (default : A) : A :=
  match r with
  | Ok a => a
  | _ => default
  end.

(** A session whose allocator always delivers, whose fresh memory reads
    [0xff], and to which every transaction is visible. *)
Definition ex_session : WT_SESSION_IMPL :=
  mkSession (fun _ => true) (fun _ => Byte.xff) (fun _ => true) 8.

(** The ASCII texts [0123456789], [abc], [hello], [H], [ world], [old] and
    [new]. *)
Definition ex_digits : list byte :=
  [Byte.x30; Byte.x31; Byte.x32; Byte.x33; Byte.x34;
   Byte.x35; Byte.x36; Byte.x37; Byte.x38; Byte.x39].
Definition ex_abc : list byte := [Byte.x61; Byte.x62; Byte.x63].
Definition ex_hello : list byte :=
  [Byte.x68; Byte.x65; Byte.x6c; Byte.x6c; Byte.x6f].
Definition ex_H : list byte := [Byte.x48].
Definition ex_world : list byte :=
  [Byte.x20; Byte.x77; Byte.x6f; Byte.x72; Byte.x6c; Byte.x64].
Definition ex_old : list byte := [Byte.x6f; Byte.x6c; Byte.x64].
Definition ex_new : list byte := [Byte.x6e; Byte.x65; Byte.x77].

(** An item that references the bytes [bs], which it does not own. *)
Definition ex_ref (bs : list byte) : WT_ITEM :=
  mkItem (External bs) (len bs) [].

(** An item that owns the bytes [bs] in a memory with [spare] more bytes. *)
Definition ex_owned (bs : list byte) (spare : nat) : WT_ITEM :=
  mkItem (InMem 0) (len bs) (bs ++ repeat Byte.xff spare).

(** An entry whose data is the bytes [bs], in memory of the caller. *)
Definition ex_entry (offset size_ : Z) (bs : list byte) : WT_MODIFY :=
  mkModify (Outside bs) (len bs) offset size_.

(** An entry whose data is the [n] bytes at [at_] of the value's
    allocation of [capacity] bytes. *)
Definition ex_entry_in (offset size_ capacity at_ n : Z) : WT_MODIFY :=
  mkModify (InValue capacity at_) n offset size_.

(** The packed value of a list of entries, for entries that may point into
    the allocation [vmem]. *)
Definition ex_pack_in (vmem : list byte) (es : list WT_MODIFY) : WT_ITEM :=
  result_get (__wt_modify_pack ex_session vmem es (Z.of_nat (length es)))
    (ex_ref []).

Definition ex_pack (es : list WT_MODIFY) : WT_ITEM := ex_pack_in [] es.

Definition ex_modify_upd (txn : Z) (es : list WT_MODIFY) : WT_UPDATE :=
  mkUpdate txn WT_UPDATE_MODIFIED (size (ex_pack es))
    (data_bytes (ex_pack es)).
Definition ex_standard_upd (txn : Z) (bs : list byte) : WT_UPDATE :=
  mkUpdate txn WT_UPDATE_STANDARD (len bs) bs.
Definition ex_tombstone (txn : Z) : WT_UPDATE :=
  mkUpdate txn WT_UPDATE_DELETED 0 [].

(** A page layer with nothing on the page, and the flag bits of the cursor
    header. *)
Definition ex_extern : BtreeExtern :=
  {| WT_PAGE := unit;
     WT_ROW := unit;
     WT_CELL := unit;
     WT_CELL_UNPACK := unit;
     WT_INSERT := list byte;
     page_type_of := fun _ => WT_PAGE_ROW_LEAF;
     pg_row := fun _ _ => tt;
     pg_var_cell := fun _ _ => tt;
     __wt_row_leaf_value := fun _ _ _ => None;
     __wt_row_leaf_value_cell := fun _ _ => None;
     __wt_cell_unpack := fun _ => tt;
     __wt_page_cell_data_ref := fun _ _ _ v => Ok v;
     __bit_getv_recno := fun _ _ _ => Byte.x00;
     __wt_row_leaf_key := fun _ _ _ k => Ok k;
     WT_INSERT_KEY := fun k => k;
     WT_INSERT_KEY_SIZE := fun k => len k;
     WT_MAX_MODIFY_UPDATE := 200;
     WT_CURSTD_KEY_EXT := 32;
     WT_CURSTD_KEY_INT := 64;
     WT_CURSTD_VALUE_EXT := 1024;
     WT_CURSTD_VALUE_INT := 2048 |}.

(** A cursor on a row-store page, not on an insert item, whose value is
    [old] and whose flags are [flags_]. *)
Definition ex_cbt (flags_ : Z) : @WT_CURSOR_BTREE ex_extern :=
  @mkCbt ex_extern
    (mkCursor (ex_ref ex_abc) (ex_owned ex_old 0) 0 flags_)
    tt 0 None 1 (ex_ref []) (ex_ref []) 0.

(** [hello] with two pending modifications: [H] over the first byte, then
    [ world] appended. *)
Definition ex_chain_hello : list WT_UPDATE :=
  [ex_modify_upd 3 [ex_entry 5 0 ex_world];
   ex_modify_upd 2 [ex_entry 0 1 ex_H];
   ex_standard_upd 1 ex_hello].

(** A tombstone with one pending modification above it: [abc] at offset 3. *)
Definition ex_chain_tombstone : list WT_UPDATE :=
  [ex_modify_upd 2 [ex_entry 3 0 ex_abc]; ex_tombstone 1].

(** ** Auxiliary notions for the properties *)

(** An outcome that is not an error code. *)
Definition no_err {A : Type} (r : result A) : Prop := forall e, r <> Err e.

(** A session whose allocator refuses every request. *)
Definition ex_session_nomem : WT_SESSION_IMPL :=
  mkSession (fun _ => false) (fun _ => Byte.xff) (fun _ => true) 8.

(** Two walks agree: same outcome, and on success the same list, the same
    count and the same update to start from. *)
Definition walk_agree
    (r1 r2 : result (list WT_UPDATE * Z * list WT_UPDATE)) : Prop :=
  match r1, r2 with
  | Ok (u1, i1, l1), Ok (u2, i2, l2) =>
      hd_error u1 = hd_error u2 /\ i1 = i2 /\ l1 = l2
  | Err e1, Err e2 => e1 = e2
  | Undef, Undef => True
  | _, _ => False
  end.

(** The page layer of the examples with a stack array of one entry. *)
Definition ex_extern_small : BtreeExtern :=
  {| WT_PAGE := unit;
     WT_ROW := unit;
     WT_CELL := unit;
     WT_CELL_UNPACK := unit;
     WT_INSERT := list byte;
     page_type_of := fun _ => WT_PAGE_ROW_LEAF;
     pg_row := fun _ _ => tt;
     pg_var_cell := fun _ _ => tt;
     __wt_row_leaf_value := fun _ _ _ => None;
     __wt_row_leaf_value_cell := fun _ _ => None;
     __wt_cell_unpack := fun _ => tt;
     __wt_page_cell_data_ref := fun _ _ _ v => Ok v;
     __bit_getv_recno := fun _ _ _ => Byte.x00;
     __wt_row_leaf_key := fun _ _ _ k => Ok k;
     WT_INSERT_KEY := fun k => k;
     WT_INSERT_KEY_SIZE := fun k => len k;
     WT_MAX_MODIFY_UPDATE := 1;
     WT_CURSTD_KEY_EXT := 32;
     WT_CURSTD_KEY_INT := 64;
     WT_CURSTD_VALUE_EXT := 1024;
     WT_CURSTD_VALUE_INT := 2048 |}.

Definition ex_cbt_small : @WT_CURSOR_BTREE ex_extern_small :=
  @mkCbt ex_extern_small
    (mkCursor (ex_ref ex_abc) (ex_owned ex_old 0) 0 0)
    tt 0 None 1 (ex_ref []) (ex_ref []) 0.

(** * Properties *)

(** ** Machine integers *)

Lemma SIZE_MOD_pos : 0 < SIZE_MOD.
Proof. reflexivity. Qed.

Lemma wrap_small (z : Z) : 0 <= z < SIZE_MOD -> wrap z = z.
Proof. intros Hz. unfold wrap. apply Z.mod_small. exact Hz. Qed.

Lemma wrap_range (z : Z) : 0 <= wrap z < SIZE_MOD.
Proof. unfold wrap. apply Z.mod_pos_bound. exact SIZE_MOD_pos. Qed.

Lemma wrap_eq_small (z r : Z) :
  0 <= r < SIZE_MOD -> (exists k, z = r + k * SIZE_MOD) -> wrap z = r.
Proof.
  intros Hr [k ->]. unfold wrap.
  rewrite Z.mod_add by (unfold SIZE_MOD; lia).
  apply Z.mod_small. exact Hr.
Qed.

Lemma wrap_decompose (z : Z) : exists k, z = wrap z + k * SIZE_MOD.
Proof.
  exists (z / SIZE_MOD). unfold wrap.
  pose proof (Z.div_mod z SIZE_MOD) as Hd.
  assert (SIZE_MOD <> 0) by (unfold SIZE_MOD; lia).
  specialize (Hd H). lia.
Qed.

(** ** Lists as memory *)

Ltac ltb_cases :=
  repeat match goal with
  | |- context [Nat.ltb ?a ?b] => destruct (Nat.ltb_spec a b)
  end.

Ltac nth_norm :=
  repeat first
    [ rewrite nth_error_app
    | rewrite nth_error_firstn
    | rewrite nth_error_skipn
    | rewrite length_app
    | rewrite length_firstn
    | rewrite length_skipn
    | rewrite repeat_length ].

Ltac nth_close :=
  try reflexivity;
  try (exfalso; lia);
  try (f_equal; lia);
  try (symmetry; apply nth_error_None; lia);
  try (apply nth_error_None; lia);
  try (transitivity (@None byte);
       [ apply nth_error_None; lia | symmetry; apply nth_error_None; lia ]).

Ltac min_cases :=
  repeat match goal with
  | |- context [Nat.min ?a ?b] =>
      let Hm := fresh "Hm" in
      destruct (Nat.min_spec a b) as [[? Hm] | [? Hm]];
      rewrite Hm in *; clear Hm
  | H : context [Nat.min ?a ?b] |- _ =>
      let Hm := fresh "Hm" in
      destruct (Nat.min_spec a b) as [[? Hm] | [? Hm]];
      rewrite Hm in *; clear Hm
  end.

Ltac list_ext i :=
  apply nth_error_ext; intros i; unfold slice, splice_at, len in *;
  nth_norm; ltb_cases; nth_close; min_cases; nth_close.

Lemma len_nonneg (m : list byte) : 0 <= len m.
Proof. unfold len. lia. Qed.

Lemma len_app (a b : list byte) : len (a ++ b) = len a + len b.
Proof. unfold len. rewrite length_app. lia. Qed.

Lemma len_repeat (c : byte) (n : Z) : 0 <= n -> len (repeat c (Z.to_nat n)) = n.
Proof. intros Hn. unfold len. rewrite repeat_length. lia. Qed.

Lemma in_bounds_true (m : list byte) (a n : Z) :
  in_bounds m a n = true <-> 0 <= a /\ 0 <= n /\ a + n <= len m.
Proof.
  unfold in_bounds. rewrite !andb_true_iff, !Z.leb_le. tauto.
Qed.

Lemma len_slice (m : list byte) (a n : Z) :
  0 <= a -> 0 <= n -> a + n <= len m -> len (slice m a n) = n.
Proof.
  intros Ha Hn Hb. unfold slice, len in *.
  rewrite length_firstn, length_skipn. lia.
Qed.

Lemma len_splice_at (m : list byte) (a : Z) (bs : list byte) :
  0 <= a -> a + len bs <= len m -> len (splice_at m a bs) = len m.
Proof.
  intros Ha Hb. unfold splice_at, len in *.
  rewrite !length_app, length_firstn, length_skipn. lia.
Qed.

Lemma slice_all (m : list byte) : slice m 0 (len m) = m.
Proof.
  unfold slice, len. rewrite Nat2Z.id. simpl. apply firstn_all.
Qed.

Lemma slice_nil (m : list byte) (a : Z) : slice m a 0 = [].
Proof. reflexivity. Qed.

Lemma slice_app (m : list byte) (a n1 n2 : Z) :
  0 <= a -> 0 <= n1 -> 0 <= n2 ->
  slice m a (n1 + n2) = slice m a n1 ++ slice m (a + n1) n2.
Proof.
  intros Ha H1 H2. list_ext i.
Qed.

Lemma slice_slice (m : list byte) (a n b k : Z) :
  0 <= a -> 0 <= b -> 0 <= k -> b + k <= n ->
  slice (slice m a n) b k = slice m (a + b) k.
Proof.
  intros Ha Hb Hk Hn. list_ext i.
Qed.

Lemma slice_splice_same (m : list byte) (a : Z) (bs : list byte) :
  0 <= a -> a + len bs <= len m ->
  slice (splice_at m a bs) a (len bs) = bs.
Proof.
  intros Ha Hb. list_ext i.
Qed.

Lemma slice_splice_before (m : list byte) (a : Z) (bs : list byte) (b n : Z) :
  0 <= a -> a + len bs <= len m -> 0 <= b -> 0 <= n -> b + n <= a ->
  slice (splice_at m a bs) b n = slice m b n.
Proof.
  intros Ha Hb Hb0 Hn Hd. list_ext i.
Qed.

Lemma slice_splice_after (m : list byte) (a : Z) (bs : list byte) (b n : Z) :
  0 <= a -> a + len bs <= len m -> 0 <= n -> a + len bs <= b ->
  slice (splice_at m a bs) b n = slice m b n.
Proof.
  intros Ha Hb Hn Hd. list_ext i.
Qed.

Lemma slice_app_left (a b : list byte) (n : Z) :
  0 <= n -> n <= len a -> slice (a ++ b) 0 n = slice a 0 n.
Proof.
  intros Hn Hl. list_ext i.
Qed.

Lemma slice_firstn (m : list byte) (n : Z) : slice m 0 n = firstn (Z.to_nat n) m.
Proof. reflexivity. Qed.

(** ** Outcomes *)

Lemma bind_Ok {A B : Type} (m : result A) (k : A -> result B) (b : B) :
  bind m k = Ok b -> exists a, m = Ok a /\ k a = Ok b.
Proof.
  destruct m as [a | e |]; simpl; intros Hb; try discriminate.
  exists a. split; [reflexivity | exact Hb].
Qed.

Ltac bind_inv H :=
  let a := fresh "a" in
  let Ha := fresh "Hbind" in
  apply bind_Ok in H; destruct H as [a [Ha H]].

Lemma mem_read_Ok (m : list byte) (a n : Z) (bs : list byte) :
  mem_read m a n = Ok bs ->
  0 <= a /\ 0 <= n /\ a + n <= len m /\ bs = slice m a n.
Proof.
  unfold mem_read. destruct (in_bounds m a n) eqn:Hb; intros Hr;
    try discriminate.
  apply in_bounds_true in Hb. inversion Hr. tauto.
Qed.

Lemma mem_write_Ok (m : list byte) (a : Z) (bs m' : list byte) :
  mem_write m a bs = Ok m' ->
  0 <= a /\ a + len bs <= len m /\ m' = splice_at m a bs /\ len m' = len m.
Proof.
  unfold mem_write. destruct (in_bounds m a (len bs)) eqn:Hb; intros Hr;
    try discriminate.
  apply in_bounds_true in Hb. inversion Hr.
  repeat split; try tauto. apply len_splice_at; tauto.
Qed.

Lemma memmove_Ok (m : list byte) (to : Z) (src : list byte) (from n : Z)
    (m' : list byte) :
  memmove m to src from n = Ok m' ->
  0 <= from /\ 0 <= n /\ from + n <= len src /\
  0 <= to /\ to + n <= len m /\
  m' = splice_at m to (slice src from n) /\ len m' = len m /\
  len (slice src from n) = n.
Proof.
  unfold memmove. intros Hm. bind_inv Hm.
  apply mem_read_Ok in Hbind. destruct Hbind as (Hf & Hn & Hb & ->).
  apply mem_write_Ok in Hm. destruct Hm as (Ht & Hw & -> & Hl).
  rewrite len_slice in Hw by assumption.
  repeat split; try assumption. apply len_slice; assumption.
Qed.

Lemma memmove_defined (m : list byte) (to : Z) (src : list byte) (from n : Z) :
  0 <= from -> 0 <= n -> from + n <= len src -> 0 <= to -> to + n <= len m ->
  memmove m to src from n = Ok (splice_at m to (slice src from n)).
Proof.
  intros Hf Hn Hs Ht Hm. unfold memmove, mem_read, mem_write.
  replace (in_bounds src from n) with true
    by (symmetry; apply in_bounds_true; lia).
  simpl. rewrite len_slice by assumption.
  replace (in_bounds m to n) with true
    by (symmetry; apply in_bounds_true; lia).
  reflexivity.
Qed.

Lemma memset_Ok (m : list byte) (a : Z) (c : byte) (n : Z) (m' : list byte) :
  memset m a c n = Ok m' ->
  0 <= n /\ 0 <= a /\ a + n <= len m /\
  m' = splice_at m a (repeat c (Z.to_nat n)) /\ len m' = len m.
Proof.
  unfold memset. destruct (Z.leb_spec 0 n) as [Hn | Hn]; intros Hr;
    try discriminate.
  apply mem_write_Ok in Hr. rewrite len_repeat in Hr by assumption.
  tauto.
Qed.

Lemma memset_defined (m : list byte) (a : Z) (c : byte) (n : Z) :
  0 <= n -> 0 <= a -> a + n <= len m ->
  memset m a c n = Ok (splice_at m a (repeat c (Z.to_nat n))).
Proof.
  intros Hn Ha Hb. unfold memset, mem_write.
  destruct (Z.leb_spec 0 n); [| lia].
  rewrite len_repeat by assumption.
  replace (in_bounds m a n) with true
    by (symmetry; apply in_bounds_true; lia).
  reflexivity.
Qed.

(** ** Items *)

Lemma item_bytes_InMem (d sz : Z) (m : list byte) :
  item_bytes (mkItem (InMem d) sz m) = slice m d sz.
Proof. reflexivity. Qed.

Lemma item_bytes_slice (v : WT_ITEM) :
  item_bytes v = slice (data_bytes v) 0 (size v).
Proof. reflexivity. Qed.

Lemma len_data_bytes (v : WT_ITEM) :
  wf_item v -> size v <= len (data_bytes v).
Proof.
  intros (Hs & Hm & Hd). unfold data_bytes, memsize in *.
  destruct (data v) as [off | bs]; [| exact Hd].
  unfold len in *. rewrite length_skipn. lia.
Qed.

Lemma len_item_bytes (v : WT_ITEM) :
  wf_item v -> len (item_bytes v) = size v.
Proof.
  intros Hwf. rewrite item_bytes_slice.
  pose proof (len_data_bytes v Hwf) as Hl. destruct Hwf as ((H0 & _) & _).
  apply len_slice; lia.
Qed.

Lemma len_fresh_bytes (s : WT_SESSION_IMPL) (a n : Z) :
  0 <= n -> len (fresh_bytes s a n) = n.
Proof.
  intros Hn. unfold fresh_bytes, len. rewrite length_map, length_seq. lia.
Qed.

Lemma slice_app_l (x y : list byte) (a n : Z) :
  0 <= a -> 0 <= n -> a + n <= len x -> slice (x ++ y) a n = slice x a n.
Proof.
  intros Ha Hn Hb. list_ext i.
Qed.

Lemma realloc_Ok (s : WT_SESSION_IMPL) (m : list byte) (n : Z) (m' : list byte) :
  len m < n -> realloc s m n = Ok m' ->
  len m' = n /\ forall a k, 0 <= a -> 0 <= k -> a + k <= len m ->
                            slice m' a k = slice m a k.
Proof.
  unfold realloc. intros Hlt. destruct (alloc_ok s n); intros Hr;
    inversion Hr; subst.
  split.
  - rewrite len_app, len_fresh_bytes by lia. lia.
  - intros a k Ha Hk Hb. apply slice_app_l; assumption.
Qed.

(** ** [__wt_buf_grow] *)

Lemma WT_DATA_IN_ITEM_true (v : WT_ITEM) :
  WT_DATA_IN_ITEM v = true ->
  exists off, data v = InMem off /\ 0 <= off < memsize v.
Proof.
  unfold WT_DATA_IN_ITEM. destruct (data v) as [off | bs]; try discriminate.
  rewrite andb_true_iff, Z.leb_le, Z.ltb_lt. intros Hb.
  exists off. split; [reflexivity | exact Hb].
Qed.

(** After a successful grow the data is in the item, at the offset the
    caller computed, the capacity is the one asked for, and the value is the
    same. *)
Lemma buf_grow_Ok (s : WT_SESSION_IMPL) (v : WT_ITEM) (n : Z) (v0 : WT_ITEM) :
  wf_item v -> 0 <= n < SIZE_MOD -> __wt_buf_grow s v n = Ok v0 ->
  let d := if WT_DATA_IN_ITEM v then data_offset v else 0 in
  v0 = mkItem (InMem d) (size v) (mem v0) /\
  0 <= d /\ d + size v <= len (mem v0) /\ n <= len (mem v0) /\
  len (mem v0) < SIZE_MOD /\
  slice (mem v0) d (size v) = item_bytes v.
Proof.
  intros Hwf Hn Hg d.
  pose proof Hwf as ((Hs0 & Hs1) & Hcap & Hdat).
  unfold __wt_buf_grow in Hg. unfold memsize in Hcap, Hdat.
  assert (Hm : forall m, (if memsize v <? n then realloc s (mem v) n
                          else Ok (mem v)) = Ok m ->
               n <= len m /\ len m < SIZE_MOD /\ len (mem v) <= len m /\
               forall a k, 0 <= a -> 0 <= k -> a + k <= len (mem v) ->
                           slice m a k = slice (mem v) a k).
  { intros m. unfold memsize in *. destruct (Z.ltb_spec (len (mem v)) n) as [Hlt | Hge].
    - intros Hr. apply realloc_Ok in Hr; [| exact Hlt].
      destruct Hr as [Hl Hsl]. repeat split; try lia. exact Hsl.
    - intros Hr. inversion Hr; subst. repeat split; try lia. }
  destruct (WT_DATA_IN_ITEM v) eqn:Hin.
  - apply WT_DATA_IN_ITEM_true in Hin. destruct Hin as (off & Hoff & Hrange).
    assert (Hd : d = off) by (subst d; unfold data_offset; rewrite Hoff; reflexivity).
    rewrite Hoff in Hdat. destruct Hdat as [Ho0 Ho1].
    assert (Hib : item_bytes v = slice (mem v) off (size v)).
    { unfold item_bytes, data_bytes. rewrite Hoff. reflexivity. }
    rewrite orb_false_r in Hg. unfold memsize in Hrange.
    destruct (memsize v <? n) eqn:Hlt.
    + simpl in Hg. bind_inv Hg. apply Hm in Hbind.
      destruct Hbind as (H1 & H2 & H3 & H4).
      inversion Hg; subst v0. simpl. unfold set_mem in *. rewrite Hoff, Hd.
      repeat split; try lia.
      rewrite Hib. apply H4; lia.
    + inversion Hg; subst v0. unfold memsize in *. rewrite Hd.
      apply Z.ltb_ge in Hlt.
      repeat split; try lia.
      * destruct v as [dv sv mv]. simpl in *. subst dv. reflexivity.
      * symmetry. exact Hib.
  - rewrite orb_true_r in Hg. bind_inv Hg. apply Hm in Hbind.
    destruct Hbind as (H1 & H2 & H3 & H4).
    bind_inv Hg. apply memmove_Ok in Hbind.
    destruct Hbind as (_ & _ & Hsrc & _ & Hdst & Hspl & Hlen & Hls).
    inversion Hg; subst v0. simpl. subst d.
    repeat split; try lia.
    subst a0. rewrite item_bytes_slice.
    pose proof (slice_splice_same a 0 (slice (data_bytes v) 0 (size v)))
      as Hsame.
    rewrite Hls in Hsame. apply Hsame; lia.
Qed.

(** A grow succeeds whenever the allocator does, for a well-formed item
    whose value fits the requested capacity. *)
Lemma buf_grow_defined (s : WT_SESSION_IMPL) (v : WT_ITEM) (n : Z) :
  wf_item v -> size v <= n ->
  (memsize v < n -> alloc_ok s n = true) ->
  exists v0, __wt_buf_grow s v n = Ok v0.
Proof.
  intros Hwf Hsz Halloc.
  pose proof (len_data_bytes v Hwf) as Hdb.
  destruct Hwf as ((Hs0 & Hs1) & Hcap & Hdat).
  unfold __wt_buf_grow.
  destruct (WT_DATA_IN_ITEM v) eqn:Hin.
  - rewrite orb_false_r. destruct (Z.ltb_spec (memsize v) n) as [Hlt | Hge].
    + unfold realloc. rewrite (Halloc Hlt). simpl. eexists. reflexivity.
    + eexists. reflexivity.
  - rewrite orb_true_r. unfold memsize in *.
    destruct (Z.ltb_spec (len (mem v)) n) as [Hlt | Hge].
    + unfold realloc. rewrite (Halloc Hlt). simpl.
      rewrite memmove_defined; try lia.
      * simpl. eexists. reflexivity.
      * rewrite len_app, len_fresh_bytes by lia. lia.
    + simpl. rewrite memmove_defined; try lia.
      simpl. eexists. reflexivity.
Qed.

(** ** The three stores of [__modify_apply_one], on raw memory *)

Lemma splice_at_nil (m : list byte) (a : Z) : splice_at m a [] = m.
Proof.
  unfold splice_at. simpl. rewrite Z.add_0_r. apply firstn_skipn.
Qed.

(** One store of [bs] at [off]: prefix, new bytes, unchanged rest. *)
Lemma overwrite_bytes (m0 : list byte) (d off n : Z) (bs : list byte) :
  0 <= d -> 0 <= off -> off + len bs <= n -> d + n <= len m0 ->
  slice (splice_at m0 (d + off) bs) d n =
  slice m0 d off ++ bs ++ slice m0 (d + off + len bs) (n - (off + len bs)).
Proof.
  intros Hd Hoff Hn Hb.
  pose proof (len_nonneg bs) as Hl.
  replace n with (off + (len bs + (n - (off + len bs)))) at 1 by lia.
  rewrite slice_app by lia. rewrite slice_app by lia.
  f_equal; [| f_equal].
  - apply slice_splice_before; lia.
  - apply slice_splice_same; lia.
  - apply slice_splice_after; lia.
Qed.

(** Gap fill then store, past the end of the value. *)
Lemma tail_bytes (m0 : list byte) (d vs off : Z) (bs : list byte) :
  0 <= d -> 0 <= vs <= off -> d + off + len bs <= len m0 ->
  slice (splice_at
           (splice_at m0 (d + vs) (repeat Byte.x00 (Z.to_nat (off - vs))))
           (d + off) bs) d (off + len bs) =
  slice m0 d vs ++ repeat Byte.x00 (Z.to_nat (off - vs)) ++ bs.
Proof.
  intros Hd Hvs Hb.
  set (zeros := repeat Byte.x00 (Z.to_nat (off - vs))).
  replace (off + len bs) with (vs + ((off - vs) + len bs)) by lia.
  pose proof (len_nonneg bs) as Hl.
  assert (Hz : len zeros = off - vs) by (apply len_repeat; lia).
  assert (Hl1 : len (splice_at m0 (d + vs) zeros) = len m0)
    by (apply len_splice_at; lia).
  rewrite slice_app by lia. rewrite slice_app by lia.
  f_equal; [| f_equal].
  - rewrite slice_splice_before by lia.
    apply slice_splice_before; lia.
  - rewrite slice_splice_before by lia.
    pose proof (slice_splice_same m0 (d + vs) zeros) as Hsame.
    rewrite Hz in Hsame. apply Hsame; lia.
  - replace (d + vs + (off - vs)) with (d + off) by lia.
    apply slice_splice_same; lia.
Qed.

(** Move of the trailing bytes, then store of the new bytes. *)
Lemma shift_bytes (m0 : list byte) (d vs off from : Z) (bs : list byte) :
  0 <= d -> 0 <= off -> 0 <= from <= vs -> d + vs <= len m0 -> off <= vs ->
  d + off + len bs + (vs - from) <= len m0 ->
  slice (splice_at
           (splice_at m0 (d + (off + len bs)) (slice m0 (d + from) (vs - from)))
           (d + off) bs) d (off + len bs + (vs - from)) =
  slice m0 d off ++ bs ++ slice m0 (d + from) (vs - from).
Proof.
  intros Hd Hoff Hfrom Hvs Hov Hb.
  set (tl := slice m0 (d + from) (vs - from)).
  pose proof (len_nonneg bs) as Hl.
  assert (Hz : len tl = vs - from) by (apply len_slice; lia).
  assert (Hl1 : len (splice_at m0 (d + (off + len bs)) tl) = len m0)
    by (apply len_splice_at; lia).
  rewrite <- Z.add_assoc.
  rewrite slice_app by lia. rewrite slice_app by lia.
  f_equal; [| f_equal].
  - rewrite slice_splice_before by lia.
    apply slice_splice_before; lia.
  - apply slice_splice_same; lia.
  - rewrite slice_splice_after by lia.
    replace (d + off + len bs) with (d + (off + len bs)) by lia.
    pose proof (slice_splice_same m0 (d + (off + len bs)) tl) as Hsame.
    rewrite Hz in Hsame. apply Hsame; lia.
Qed.

(** ** Stores through the data pointer *)

Lemma data_memmove_Ok (d vs : Z) (m0 : list byte) (to : Z) (src : list byte)
    (from n : Z) (v' : WT_ITEM) :
  data_memmove (mkItem (InMem d) vs m0) to src from n = Ok v' ->
  0 <= from /\ 0 <= n /\ from + n <= len src /\
  0 <= d + to /\ d + to + n <= len m0 /\
  len (slice src from n) = n /\
  v' = mkItem (InMem d) vs (splice_at m0 (d + to) (slice src from n)).
Proof.
  unfold data_memmove. simpl. intros Hm. bind_inv Hm.
  apply memmove_Ok in Hbind.
  destruct Hbind as (H1 & H2 & H3 & H4 & H5 & -> & H7 & H8).
  inversion Hm. repeat split; assumption.
Qed.

Lemma data_memmove_self_Ok (d vs : Z) (m0 : list byte) (to from n : Z)
    (v' : WT_ITEM) :
  data_memmove_self (mkItem (InMem d) vs m0) to from n = Ok v' ->
  0 <= d + from /\ 0 <= n /\ d + from + n <= len m0 /\
  0 <= d + to /\ d + to + n <= len m0 /\
  v' = mkItem (InMem d) vs
         (splice_at m0 (d + to) (slice m0 (d + from) n)).
Proof.
  unfold data_memmove_self. simpl. intros Hm. bind_inv Hm.
  apply memmove_Ok in Hbind.
  destruct Hbind as (H1 & H2 & H3 & H4 & H5 & -> & H7 & H8).
  inversion Hm. repeat split; assumption.
Qed.

Lemma data_memset_Ok (d vs : Z) (m0 : list byte) (a : Z) (c : byte) (n : Z)
    (v' : WT_ITEM) :
  data_memset (mkItem (InMem d) vs m0) a c n = Ok v' ->
  0 <= n /\ 0 <= d + a /\ d + a + n <= len m0 /\
  v' = mkItem (InMem d) vs (splice_at m0 (d + a) (repeat c (Z.to_nat n))).
Proof.
  unfold data_memset. simpl. intros Hm. bind_inv Hm.
  apply memset_Ok in Hbind.
  destruct Hbind as (H1 & H2 & H3 & -> & H5).
  inversion Hm. repeat split; assumption.
Qed.

Lemma SIZE_MOD_eq : SIZE_MOD = 18446744073709551616.
Proof. reflexivity. Qed.

(** The corrected replacement size never reaches past the end of the
    value: the trailing bytes start at or before the end. *)
Lemma clamped_from_le (vs off sz : Z) :
  in_size_t vs -> in_size_t off -> off < vs ->
  size_add off (clamped_size vs off sz) <= vs.
Proof.
  unfold in_size_t, clamped_size. intros Hvs Hoff Hlt.
  destruct (Z.ltb_spec vs (size_add off sz)) as [Hc | Hc]; [| exact Hc].
  unfold size_sub, size_add. rewrite (wrap_small (vs - off)) by lia.
  replace (off + (vs - off)) with vs by lia. rewrite wrap_small by lia. lia.
Qed.

(** Without overflow the correction is the minimum the specification
    names. *)
Lemma clamped_size_min (vs off sz : Z) :
  in_size_t vs -> 0 <= off < vs -> 0 <= sz -> off + sz < SIZE_MOD ->
  clamped_size vs off sz = Z.min sz (vs - off).
Proof.
  unfold in_size_t, clamped_size, size_add, size_sub. intros Hvs Hoff Hsz Hno.
  rewrite (wrap_small (off + sz)) by lia.
  destruct (Z.ltb_spec vs (off + sz)).
  - rewrite wrap_small by lia. lia.
  - lia.
Qed.

(** ** Stores of the data of a modification *)

(** A store reads [n] bytes of its source and nothing else of it. *)
Lemma mem_read_slice_eq (src : list byte) (from n : Z) :
  0 <= from <= len src ->
  mem_read (slice src from n) 0 n = mem_read src from n.
Proof.
  intros Hfrom. unfold mem_read.
  destruct (in_bounds src from n) eqn:Hb.
  - apply in_bounds_true in Hb.
    assert (Hl : len (slice src from n) = n) by (apply len_slice; lia).
    replace (in_bounds (slice src from n) 0 n) with true
      by (symmetry; apply in_bounds_true; lia).
    rewrite <- Hl at 2. rewrite slice_all. reflexivity.
  - replace (in_bounds (slice src from n) 0 n) with false; [reflexivity |].
    symmetry. destruct (in_bounds (slice src from n) 0 n) eqn:Hb';
      [| reflexivity].
    apply in_bounds_true in Hb'. exfalso.
    assert (Hin : in_bounds src from n = true).
    { apply in_bounds_true. destruct Hb' as (_ & Hn & Hle).
      unfold slice, len in *.
      rewrite length_firstn, length_skipn in Hle. lia. }
    congruence.
Qed.

Lemma memmove_slice (m : list byte) (to : Z) (src : list byte) (from n : Z) :
  0 <= from <= len src ->
  memmove m to (slice src from n) 0 n = memmove m to src from n.
Proof.
  intros Hfrom. unfold memmove.
  rewrite mem_read_slice_eq by exact Hfrom. reflexivity.
Qed.

Lemma data_memmove_slice (v : WT_ITEM) (to : Z) (src : list byte)
    (from n : Z) :
  0 <= from <= len src ->
  data_memmove v to (slice src from n) 0 n = data_memmove v to src from n.
Proof.
  intros Hfrom. unfold data_memmove. destruct (data v); [| reflexivity].
  rewrite memmove_slice by exact Hfrom. reflexivity.
Qed.

(** A successful store of the data: the pointer was good for the item's
    allocation, the [n] bytes were there, and the store is the store of
    these bytes. *)
Lemma src_memmove_Ok (v : WT_ITEM) (to : Z) (p : src_ptr) (n : Z)
    (v' : WT_ITEM) :
  src_memmove v to p n = Ok v' ->
  src_readable (mem v) p n /\ 0 <= n /\ len (src_bytes (mem v) p n) = n /\
  data_memmove v to (src_bytes (mem v) p n) 0 n = Ok v'.
Proof.
  destruct p as [bs | cap o]; cbn [src_memmove src_readable src_bytes].
  - intros Hm. rewrite data_memmove_slice by (pose proof (len_nonneg bs); lia).
    pose proof Hm as Hm'. unfold data_memmove in Hm'.
    destruct (data v); [| discriminate]. bind_inv Hm'.
    apply memmove_Ok in Hbind.
    destruct Hbind as (_ & Hn & Hs & _ & _ & _ & _ & Hl).
    repeat split; try assumption; lia.
  - unfold memsize. destruct (Z.eqb_spec (len (mem v)) cap) as [Hc | Hc];
      [| discriminate].
    intros Hm. pose proof Hm as Hm'. unfold data_memmove in Hm'.
    destruct (data v); [| discriminate]. bind_inv Hm'.
    apply memmove_Ok in Hbind.
    destruct Hbind as (Ho & Hn & Hs & _ & _ & _ & _ & Hl).
    rewrite data_memmove_slice by lia.
    repeat split; try assumption; lia.
Qed.

Lemma clamped_from_cases (vs off sz : Z) :
  in_size_t vs -> in_size_t off -> off < vs ->
  (clamped_size vs off sz = sz /\ size_add off sz <= vs) \/
  size_add off (clamped_size vs off sz) = vs.
Proof.
  unfold in_size_t, clamped_size. intros Hvs Hoff Hlt.
  destruct (Z.ltb_spec vs (size_add off sz)) as [Hc | Hc].
  - right. unfold size_sub, size_add. rewrite (wrap_small (vs - off)) by lia.
    replace (off + (vs - off)) with vs by lia. apply wrap_small. lia.
  - left. split; [reflexivity | exact Hc].
Qed.

(** ** What a successful [__modify_apply_one] computes *)

Lemma modify_apply_one_Ok (s : WT_SESSION_IMPL) (v : WT_ITEM)
    (ds off sz : Z) (src : list byte) (v' : WT_ITEM) :
  wf_item v -> in_size_t ds -> in_size_t off -> in_size_t sz ->
  __modify_apply_one s v ds off sz (Outside src) = Ok v' ->
  wf_item v' /\ ds <= len src /\
  (size v <= off ->
     size v' = off + ds /\
     item_bytes v' =
       item_bytes v ++ repeat Byte.x00 (Z.to_nat (off - size v))
         ++ slice src 0 ds) /\
  (off < size v ->
     let from := size_add off (clamped_size (size v) off sz) in
     size v' = off + ds + (size v - from) /\
     item_bytes v' =
       slice (item_bytes v) 0 off ++ slice src 0 ds
         ++ slice (item_bytes v) from (size v - from)).
Proof.
  intros Hwf Hds Hoff Hsz Hap.
  pose proof Hwf as ((Hs0 & Hs1) & _ & _).
  unfold in_size_t in *.
  unfold __modify_apply_one, src_memmove in Hap. bind_inv Hap.
  apply buf_grow_Ok in Hbind; [| exact Hwf | apply wrap_range].
  set (d := if WT_DATA_IN_ITEM v then data_offset v else 0) in *.
  destruct Hbind as (Ha & Hd0 & Hd1 & Hcap & Hlen & HB).
  assert (HlenB : len (item_bytes v) = size v)
    by (apply len_item_bytes; exact Hwf).
  set (vs := size v) in *. set (B := item_bytes v) in *.
  destruct a as [da sa m0]. cbn [mem size data] in *.
  inversion Ha; subst da sa. clear Ha.
  assert (Hpre : forall k, 0 <= k <= vs -> slice m0 d k = slice B 0 k).
  { intros k Hk. rewrite <- HB. rewrite slice_slice by lia.
    f_equal; lia. }
  assert (Hpost : forall f, 0 <= f <= vs ->
                            slice m0 (d + f) (vs - f) = slice B f (vs - f)).
  { intros f Hf. rewrite <- HB. rewrite slice_slice by lia. reflexivity. }
  pose proof SIZE_MOD_eq as HM.
  destruct ((size_add off ds <? vs) && (ds =? sz)) eqn:Hf.
  - (* fast path *)
    apply andb_true_iff in Hf. destruct Hf as [Hfast Heq].
    apply Z.ltb_lt in Hfast. apply Z.eqb_eq in Heq.
    apply data_memmove_Ok in Hap.
    destruct Hap as (_ & _ & Hsrc & _ & Hdst & Hls & ->).
    set (bs := slice src 0 ds) in *.
    assert (Hsum : size_add off ds = off + ds).
    { unfold size_add. apply wrap_small. lia. }
    rewrite Hsum in Hfast.
    split; [| split; [lia | split]].
    + unfold wf_item, in_size_t, memsize. cbn [mem size data].
      rewrite len_splice_at by lia. lia.
    + intros Hc. exfalso. lia.
    + intros Hc. cbn zeta.
      assert (Hcl : clamped_size vs off sz = sz).
      { unfold clamped_size. rewrite <- Heq, Hsum.
        destruct (Z.ltb_spec vs (off + ds)); [lia | reflexivity]. }
      rewrite Hcl, <- Heq, Hsum. cbn [size].
      split; [lia |].
      rewrite item_bytes_InMem.
      rewrite (overwrite_bytes m0 d off vs bs) by lia.
      rewrite Hls. rewrite Hpre by lia.
      replace (d + off + ds) with (d + (off + ds)) by lia.
      rewrite Hpost by lia. reflexivity.
  - destruct (Z.leb_spec vs off) as [Htail | Htail].
    + (* append past the end *)
      bind_inv Hap. rename a into v1. bind_inv Hap. rename a into v2.
      inversion Hap; subst v'. clear Hap.
      assert (Hv1 : v1 = mkItem (InMem d) vs
                           (splice_at m0 (d + vs)
                              (repeat Byte.x00 (Z.to_nat (off - vs)))) /\
                    d + off <= len m0).
      { destruct (Z.ltb_spec vs off) as [Hgap | Hgap].
        - apply data_memset_Ok in Hbind.
          destruct Hbind as (_ & _ & Hb & ->).
          unfold size_sub in *. rewrite wrap_small in * by lia.
          split; [reflexivity | lia].
        - inversion Hbind; subst v1.
          replace (off - vs) with 0 by lia. cbn [Z.to_nat repeat].
          rewrite splice_at_nil. split; [reflexivity | lia]. }
      destruct Hv1 as [-> Hgapb].
      set (zeros := repeat Byte.x00 (Z.to_nat (off - vs))) in *.
      assert (Hz : len zeros = off - vs) by (apply len_repeat; lia).
      assert (Hl1 : len (splice_at m0 (d + vs) zeros) = len m0)
        by (apply len_splice_at; lia).
      apply data_memmove_Ok in Hbind0.
      destruct Hbind0 as (_ & _ & Hsrc & _ & Hdst & Hls & ->).
      set (bs := slice src 0 ds) in *.
      rewrite Hl1 in Hdst.
      assert (Hsum : size_add off ds = off + ds).
      { unfold size_add. apply wrap_small. lia. }
      rewrite Hsum. unfold set_size. cbn [mem size data].
      split; [| split; [lia | split]].
      * unfold wf_item, in_size_t, memsize. cbn [mem size data].
        rewrite len_splice_at by lia. lia.
      * intros _. split; [reflexivity |].
        rewrite item_bytes_InMem. rewrite <- Hls at 1.
        subst zeros. rewrite tail_bytes by lia.
        rewrite HB. reflexivity.
      * intros Hc. exfalso. lia.
    + (* inside the value *)
      change (if vs <? size_add off sz then size_sub vs off else sz)
        with (clamped_size vs off sz) in Hap.
      pose proof (clamped_from_le vs off sz) as Hfrom.
      unfold in_size_t in Hfrom.
      specialize (Hfrom (conj Hs0 Hs1) Hoff Htail).
      set (c := clamped_size vs off sz) in *.
      pose proof (wrap_range (off + c)) as Hfr. fold (size_add off c) in Hfr.
      set (from := size_add off c) in *.
      assert (Hres : exists m',
                 v' = mkItem (InMem d) (off + ds + (vs - from)) m' /\
                 len m' = len m0 /\ ds <= len src /\
                 d + off + ds + (vs - from) <= len m0 /\
                 slice m' d (off + ds + (vs - from)) =
                   slice m0 d off ++ slice src 0 ds
                     ++ slice m0 (d + from) (vs - from)).
      { destruct (Z.eqb_spec ds c) as [Hdc | Hdc].
        - (* overwrite up to the end *)
          bind_inv Hap. apply data_memmove_Ok in Hbind.
          destruct Hbind as (_ & _ & Hsrc & _ & Hdst & Hls & ->).
          inversion Hap; subst v'. clear Hap.
          set (bs := slice src 0 ds) in *.
          assert (Hsum : size_add off ds = off + ds).
          { unfold size_add. apply wrap_small. lia. }
          assert (Hfv : from = vs).
          { destruct (clamped_from_cases vs off sz) as [[Hc1 Hc2] | Hc1];
              unfold in_size_t; try lia.
            - fold c in Hc1. assert (Hsz' : ds = sz) by lia.
              apply andb_false_iff in Hf. destruct Hf as [Hf | Hf].
              + apply Z.ltb_ge in Hf. subst from. rewrite <- Hdc.
                rewrite <- Hdc in Hfrom. lia.
              + apply Z.eqb_neq in Hf. lia.
            - exact Hc1. }
          assert (Hods : off + ds = vs).
          { subst from. rewrite <- Hdc, Hsum in Hfv. exact Hfv. }
          exists (splice_at m0 (d + off) bs).
          unfold set_size. cbn [mem size data]. rewrite Hsum, Hfv.
          replace (off + ds + (vs - vs)) with (off + ds) by lia.
          replace (vs - vs) with 0 by lia. rewrite slice_nil.
          repeat split; try lia.
          + apply len_splice_at; lia.
          + rewrite (overwrite_bytes m0 d off (off + ds) bs) by lia.
            rewrite Hls. replace (off + ds - (off + ds)) with 0 by lia.
            rewrite slice_nil. reflexivity.
        - (* shrink or grow *)
          bind_inv Hap. rename a into v1. bind_inv Hap. rename a into v2.
          inversion Hap; subst v'. clear Hap.
          assert (Hn : size_sub vs from = vs - from).
          { unfold size_sub. apply wrap_small. lia. }
          rewrite Hn in Hbind.
          apply data_memmove_self_Ok in Hbind.
          destruct Hbind as (_ & _ & Hrd & Hto0 & Hto & ->).
          set (tl := slice m0 (d + from) (vs - from)) in *.
          assert (Htl : len tl = vs - from) by (apply len_slice; lia).
          assert (Hl1 : len (splice_at m0 (d + size_add off ds) tl) = len m0)
            by (apply len_splice_at; lia).
          apply data_memmove_Ok in Hbind0.
          destruct Hbind0 as (_ & _ & Hsrc & _ & Hdst & Hls & ->).
          set (bs := slice src 0 ds) in *.
          rewrite Hl1 in Hdst.
          assert (Hsum : size_add off ds = off + ds).
          { unfold size_add. apply wrap_small. lia. }
          rewrite Hsum in *.
          assert (Hsize : size_add vs (size_sub ds c)
                          = off + ds + (vs - from)).
          { unfold size_add, size_sub. apply wrap_eq_small; [lia |].
            destruct (wrap_decompose (ds - c)) as [k1 Hk1].
            destruct (wrap_decompose (off + c)) as [k2 Hk2].
            fold (size_add off c) in Hk2. fold from in Hk2.
            exists (- k1 - k2). lia. }
          exists (splice_at (splice_at m0 (d + (off + ds)) tl) (d + off) bs).
          unfold set_size. cbn [mem size data]. rewrite Hsize.
          repeat split; try lia.
          + rewrite len_splice_at by lia. exact Hl1.
          + subst tl. rewrite <- Hls at 1 2.
            apply shift_bytes; lia. }
      destruct Hres as (m' & -> & Hlm & Hsrc & Hbnd & Hbytes).
      split; [| split; [exact Hsrc | split]].
      * unfold wf_item, in_size_t, memsize. cbn [mem size data]. lia.
      * intros Hc. exfalso. lia.
      * intros _. cbn [size]. split; [reflexivity |].
        rewrite item_bytes_InMem, Hbytes.
        rewrite Hpre by lia. rewrite Hpost by lia. reflexivity.
Qed.

(** ** When [__modify_apply_one] succeeds *)

Lemma data_memmove_defined (d vs : Z) (m0 : list byte) (to : Z)
    (src : list byte) (from n : Z) :
  0 <= from -> 0 <= n -> from + n <= len src ->
  0 <= d + to -> d + to + n <= len m0 ->
  data_memmove (mkItem (InMem d) vs m0) to src from n =
  Ok (mkItem (InMem d) vs (splice_at m0 (d + to) (slice src from n))).
Proof.
  intros. unfold data_memmove. cbn [data mem].
  rewrite memmove_defined by assumption. reflexivity.
Qed.

Lemma data_memmove_self_defined (d vs : Z) (m0 : list byte) (to from n : Z) :
  0 <= d + from -> 0 <= n -> d + from + n <= len m0 ->
  0 <= d + to -> d + to + n <= len m0 ->
  data_memmove_self (mkItem (InMem d) vs m0) to from n =
  Ok (mkItem (InMem d) vs (splice_at m0 (d + to) (slice m0 (d + from) n))).
Proof.
  intros. unfold data_memmove_self. cbn [data mem].
  rewrite memmove_defined by assumption. reflexivity.
Qed.

Lemma data_memset_defined (d vs : Z) (m0 : list byte) (a : Z) (c : byte)
    (n : Z) :
  0 <= n -> 0 <= d + a -> d + a + n <= len m0 ->
  data_memset (mkItem (InMem d) vs m0) a c n =
  Ok (mkItem (InMem d) vs (splice_at m0 (d + a) (repeat c (Z.to_nat n)))).
Proof.
  intros. unfold data_memset. cbn [data mem].
  rewrite memset_defined by assumption. reflexivity.
Qed.

Lemma WT_MAX_max (a b : Z) : WT_MAX a b = Z.max a b.
Proof. unfold WT_MAX. destruct (Z.ltb_spec a b); lia. Qed.

(** The capacity [__modify_apply_one] asks for. *)
Lemma modify_capacity_small (v : WT_ITEM) (ds off : Z) :
  let d := if WT_DATA_IN_ITEM v then data_offset v else 0 in
  0 <= d -> 0 <= size v -> 0 <= off -> 0 <= ds ->
  d + Z.max (size v) off + ds < SIZE_MOD ->
  size_add (size_add d (WT_MAX (size v) off)) ds
  = d + Z.max (size v) off + ds.
Proof.
  intros d Hd Hs Hoff Hds Hno. unfold size_add. rewrite WT_MAX_max.
  rewrite (wrap_small (d + Z.max (size v) off)) by lia.
  apply wrap_small. lia.
Qed.

Lemma data_offset_nonneg (v : WT_ITEM) :
  wf_item v -> 0 <= (if WT_DATA_IN_ITEM v then data_offset v else 0).
Proof.
  intros (_ & _ & Hd). destruct (WT_DATA_IN_ITEM v) eqn:Hin; [| lia].
  apply WT_DATA_IN_ITEM_true in Hin. destruct Hin as (off & Hoff & Hr).
  unfold data_offset. rewrite Hoff. lia.
Qed.

(** No edit is refused when the capacity asked for and the end of the
    replaced range are representable and the allocator delivers. *)
Lemma modify_apply_one_defined (s : WT_SESSION_IMPL) (v : WT_ITEM)
    (ds off sz : Z) (src : list byte) :
  wf_item v -> in_size_t ds -> in_size_t off -> in_size_t sz ->
  ds <= len src ->
  let d := if WT_DATA_IN_ITEM v then data_offset v else 0 in
  let n := d + Z.max (size v) off + ds in
  n < SIZE_MOD -> off + sz < SIZE_MOD ->
  (memsize v < n -> alloc_ok s n = true) ->
  exists v', __modify_apply_one s v ds off sz (Outside src) = Ok v'.
Proof.
  intros Hwf Hds Hoff Hsz Hsrc d n Hn Hno Halloc.
  pose proof Hwf as ((Hs0 & Hs1) & _ & _).
  pose proof (data_offset_nonneg v Hwf) as Hd0. fold d in Hd0.
  unfold in_size_t in *.
  pose proof (modify_capacity_small v ds off Hd0 Hs0 (proj1 Hoff) (proj1 Hds) Hn)
    as Hcapeq. fold d in Hcapeq. fold n in Hcapeq.
  destruct (buf_grow_defined s v n Hwf) as [v0 Hg]; [lia | exact Halloc |].
  pose proof Hg as Hg'.
  apply buf_grow_Ok in Hg'; [| exact Hwf | lia].
  fold d in Hg'. destruct Hg' as (Hv0 & _ & Hd1 & Hcap & Hlen & _).
  unfold __modify_apply_one, src_memmove. fold d. rewrite Hcapeq, Hg. cbn [bind].
  rewrite Hv0. cbn [size]. set (vs := size v) in *. set (m0 := mem v0) in *.
  assert (Hsum : size_add off ds = off + ds).
  { unfold size_add. apply wrap_small. lia. }
  rewrite Hsum.
  destruct ((off + ds <? vs) && (ds =? sz)) eqn:Hf.
  - apply andb_true_iff in Hf. destruct Hf as [Hfast _].
    apply Z.ltb_lt in Hfast.
    rewrite data_memmove_defined by lia. eexists. reflexivity.
  - destruct (Z.leb_spec vs off) as [Htail | Htail].
    + destruct (Z.ltb_spec vs off) as [Hgap | Hgap].
      * unfold size_sub. rewrite wrap_small by lia.
        rewrite data_memset_defined by lia. cbn [bind].
        rewrite data_memmove_defined;
          try rewrite len_splice_at; try rewrite len_repeat; try lia.
        cbn [bind]. eexists. reflexivity.
      * cbn [bind]. rewrite data_memmove_defined by lia.
        cbn [bind]. eexists. reflexivity.
    + change (if vs <? size_add off sz then size_sub vs off else sz)
        with (clamped_size vs off sz).
      rewrite clamped_size_min by (unfold in_size_t; lia).
      set (c := Z.min sz (vs - off)).
      assert (Hc : 0 <= c <= vs - off) by (subst c; lia).
      assert (Hfrom : size_add off c = off + c).
      { unfold size_add. apply wrap_small. lia. }
      rewrite Hfrom.
      destruct (Z.eqb_spec ds c) as [Hdc | Hdc].
      * rewrite data_memmove_defined by lia. cbn [bind].
        eexists. reflexivity.
      * unfold size_sub at 1. rewrite (wrap_small (vs - (off + c))) by lia.
        rewrite data_memmove_self_defined by lia. cbn [bind].
        rewrite data_memmove_defined;
          try rewrite len_splice_at; try rewrite len_slice; try lia.
        cbn [bind]. eexists. reflexivity.
Qed.

(** ** Reading a splice back *)

Lemma slice_middle (a bs c : list byte) :
  slice (a ++ bs ++ c) (len a) (len bs) = bs.
Proof.
  unfold slice, len. rewrite !Nat2Z.id.
  rewrite skipn_app, skipn_all, Nat.sub_diag. cbn [skipn app].
  rewrite firstn_app, firstn_all, Nat.sub_diag. cbn [firstn].
  apply app_nil_r.
Qed.

Lemma slice_prefix (a c : list byte) : slice (a ++ c) 0 (len a) = a.
Proof.
  unfold slice, len. rewrite !Nat2Z.id. cbn [Z.to_nat skipn].
  rewrite firstn_app, firstn_all, Nat.sub_diag. cbn [firstn].
  apply app_nil_r.
Qed.

Lemma slice_suffix (a c : list byte) : slice (a ++ c) (len a) (len c) = c.
Proof.
  unfold slice, len. rewrite !Nat2Z.id.
  rewrite skipn_app, skipn_all, Nat.sub_diag. cbn [skipn app].
  apply firstn_all.
Qed.

Lemma slice_middle_at (a bs c : list byte) (off n : Z) :
  len a = off -> len bs = n -> slice (a ++ bs ++ c) off n = bs.
Proof. intros <- <-. apply slice_middle. Qed.

Lemma slice_prefix_at (a c : list byte) (n : Z) :
  len a = n -> slice (a ++ c) 0 n = a.
Proof. intros <-. apply slice_prefix. Qed.

Lemma slice_suffix_at (a c : list byte) (off n : Z) :
  len a = off -> len c = n -> slice (a ++ c) off n = c.
Proof. intros <- <-. apply slice_suffix. Qed.

(** The splice of the specification is what the code computes, as long as
    the end of the replaced range is representable. *)
Lemma modify_apply_one_refines (s : WT_SESSION_IMPL) (v : WT_ITEM)
    (ds off sz : Z) (src : list byte) (v' : WT_ITEM) :
  wf_item v -> in_size_t ds -> in_size_t off -> in_size_t sz ->
  off + sz < SIZE_MOD ->
  __modify_apply_one s v ds off sz (Outside src) = Ok v' ->
  item_bytes v' = apply_edit (item_bytes v) off sz (slice src 0 ds).
Proof.
  intros Hwf Hds Hoff Hsz Hno Hap.
  pose proof (len_item_bytes v Hwf) as HlB.
  pose proof Hwf as (Hs & _ & _).
  destruct (modify_apply_one_Ok s v ds off sz src v' Hwf Hds Hoff Hsz Hap)
    as (_ & _ & Htail & Hin).
  unfold apply_edit. rewrite HlB. unfold in_size_t in *.
  destruct (Z.leb_spec (size v) off) as [Hc | Hc].
  - apply Htail. exact Hc.
  - destruct (Hin Hc) as [_ Hb]. rewrite Hb.
    rewrite clamped_size_min by (unfold in_size_t; lia).
    unfold size_add. rewrite wrap_small by lia. reflexivity.
Qed.

(** ** Past the end the replacement size plays no part *)




(** ** The data of a modification, read where it lies *)

(** Without a reallocation a value in the item's own memory is left alone
    by [__wt_buf_grow]. *)
Lemma buf_grow_same (s : WT_SESSION_IMPL) (v : WT_ITEM) (n : Z)
    (v0 : WT_ITEM) :
  __wt_buf_grow s v n = Ok v0 -> WT_DATA_IN_ITEM v = true ->
  memsize v0 = memsize v -> v0 = v.
Proof.
  unfold __wt_buf_grow. intros Hg Hin Hsame. rewrite Hin in Hg.
  cbn [negb] in Hg. rewrite orb_false_r in Hg.
  destruct (Z.ltb_spec (memsize v) n) as [Hlt | Hge].
  - bind_inv Hg. apply realloc_Ok in Hbind; [| exact Hlt].
    destruct Hbind as [Hl _]. inversion Hg; subst v0.
    unfold memsize in *. cbn [set_mem mem] in Hsame. lia.
  - inversion Hg. reflexivity.
Qed.

(** The bytes found at a pointer do not change when memory is written
    elsewhere. *)
Lemma src_bytes_splice_before (m : list byte) (a : Z) (bs : list byte)
    (p : src_ptr) (n : Z) :
  0 <= a -> a + len bs <= len m -> 0 <= n ->
  (forall cap o, p = InValue cap o -> 0 <= o /\ o + n <= a) ->
  src_bytes (splice_at m a bs) p n = src_bytes m p n.
Proof.
  intros Ha Hb Hn Hp. destruct p as [src | cap o]; cbn [src_bytes].
  - reflexivity.
  - destruct (Hp cap o eq_refl) as [Ho Hd].
    apply slice_splice_before; assumption.
Qed.

(** A successful edit is the edit with the bytes that were found at its
    data pointer when they were copied; these are the bytes found there
    when the call was made if nothing was written over them before. *)
Lemma modify_apply_one_src_Ok (s : WT_SESSION_IMPL) (v : WT_ITEM)
    (ds off sz : Z) (p : src_ptr) (v' : WT_ITEM) :
  wf_item v -> in_size_t ds -> in_size_t off -> in_size_t sz ->
  __modify_apply_one s v ds off sz p = Ok v' ->
  exists bs,
    len bs = ds /\
    __modify_apply_one s v ds off sz (Outside bs) = Ok v' /\
    (src_kept v ds off sz p -> bs = src_bytes (mem v) p ds).
Proof.
  intros Hwf Hds Hoff Hsz Hap.
  pose proof Hwf as ((Hs0 & Hs1) & _ & _).
  unfold in_size_t in *. pose proof SIZE_MOD_eq as HM.
  unfold __modify_apply_one in Hap |- *.
  bind_inv Hap. rename a into v0. rename Hbind into Hg.
  setoid_rewrite Hg. cbn [bind].
  pose proof Hg as Hg'.
  apply buf_grow_Ok in Hg'; [| exact Hwf | apply wrap_range].
  set (d := if WT_DATA_IN_ITEM v then data_offset v else 0) in *.
  destruct Hg' as (Hv0 & Hd0 & Hd1 & Hcap & Hlen & HB).
  set (vs := size v) in *.
  assert (Hsv0 : size v0 = vs) by (rewrite Hv0; reflexivity).
  rewrite Hsv0 in *.
  (* a pointer into the value that survives the grow sees the old memory *)
  assert (Hkeep : forall cap o, p = InValue cap o ->
            src_kept v ds off sz p -> src_readable (mem v0) p ds ->
            v0 = v /\ d = data_offset v /\ 0 <= o).
  { intros cap o -> (Hc & Hin & _) (Hc' & Ho & _).
    assert (Hsame : v0 = v).
    { apply (buf_grow_same _ _ _ _ Hg Hin). unfold memsize in *. lia. }
    subst d. rewrite Hin. repeat split; assumption. }
  destruct ((size_add off ds <? vs) && (ds =? sz)) eqn:Hf.
  - (* fast path *)
    apply src_memmove_Ok in Hap. destruct Hap as (Hr & _ & Hl & Hst).
    exists (src_bytes (mem v0) p ds).
    split; [exact Hl | split; [exact Hst |]].
    intros Hk. destruct p as [src | cap o]; [reflexivity |].
    destruct (Hkeep cap o eq_refl Hk Hr) as (-> & _). reflexivity.
  - destruct (Z.leb_spec vs off) as [Htail | Htail].
    + (* past the end *)
      bind_inv Hap. rename a into v1. rename Hbind into Hset.
      bind_inv Hap. rename a into v2. rename Hbind into Hmv.
      apply src_memmove_Ok in Hmv. destruct Hmv as (Hr & _ & Hl & Hst).
      exists (src_bytes (mem v1) p ds).
      split; [exact Hl | split].
      * rewrite Hset. cbn [bind src_memmove]. rewrite Hst. exact Hap.
      * intros Hk. destruct p as [src | cap o]; [reflexivity |].
        assert (Hv1 : v1 = mkItem (InMem d) vs
                             (splice_at (mem v0) (d + vs)
                                (repeat Byte.x00 (Z.to_nat (off - vs)))) /\
                      d + off <= len (mem v0)).
        { destruct (Z.ltb_spec vs off) as [Hlt | Hge].
          - rewrite Hv0 in Hset. apply data_memset_Ok in Hset.
            destruct Hset as (_ & _ & Hb & ->). cbn [mem].
            unfold size_sub in *. rewrite wrap_small in * by lia.
            split; [reflexivity | lia].
          - inversion Hset; subst v1.
            replace (off - vs) with 0 by lia. cbn [Z.to_nat repeat].
            rewrite splice_at_nil. split; [exact Hv0 | lia]. }
        destruct Hv1 as [Hv1 Hgapb].
        assert (Hz : len (repeat Byte.x00 (Z.to_nat (off - vs))) = off - vs)
          by (apply len_repeat; lia).
        assert (Hm1 : len (mem v1) = len (mem v0)).
        { rewrite Hv1. cbn [mem]. apply len_splice_at; lia. }
        assert (Hr0 : src_readable (mem v0) (InValue cap o) ds).
        { cbn [src_readable] in Hr |- *. rewrite <- Hm1. exact Hr. }
        destruct (Hkeep cap o eq_refl Hk Hr0) as (Hsame & Hdo & Ho).
        destruct Hk as (_ & _ & Hgap & _). specialize (Hgap Htail).
        fold vs in Hgap. rewrite <- Hdo in Hgap.
        rewrite Hv1. cbn [mem]. rewrite <- Hsame.
        apply src_bytes_splice_before; try lia.
        intros cap' o' Heq. inversion Heq; subst. lia.
    + (* inside the value *)
      change (if vs <? size_add off sz then size_sub vs off else sz)
        with (clamped_size vs off sz) in *.
      set (c := clamped_size vs off sz) in *.
      destruct (Z.eqb_spec ds c) as [Hdc | Hdc].
      * bind_inv Hap. rename a into v1. rename Hbind into Hmv.
        apply src_memmove_Ok in Hmv. destruct Hmv as (Hr & _ & Hl & Hst).
        exists (src_bytes (mem v0) p ds).
        split; [exact Hl | split].
        -- cbn [src_memmove]. rewrite Hst. exact Hap.
        -- intros Hk. destruct p as [src | cap o]; [reflexivity |].
           destruct (Hkeep cap o eq_refl Hk Hr) as (-> & _). reflexivity.
      * bind_inv Hap. rename a into v1. rename Hbind into Hself.
        bind_inv Hap. rename a into v2. rename Hbind into Hmv.
        apply src_memmove_Ok in Hmv. destruct Hmv as (Hr & _ & Hl & Hst).
        exists (src_bytes (mem v1) p ds).
        split; [exact Hl | split].
        -- rewrite Hself. cbn [bind src_memmove]. rewrite Hst. exact Hap.
        -- intros Hk. destruct p as [src | cap o]; [reflexivity |].
           rewrite Hv0 in Hself. apply data_memmove_self_Ok in Hself.
           destruct Hself as (Hrd0 & Hn & Hrd & Hto0 & Hto & Hv1).
           assert (Hm1 : len (mem v1) = len (mem v0)).
           { rewrite Hv1. cbn [mem]. apply len_splice_at; [lia |].
             rewrite len_slice; lia. }
           assert (Hr0 : src_readable (mem v0) (InValue cap o) ds).
           { cbn [src_readable] in Hr |- *. rewrite <- Hm1. exact Hr. }
           destruct (Hkeep cap o eq_refl Hk Hr0) as (Hsame & Hdo & Ho).
           destruct Hk as (_ & _ & _ & Hmv). specialize (Hmv Htail Hdc).
           rewrite <- Hdo in Hmv.
           (* the store of the data was in bounds, so [off + ds] did not
              wrap *)
           pose proof Hst as Hst'. rewrite Hv1 in Hst'.
           apply data_memmove_Ok in Hst'.
           destruct Hst' as (_ & _ & _ & _ & Hdst & _ & _).
           rewrite len_splice_at in Hdst
             by (try lia; rewrite len_slice; lia).
           assert (Hsum : size_add off ds = off + ds).
           { unfold size_add. apply wrap_small. lia. }
           rewrite Hsum in *.
           rewrite Hv1. cbn [mem]. rewrite <- Hsame.
           apply src_bytes_splice_before; try lia.
           ++ rewrite len_slice; lia.
           ++ intros cap' o' Heq. inversion Heq; subst. lia.
Qed.

(** ** Words in memory *)

Lemma len_le_split (w : Z) : len (le_split 8 w) = 8.
Proof. unfold len. rewrite length_le_split. reflexivity. Qed.

Lemma le_combine_le_split_size (w : Z) :
  in_size_t w -> le_combine (le_split 8 w) = w.
Proof.
  intros Hw. rewrite le_combine_split.
  change (2 ^ (Z.of_nat 8 * 8)) with SIZE_MOD.
  apply Z.mod_small. exact Hw.
Qed.

Lemma store_size_t_Ok (m : list byte) (a w : Z) (m' : list byte) :
  store_size_t m a w = Ok m' ->
  0 <= a /\ a + 8 <= len m /\ m' = splice_at m a (le_split 8 w) /\
  len m' = len m.
Proof.
  unfold store_size_t. intros Hs. apply mem_write_Ok in Hs.
  rewrite len_le_split in Hs. exact Hs.
Qed.

Lemma load_size_t_slice (m : list byte) (a w : Z) :
  0 <= a -> a + 8 <= len m -> in_size_t w ->
  slice m a 8 = le_split 8 w -> load_size_t m a = Ok w.
Proof.
  intros Ha Hb Hw Hsl. unfold load_size_t, mem_read, sizeof_size_t.
  replace (in_bounds m a 8) with true
    by (symmetry; apply in_bounds_true; lia).
  cbn [bind]. rewrite Hsl, le_combine_le_split_size by exact Hw.
  reflexivity.
Qed.

Lemma mem_read_slice (m : list byte) (a n : Z) (bs : list byte) :
  0 <= a -> 0 <= n -> a + n <= len m ->
  slice m a n = bs -> mem_read m a n = Ok bs.
Proof.
  intros Ha Hn Hb <-. unfold mem_read.
  replace (in_bounds m a n) with true
    by (symmetry; apply in_bounds_true; lia).
  reflexivity.
Qed.

(** ** Loops over an array and over a list *)

Lemma skipn_cons_nth {A : Type} (l : list A) (n : nat) (e : A) (r : list A) :
  skipn n l = e :: r -> nth_error l n = Some e /\ skipn (S n) l = r.
Proof.
  revert l. induction n as [| n IH]; intros l Hs.
  - destruct l as [| x l]; [discriminate |]. cbn in Hs. inversion Hs.
    split; reflexivity.
  - destruct l as [| x l]; [discriminate |]. cbn [skipn] in Hs.
    apply IH in Hs. exact Hs.
Qed.

Lemma entry_at_skipn (entries : list WT_MODIFY) (i : Z) (e : WT_MODIFY)
    (r : list WT_MODIFY) :
  0 <= i -> skipn (Z.to_nat i) entries = e :: r ->
  entry_at entries i = Ok e /\ skipn (Z.to_nat (i + 1)) entries = r.
Proof.
  intros Hi Hs. apply skipn_cons_nth in Hs. destruct Hs as [Hn Hr].
  unfold entry_at. destruct (Z.ltb_spec i 0); [lia |].
  rewrite Hn. split; [reflexivity |].
  replace (Z.to_nat (i + 1)) with (S (Z.to_nat i)) by lia. exact Hr.
Qed.

Lemma modify_apply_api_loop_list (s : WT_SESSION_IMPL)
    (entries es : list WT_MODIFY) (i : Z) (v : WT_ITEM) :
  0 <= i -> skipn (Z.to_nat i) entries = es ->
  modify_apply_api_loop s entries (length es) i v = modify_apply_list s es v.
Proof.
  revert i v. induction es as [| e es IH]; intros i v Hi Hs.
  - reflexivity.
  - cbn [length modify_apply_api_loop modify_apply_list].
    destruct (entry_at_skipn entries i e es Hi Hs) as [He Hr].
    rewrite He. cbn [bind].
    destruct (__modify_apply_one s v _ _ _ _) as [v1 | err |];
      cbn [bind]; try reflexivity.
    apply IH; [lia | exact Hr].
Qed.

(** [__wt_modify_apply_api] on a whole array is the list of its entries
    applied first to last. *)
Lemma modify_apply_api_list (s : WT_SESSION_IMPL) (v : WT_ITEM)
    (entries : list WT_MODIFY) :
  __wt_modify_apply_api s v entries (Z.of_nat (length entries))
  = modify_apply_list s entries v.
Proof.
  unfold __wt_modify_apply_api. rewrite Nat2Z.id.
  apply modify_apply_api_loop_list; [lia | reflexivity].
Qed.

(** ** [__modify_apply_one] reads [data_size] bytes of its data, no more *)

Lemma modify_apply_one_src (s : WT_SESSION_IMPL) (v : WT_ITEM)
    (ds off sz : Z) (src1 src2 : list byte) :
  mem_read src1 0 ds = mem_read src2 0 ds ->
  __modify_apply_one s v ds off sz (Outside src1)
  = __modify_apply_one s v ds off sz (Outside src2).
Proof.
  intros Hr. unfold __modify_apply_one, src_memmove, data_memmove, memmove.
  rewrite Hr. reflexivity.
Qed.

Lemma mem_read_skipn (m : list byte) (a n : Z) :
  0 <= a -> a <= len m -> mem_read (skipn (Z.to_nat a) m) 0 n = mem_read m a n.
Proof.
  intros Ha Hl. unfold mem_read, in_bounds, slice, len in *.
  rewrite length_skipn. change (Z.to_nat 0) with 0%nat. cbn [skipn].
  replace (0 <=? a) with true by (symmetry; apply Z.leb_le; lia).
  cbn [andb Z.leb Z.compare].
  destruct (Z.leb_spec 0 n) as [Hn | Hn]; cbn [andb]; [| reflexivity].
  destruct (Z.leb_spec (0 + n) (Z.of_nat (length m - Z.to_nat a)));
    destruct (Z.leb_spec (a + n) (Z.of_nat (length m)));
    try reflexivity; exfalso; lia.
Qed.

(** Bytes of the length that is read are read whole. *)
Lemma mem_read_whole (bs : list byte) (n : Z) :
  len bs = n -> mem_read bs 0 n = Ok bs.
Proof.
  intros Hl. pose proof (len_nonneg bs).
  apply mem_read_slice; try lia. rewrite <- Hl. apply slice_all.
Qed.

(** An entry whose data is outside the value is applied as its copy is. *)
Lemma modify_resolve_outside (s : WT_SESSION_IMPL) (vmem : list byte)
    (e : WT_MODIFY) (v : WT_ITEM) :
  modify_outside e ->
  __modify_apply_one s v (mod_data_size (modify_resolve vmem e))
    (mod_offset (modify_resolve vmem e)) (mod_size (modify_resolve vmem e))
    (mod_data (modify_resolve vmem e))
  = __modify_apply_one s v (mod_data_size e) (mod_offset e) (mod_size e)
      (mod_data e).
Proof.
  intros [bs Hbs]. unfold modify_resolve, modify_bytes.
  cbn [mod_data mod_data_size mod_offset mod_size]. rewrite Hbs.
  cbn [src_bytes].
  apply modify_apply_one_src. apply mem_read_slice_eq.
  pose proof (len_nonneg bs). lia.
Qed.

Lemma modify_apply_list_resolve (s : WT_SESSION_IMPL) (vmem : list byte)
    (es : list WT_MODIFY) (v : WT_ITEM) :
  Forall modify_outside es ->
  modify_apply_list s (map (modify_resolve vmem) es) v
  = modify_apply_list s es v.
Proof.
  intros Hout. revert v. induction Hout as [| e es He _ IH]; intros v.
  - reflexivity.
  - cbn [map modify_apply_list]. rewrite (modify_resolve_outside s vmem e v He).
    destruct (__modify_apply_one s v _ _ _ _) as [v1 | err |];
      cbn [bind]; try reflexivity.
    apply IH.
Qed.

(** The loop of [__wt_modify_apply] over a memory that holds the entries
    [es] applies them first to last, each with the data that the memory
    holds for it. *)
Lemma modify_apply_loop_holds (s : WT_SESSION_IMPL) (vmem m : list byte)
    (es : list WT_MODIFY) (p data_ : Z) (v : WT_ITEM) :
  0 <= data_ -> Forall wf_modify es -> holds_entries vmem m p data_ es ->
  modify_apply_loop s m (length es) p data_ v
  = modify_apply_list s (map (modify_resolve vmem) es) v.
Proof.
  revert p data_ v. induction es as [| e es IH]; intros p data_ v Hd Hwf Hh.
  - reflexivity.
  - cbn [length modify_apply_loop map modify_apply_list].
    destruct Hh as (H0 & H1 & H2 & Hdat & Hrest).
    pose proof (Forall_inv Hwf) as (Hds & _ & _).
    pose proof (Forall_inv_tail Hwf) as Hwf'.
    rewrite H0, H1, H2. cbn [bind].
    unfold modify_resolve at 1 2 3 4.
    cbn [mod_data mod_data_size mod_offset mod_size].
    assert (Hsrc : mem_read (skipn (Z.to_nat data_) m) 0 (mod_data_size e)
                   = mem_read (modify_bytes vmem e) 0 (mod_data_size e)).
    { pose proof Hdat as Hdat'. apply mem_read_Ok in Hdat'.
      destruct Hdat' as (_ & Hn & Hb & Hbs).
      rewrite mem_read_skipn by lia. rewrite Hdat.
      symmetry. apply mem_read_whole. rewrite Hbs.
      apply len_slice; lia. }
    rewrite (modify_apply_one_src s v _ _ _ _ _ Hsrc).
    destruct (__modify_apply_one s v _ _ _ _) as [v1 | err |];
      cbn [bind]; try reflexivity.
    apply IH; [unfold in_size_t in Hds; lia | exact Hwf' | exact Hrest].
Qed.

(** ** What [__wt_modify_pack] writes *)

Lemma slice_splice_disjoint (m : list byte) (a : Z) (bs : list byte)
    (b n : Z) :
  0 <= a -> a + len bs <= len m -> 0 <= b -> 0 <= n ->
  b + n <= a \/ a + len bs <= b ->
  slice (splice_at m a bs) b n = slice m b n.
Proof.
  intros Ha Hb Hb0 Hn [Hd | Hd].
  - apply slice_splice_before; assumption.
  - apply slice_splice_after; assumption.
Qed.

Lemma data_total_nonneg (es : list WT_MODIFY) :
  Forall wf_modify es -> 0 <= data_total es.
Proof.
  induction 1 as [| e es (Hds & _) _ IH]; cbn [data_total fold_right].
  - lia.
  - unfold in_size_t in Hds. fold (data_total es). lia.
Qed.

(** One round of the fill loop: three words at [p], the data at [data_]. *)
Lemma src_memcpy_Ok (m : list byte) (to : Z) (vmem : list byte)
    (p : src_ptr) (n : Z) (m' : list byte) :
  src_memcpy m to vmem p n = Ok m' ->
  src_readable vmem p n /\ 0 <= n /\ 0 <= to /\ to + n <= len m /\
  m' = splice_at m to (src_bytes vmem p n) /\ len m' = len m /\
  len (src_bytes vmem p n) = n.
Proof.
  destruct p as [bs | cap o]; cbn [src_memcpy src_readable src_bytes].
  - intros Hm. apply memmove_Ok in Hm.
    destruct Hm as (_ & Hn & Hs & Ht & Hb & Hm & Hl & Hls).
    repeat split; try assumption; lia.
  - destruct (Z.eqb_spec (len vmem) cap) as [Hc | Hc]; [| discriminate].
    intros Hm. apply memmove_Ok in Hm.
    destruct Hm as (Ho & Hn & Hs & Ht & Hb & Hm & Hl & Hls).
    repeat split; try assumption; lia.
Qed.

Lemma src_memcpy_defined (m : list byte) (to : Z) (vmem : list byte)
    (p : src_ptr) (n : Z) :
  src_readable vmem p n -> 0 <= n -> 0 <= to -> to + n <= len m ->
  src_memcpy m to vmem p n = Ok (splice_at m to (src_bytes vmem p n)).
Proof.
  destruct p as [bs | cap o]; cbn [src_memcpy src_readable src_bytes].
  - intros Hr Hn Ht Hb. apply memmove_defined; lia.
  - intros (-> & Ho & Hr) Hn Ht Hb. rewrite Z.eqb_refl.
    apply memmove_defined; lia.
Qed.

Lemma pack_round (vmem m : list byte) (p data_ : Z) (e : WT_MODIFY)
    (m1 m2 m3 m4 : list byte) :
  0 <= p -> p + 24 <= data_ ->
  store_size_t m p (mod_data_size e) = Ok m1 ->
  store_size_t m1 (p + sizeof_size_t) (mod_offset e) = Ok m2 ->
  store_size_t m2 (p + 2 * sizeof_size_t) (mod_size e) = Ok m3 ->
  src_memcpy m3 data_ vmem (mod_data e) (mod_data_size e) = Ok m4 ->
  len m4 = len m /\ 0 <= mod_data_size e /\
  data_ + mod_data_size e <= len m /\
  slice m4 p 8 = le_split 8 (mod_data_size e) /\
  slice m4 (p + 8) 8 = le_split 8 (mod_offset e) /\
  slice m4 (p + 16) 8 = le_split 8 (mod_size e) /\
  slice m4 data_ (mod_data_size e) = modify_bytes vmem e /\
  (forall a k, 0 <= a -> 0 <= k ->
     a + k <= p \/ (p + 24 <= a /\ a + k <= data_)
       \/ data_ + mod_data_size e <= a ->
     slice m4 a k = slice m a k).
Proof.
  unfold sizeof_size_t. intros Hp Hd H1 H2 H3 H4.
  apply store_size_t_Ok in H1. destruct H1 as (_ & Hb1 & -> & Hl1).
  apply store_size_t_Ok in H2. destruct H2 as (_ & Hb2 & -> & Hl2).
  apply store_size_t_Ok in H3. destruct H3 as (_ & Hb3 & -> & Hl3).
  apply src_memcpy_Ok in H4.
  destruct H4 as (_ & Hn & _ & Hb4 & -> & Hl4 & Hls).
  fold (modify_bytes vmem e) in *.
  set (ds := mod_data_size e) in *.
  set (bs := modify_bytes vmem e) in *.
  set (w1 := le_split 8 ds) in *.
  set (w2 := le_split 8 (mod_offset e)) in *.
  set (w3 := le_split 8 (mod_size e)) in *.
  assert (Hw1 : len w1 = 8) by apply len_le_split.
  assert (Hw2 : len w2 = 8) by apply len_le_split.
  assert (Hw3 : len w3 = 8) by apply len_le_split.
  set (m1 := splice_at m p w1) in *.
  set (m2 := splice_at m1 (p + 8) w2) in *.
  set (m3 := splice_at m2 (p + 2 * 8) w3) in *.
  assert (Hthrough : forall a k, 0 <= a -> 0 <= k ->
            a + k <= data_ \/ data_ + ds <= a ->
            slice (splice_at m3 data_ bs) a k = slice m3 a k).
  { intros a k Ha Hk Hdis. apply slice_splice_disjoint; lia. }
  repeat split; try lia.
  - rewrite Hthrough by lia.
    subst m3. rewrite slice_splice_before by lia.
    subst m2. rewrite slice_splice_before by lia.
    subst m1. pose proof (slice_splice_same m p w1) as Hs.
    rewrite Hw1 in Hs. apply Hs; lia.
  - rewrite Hthrough by lia.
    subst m3. rewrite slice_splice_before by lia.
    subst m2. pose proof (slice_splice_same m1 (p + 8) w2) as Hs.
    rewrite Hw2 in Hs. apply Hs; lia.
  - rewrite Hthrough by lia.
    subst m3. replace (p + 16) with (p + 2 * 8) by lia.
    pose proof (slice_splice_same m2 (p + 2 * 8) w3) as Hs.
    rewrite Hw3 in Hs. apply Hs; lia.
  - pose proof (slice_splice_same m3 data_ bs) as Hs.
    rewrite Hls in Hs. rewrite Hs by lia. reflexivity.
  - intros a k Ha Hk Hdis.
    rewrite Hthrough by lia.
    subst m3. rewrite slice_splice_disjoint by lia.
    subst m2. rewrite slice_splice_disjoint by lia.
    subst m1. apply slice_splice_disjoint; lia.
Qed.

Lemma modify_pack_fill_holds (vmem : list byte)
    (entries es : list WT_MODIFY) (i p data_ : Z)
    (m : list byte) (data' : Z) (m' : list byte) :
  0 <= i -> skipn (Z.to_nat i) entries = es -> Forall wf_modify es ->
  0 <= p -> p + 24 * Z.of_nat (length es) <= data_ ->
  modify_pack_fill vmem entries (length es) i p data_ m = Ok (data', m') ->
  len m' = len m /\ data' = data_ + data_total es /\
  (es <> [] -> data' <= len m) /\
  holds_entries vmem m' p data_ es /\
  (forall a k, 0 <= a -> 0 <= k ->
     a + k <= p \/ (p + 24 * Z.of_nat (length es) <= a /\ a + k <= data_)
       \/ data' <= a ->
     slice m' a k = slice m a k).
Proof.
  revert i p data_ m.
  induction es as [| e es IH]; intros i p data_ m Hi Hs Hwf Hp Hd Hfill.
  - cbn in Hfill. inversion Hfill; subst.
    cbn [data_total fold_right holds_entries].
    repeat split; try lia. congruence.
  - cbn [length modify_pack_fill] in Hfill.
    destruct (entry_at_skipn entries i e es Hi Hs) as [He Hr].
    rewrite He in Hfill. cbn [bind] in Hfill.
    bind_inv Hfill. rename a into m1. rename Hbind into H1.
    bind_inv Hfill. rename a into m2. rename Hbind into H2.
    bind_inv Hfill. rename a into m3. rename Hbind into H3.
    bind_inv Hfill. rename a into m4. rename Hbind into H4.
    pose proof (Forall_inv Hwf) as (Hds & Hof & Hsz).
    pose proof (Forall_inv_tail Hwf) as Hwf'.
    cbn [length] in Hd. rewrite Nat2Z.inj_succ in Hd.
    pose proof (pack_round vmem m p data_ e m1 m2 m3 m4 Hp ltac:(lia) H1 H2 H3
                  H4)
      as (Hl4 & Hds0 & Hdb & Hs0 & Hs1 & Hs2 & Hsd & Hframe).
    unfold sizeof_size_t in Hfill.
    apply (IH (i + 1) (p + 3 * 8) (data_ + mod_data_size e) m4) in Hfill;
      [| lia | exact Hr | exact Hwf' | lia | lia].
    destruct Hfill as (Hl' & Hdata' & Hbound & Hholds & Hframe').
    pose proof (data_total_nonneg es Hwf') as Htot.
    cbn [data_total fold_right]. fold (data_total es).
    split; [lia | split; [lia | split; [| split]]].
    + intros _. destruct es as [| e' es'].
      * cbn [data_total fold_right] in Hdata'. lia.
      * rewrite <- Hl4. apply Hbound. discriminate.
    + cbn [holds_entries]. unfold sizeof_size_t.
      assert (Hl8 : p + 24 <= len m) by lia.
      repeat split.
      * apply load_size_t_slice; try lia; try assumption.
        rewrite Hframe' by lia. exact Hs0.
      * apply load_size_t_slice; try lia; try assumption.
        rewrite Hframe' by lia. exact Hs1.
      * apply load_size_t_slice; try lia; try assumption.
        replace (p + 2 * 8) with (p + 16) by lia.
        rewrite Hframe' by lia. exact Hs2.
      * apply mem_read_slice; try lia.
        rewrite Hframe' by lia. exact Hsd.
      * exact Hholds.
    + intros a k Ha Hk Hdis.
      cbn [length] in Hdis. rewrite Nat2Z.inj_succ in Hdis.
      rewrite Hframe' by lia. apply Hframe; lia.
Qed.

(** ** [__wt_modify_pack] and [__wt_modify_apply] together *)

Lemma int_of_size_small (n : Z) : 0 <= n <= INT_MAX -> int_of_size n = n.
Proof.
  unfold int_of_size, INT_MAX. intros Hn.
  rewrite Z.mod_small; lia.
Qed.

Lemma modify_data_start_small (n : Z) :
  0 <= n <= INT_MAX -> modify_data_start n = 8 + 24 * n.
Proof.
  unfold modify_data_start, size_of_int, size_mul, size_add, sizeof_size_t,
    INT_MAX.
  intros Hn. pose proof SIZE_MOD_eq as HM.
  rewrite (wrap_small n) by lia.
  rewrite (wrap_small (n * 3)) by lia.
  rewrite (wrap_small (n * 3 * 8)) by lia.
  rewrite wrap_small by lia. lia.
Qed.

Lemma modify_pack_len_range (entries : list WT_MODIFY) (k : nat) (i l r : Z) :
  in_size_t l -> modify_pack_len entries k i l = Ok r -> in_size_t r.
Proof.
  revert i l. induction k as [| k IH]; intros i l Hl Hr; cbn in Hr.
  - inversion Hr; subst. exact Hl.
  - bind_inv Hr. apply IH in Hr; [exact Hr |].
    unfold size_add, in_size_t. apply wrap_range.
Qed.

(** A packed value: its data is its whole memory, its first word is the
    number of entries, the triples follow from offset 8 on and the data
    from offset [8 + 24 * n] on; its size is the end of the data. *)
Lemma modify_pack_Ok (s : WT_SESSION_IMPL) (vmem : list byte)
    (entries : list WT_MODIFY) (blob : WT_ITEM) :
  let n := Z.of_nat (length entries) in
  n <= INT_MAX -> Forall wf_modify entries ->
  __wt_modify_pack s vmem entries n = Ok blob ->
  data blob = InMem 0 /\
  size blob = 8 + 24 * n + data_total entries /\
  size blob <= len (mem blob) /\ len (mem blob) < SIZE_MOD /\
  load_size_t (mem blob) 0 = Ok n /\
  holds_entries vmem (mem blob) 8 (8 + 24 * n) entries.
Proof.
  intros n Hn Hwf Hp. unfold __wt_modify_pack in Hp.
  pose proof SIZE_MOD_eq as HM.
  assert (Hn0 : 0 <= n <= INT_MAX) by (subst n; lia).
  bind_inv Hp. rename a into len_. rename Hbind into Hlen.
  apply modify_pack_len_range in Hlen;
    [| unfold in_size_t, sizeof_size_t; lia].
  bind_inv Hp. rename a into modify. rename Hbind into Halloc.
  unfold __wt_scr_alloc, realloc in Halloc.
  destruct (alloc_ok s len_); cbn [bind] in Halloc; [| discriminate].
  cbn [app] in Halloc. inversion Halloc; subst modify. clear Halloc.
  cbn [mem data data_offset] in Hp.
  set (m0 := fresh_bytes s (len []) (len_ - len [])) in *.
  assert (Hm0 : len m0 = len_).
  { subst m0. change (len []) with 0. unfold in_size_t in Hlen.
    rewrite len_fresh_bytes by lia. lia. }
  bind_inv Hp. rename a into m1. rename Hbind into Hst.
  apply store_size_t_Ok in Hst. destruct Hst as (_ & Hb1 & Hm1 & Hl1).
  bind_inv Hp. destruct a as [data' m']. rename Hbind into Hfill.
  inversion Hp; subst blob. clear Hp. cbn [mem data size].
  rewrite modify_data_start_small in Hfill by exact Hn0.
  unfold sizeof_size_t in Hfill. subst n. rewrite Nat2Z.id in Hfill.
  set (n := Z.of_nat (length entries)) in *.
  apply (modify_pack_fill_holds vmem entries entries 0 8 (8 + 24 * n) m1)
    in Hfill; try assumption; try reflexivity; try lia.
  destruct Hfill as (Hl' & Hdata' & Hbound & Hholds & Hframe).
  pose proof (data_total_nonneg entries Hwf) as Htot.
  assert (Hend : data' <= len m1).
  { destruct entries as [| e es].
    - cbn [data_total fold_right] in Hdata'. subst n. cbn in Hdata'. lia.
    - apply Hbound. discriminate. }
  unfold in_size_t in Hlen.
  rewrite Z.sub_0_r, wrap_small by lia.
  repeat split; try lia; try exact Hholds.
  apply load_size_t_slice; try lia; [unfold in_size_t, INT_MAX in *; lia |].
  rewrite Hframe by lia. rewrite Hm1.
  pose proof (slice_splice_same m0 0 (le_split 8 (size_of_int n))) as Hs.
  rewrite len_le_split in Hs. rewrite Hs by lia.
  unfold size_of_int. rewrite wrap_small by (unfold INT_MAX in *; lia).
  reflexivity.
Qed.

(** Applying a packed value is applying the entries it was packed from,
    first to last, each with the data it had when it was packed. *)
Lemma modify_pack_apply (s s' : WT_SESSION_IMPL) (vmem : list byte)
    (entries : list WT_MODIFY) (blob v : WT_ITEM) :
  Z.of_nat (length entries) <= INT_MAX -> Forall wf_modify entries ->
  __wt_modify_pack s vmem entries (Z.of_nat (length entries)) = Ok blob ->
  __wt_modify_apply s' v (data_bytes blob)
  = modify_apply_list s' (map (modify_resolve vmem) entries) v.
Proof.
  intros Hn Hwf Hp.
  destruct (modify_pack_Ok s vmem entries blob Hn Hwf Hp)
    as (Hdata & _ & _ & _ & Hload & Hholds).
  unfold data_bytes. rewrite Hdata. change (Z.to_nat 0) with 0%nat.
  cbn [skipn]. unfold __wt_modify_apply. rewrite Hload. cbn [bind].
  assert (Hn0 : 0 <= Z.of_nat (length entries) <= INT_MAX) by lia.
  rewrite int_of_size_small, modify_data_start_small by exact Hn0.
  rewrite Nat2Z.id. unfold sizeof_size_t.
  apply (modify_apply_loop_holds s' vmem); [lia | exact Hwf | exact Hholds].
Qed.

(** For entries whose data is outside the value these are the entries
    themselves. *)
Lemma modify_pack_apply_outside (s s' : WT_SESSION_IMPL) (vmem : list byte)
    (entries : list WT_MODIFY) (blob v : WT_ITEM) :
  Z.of_nat (length entries) <= INT_MAX -> Forall wf_modify entries ->
  Forall modify_outside entries ->
  __wt_modify_pack s vmem entries (Z.of_nat (length entries)) = Ok blob ->
  __wt_modify_apply s' v (data_bytes blob) = modify_apply_list s' entries v.
Proof.
  intros Hn Hwf Hout Hp.
  rewrite (modify_pack_apply s s' vmem entries blob v Hn Hwf Hp).
  apply modify_apply_list_resolve. exact Hout.
Qed.

(** ** When [__wt_modify_pack] succeeds *)

Lemma wrap_add_l (a b : Z) : wrap (wrap a + b) = wrap (a + b).
Proof.
  unfold wrap. apply Z.add_mod_idemp_l. unfold SIZE_MOD. lia.
Qed.

Lemma modify_pack_len_value (entries es : list WT_MODIFY) (i l : Z) :
  0 <= i -> skipn (Z.to_nat i) entries = es -> in_size_t l ->
  modify_pack_len entries (length es) i l
  = Ok (wrap (l + 24 * Z.of_nat (length es) + data_total es)).
Proof.
  revert i l. induction es as [| e es IH]; intros i l Hi Hs Hl.
  - cbn [length modify_pack_len data_total fold_right].
    f_equal. replace (l + 24 * Z.of_nat 0 + 0) with l by lia.
    symmetry. apply wrap_small. exact Hl.
  - cbn [length modify_pack_len].
    destruct (entry_at_skipn entries i e es Hi Hs) as [He Hr].
    rewrite He. cbn [bind].
    rewrite (IH (i + 1))
      by (try lia; try exact Hr; unfold size_add; apply wrap_range).
    f_equal. cbn [data_total fold_right]. fold (data_total es).
    rewrite Nat2Z.inj_succ.
    unfold size_add, size_mul, sizeof_size_t.
    rewrite (wrap_small (3 * 8)) by (rewrite SIZE_MOD_eq; lia).
    set (k := Z.of_nat (length es)). set (T := data_total es).
    set (ds := mod_data_size e).
    rewrite <- (Z.add_assoc _ (24 * k) T).
    rewrite wrap_add_l.
    rewrite <- (Z.add_assoc _ ds).
    rewrite wrap_add_l.
    f_equal. lia.
Qed.

Lemma store_size_t_defined (m : list byte) (a w : Z) :
  0 <= a -> a + 8 <= len m ->
  store_size_t m a w = Ok (splice_at m a (le_split 8 w)).
Proof.
  intros Ha Hb. unfold store_size_t, mem_write. rewrite len_le_split.
  replace (in_bounds m a 8) with true
    by (symmetry; apply in_bounds_true; lia).
  reflexivity.
Qed.

Lemma modify_pack_fill_defined (vmem : list byte)
    (entries es : list WT_MODIFY) (i p data_ : Z) (m : list byte) :
  0 <= i -> skipn (Z.to_nat i) entries = es ->
  Forall wf_modify es -> Forall (modify_readable vmem) es ->
  0 <= p -> p + 24 * Z.of_nat (length es) <= len m ->
  0 <= data_ -> data_ + data_total es <= len m ->
  exists r, modify_pack_fill vmem entries (length es) i p data_ m = Ok r.
Proof.
  revert i p data_ m.
  induction es as [| e es IH]; intros i p data_ m Hi Hs Hwf Hwd Hp Hpb Hd Hdb.
  - eexists. reflexivity.
  - cbn [length modify_pack_fill].
    destruct (entry_at_skipn entries i e es Hi Hs) as [He Hr].
    rewrite He. cbn [bind].
    pose proof (Forall_inv Hwf) as (Hds & Hof & Hsz).
    pose proof (Forall_inv_tail Hwf) as Hwf'.
    pose proof (Forall_inv Hwd) as Hsrc. unfold modify_readable in Hsrc.
    pose proof (Forall_inv_tail Hwd) as Hwd'.
    pose proof (data_total_nonneg es Hwf') as Htot.
    cbn [length] in Hpb. rewrite Nat2Z.inj_succ in Hpb.
    cbn [data_total fold_right] in Hdb. fold (data_total es) in Hdb.
    unfold in_size_t in Hds. unfold sizeof_size_t.
    rewrite store_size_t_defined by lia. cbn [bind].
    set (m1 := splice_at m p _).
    assert (Hl1 : len m1 = len m).
    { subst m1. apply len_splice_at; rewrite ?len_le_split; lia. }
    rewrite store_size_t_defined by lia. cbn [bind].
    set (m2 := splice_at m1 (p + 8) _).
    assert (Hl2 : len m2 = len m).
    { subst m2. rewrite len_splice_at; rewrite ?len_le_split; lia. }
    rewrite store_size_t_defined by lia. cbn [bind].
    set (m3 := splice_at m2 (p + 2 * 8) _).
    assert (Hl3 : len m3 = len m).
    { subst m3. rewrite len_splice_at; rewrite ?len_le_split; lia. }
    assert (Hlb : len (src_bytes vmem (mod_data e) (mod_data_size e))
                  = mod_data_size e).
    { destruct (mod_data e) as [bs | cap o]; cbn [src_bytes src_readable] in *;
        apply len_slice; lia. }
    rewrite src_memcpy_defined by (try assumption; lia). cbn [bind].
    apply IH; try assumption; try lia.
    + rewrite len_splice_at; rewrite ?Hlb; lia.
    + rewrite len_splice_at; rewrite ?Hlb; lia.
Qed.

(** Packing succeeds whenever the packed length is representable, the
    allocator delivers it, and the data of every entry is there. *)
Lemma modify_pack_defined (s : WT_SESSION_IMPL) (vmem : list byte)
    (entries : list WT_MODIFY) :
  let n := Z.of_nat (length entries) in
  n <= INT_MAX -> Forall wf_modify entries ->
  Forall (modify_readable vmem) entries ->
  8 + 24 * n + data_total entries < SIZE_MOD ->
  alloc_ok s (8 + 24 * n + data_total entries) = true ->
  exists blob, __wt_modify_pack s vmem entries n = Ok blob.
Proof.
  intros n Hn Hwf Hwd Hno Halloc.
  pose proof (data_total_nonneg entries Hwf) as Htot.
  assert (Hn0 : 0 <= n <= INT_MAX) by (subst n; lia).
  unfold __wt_modify_pack. subst n. rewrite Nat2Z.id.
  set (n := Z.of_nat (length entries)) in *.
  rewrite (modify_pack_len_value entries entries 0)
    by (try lia; try reflexivity;
        unfold in_size_t, sizeof_size_t; rewrite SIZE_MOD_eq; lia).
  fold n. unfold sizeof_size_t.
  rewrite wrap_small by lia. cbn [bind].
  unfold __wt_scr_alloc, realloc. rewrite Halloc. cbn [bind app mem].
  set (m0 := fresh_bytes s (len []) _).
  assert (Hm0 : len m0 = 8 + 24 * n + data_total entries).
  { subst m0. change (len []) with 0.
    rewrite len_fresh_bytes by lia. lia. }
  rewrite store_size_t_defined by lia. cbn [bind].
  rewrite modify_data_start_small by exact Hn0.
  destruct (modify_pack_fill_defined vmem entries entries 0 8 (8 + 24 * n)
              (splice_at m0 0 (le_split 8 (size_of_int n))))
    as [[data' m'] Hfill]; try assumption; try reflexivity; try lia.
  - rewrite len_splice_at; rewrite ?len_le_split; lia.
  - rewrite len_splice_at; rewrite ?len_le_split; lia.
  - rewrite Hfill. cbn [bind]. eexists. reflexivity.
Qed.

(** ** The walk of [__value_return_upd] *)

Lemma uint_add_small (i : Z) : 0 <= i -> i + 1 < UINT_MOD -> uint_add i 1 = i + 1.
Proof. intros H0 H1. unfold uint_add. apply Z.mod_small. lia. Qed.

Lemma uint_sub_small (i : Z) : 0 < i < UINT_MOD -> uint_sub i 1 = i - 1.
Proof. intros Hi. unfold uint_sub. apply Z.mod_small. lia. Qed.

Lemma list_store_end (listp : list WT_UPDATE) (u : WT_UPDATE) :
  list_store listp (Z.of_nat (length listp)) u = Ok (listp ++ [u]).
Proof.
  unfold list_store.
  destruct (Z.ltb_spec (Z.of_nat (length listp)) 0); [lia |].
  rewrite Z.ltb_irrefl. cbn [orb]. rewrite Nat2Z.id.
  rewrite firstn_all. rewrite skipn_all2 by lia. reflexivity.
Qed.

Lemma list_at_app (pre suf : list WT_UPDATE) (u : WT_UPDATE) :
  list_at (pre ++ u :: suf) (Z.of_nat (length pre)) = Ok u.
Proof.
  unfold list_at. destruct (Z.ltb_spec (Z.of_nat (length pre)) 0); [lia |].
  rewrite Nat2Z.id, nth_error_app2 by lia. rewrite Nat.sub_diag.
  reflexivity.
Qed.

Lemma pending_cons (s : WT_SESSION_IMPL) (u : WT_UPDATE)
    (next : list WT_UPDATE) :
  pending s (u :: next) =
  if is_base s u then []
  else if __wt_txn_upd_visible s u && upd_type_eqb (type u) WT_UPDATE_MODIFIED
       then u :: pending s next
       else pending s next.
Proof.
  unfold pending. cbn [above_base]. destruct (is_base s u); reflexivity.
Qed.

Lemma base_of_cons (s : WT_SESSION_IMPL) (u : WT_UPDATE)
    (next : list WT_UPDATE) :
  base_of s (u :: next) = if is_base s u then Some u else base_of s next.
Proof. reflexivity. Qed.

Section WalkProperties.
Context `{BtreeExtern}.

(** The walk collects the pending modifications in chain order and stops
    at the base. *)
Lemma value_return_upd_walk_Ok (s : WT_SESSION_IMPL)
    (chain listp : list WT_UPDATE) :
  let n := Z.of_nat (length listp + length (pending s chain)) in
  n < UINT_MOD -> spill_ok s n ->
  exists upd,
    value_return_upd_walk s chain (Z.of_nat (length listp)) listp
    = Ok (upd, n, listp ++ pending s chain) /\
    hd_error upd = base_of s chain.
Proof.
  cbv zeta. revert listp.
  induction chain as [| u next IH]; intros listp Hn Hsp.
  - exists []. cbn. rewrite Nat.add_0_r, app_nil_r.
    split; reflexivity.
  - cbn [value_return_upd_walk].
    rewrite pending_cons, base_of_cons in *. unfold is_base in *.
    destruct (__wt_txn_upd_visible s u) eqn:Hvis; cbn [negb andb] in *.
    + destruct (WT_UPDATE_DATA_VALUE u) eqn:Hdv.
      * exists (u :: next). cbn [length].
        rewrite Nat.add_0_r, app_nil_r. split; reflexivity.
      * destruct (upd_type_eqb (type u) WT_UPDATE_MODIFIED) eqn:Hmod.
        -- cbn [length] in *.
           assert (Halloc :
                     (if WT_MAX_MODIFY_UPDATE <=? Z.of_nat (length listp)
                      then __wt_realloc_def s
                             (uint_add (Z.of_nat (length listp)) 1)
                      else Ok tt) = Ok tt).
           { destruct (Z.leb_spec WT_MAX_MODIFY_UPDATE
                         (Z.of_nat (length listp))) as [Hge | Hlt];
               [| reflexivity].
             unfold __wt_realloc_def. rewrite Hsp; [reflexivity |]. lia. }
           rewrite Halloc. cbn [bind].
           rewrite list_store_end. cbn [bind].
           rewrite uint_add_small by lia.
           specialize (IH (listp ++ [u])).
           rewrite length_app in IH. cbn [length] in IH.
           replace (Z.of_nat (length listp + 1))
             with (Z.of_nat (length listp) + 1) in IH by lia.
           replace (Z.of_nat (length listp + 1 + length (pending s next)))
             with (Z.of_nat (length listp + S (length (pending s next))))
             in IH by lia.
           destruct (IH Hn Hsp) as (upd & Hw & Hhd).
           exists upd. rewrite Hw, <- app_assoc. split; [reflexivity |].
           exact Hhd.
        -- apply IH; assumption.
    + apply IH; assumption.
Qed.

(** The replay loop runs the collected modifications last to first. *)
Lemma value_return_upd_replay_rev (s : WT_SESSION_IMPL)
    (pre suf : list WT_UPDATE) (v : WT_ITEM) :
  Z.of_nat (length pre) < UINT_MOD ->
  value_return_upd_replay s (pre ++ suf) (length pre)
    (Z.of_nat (length pre)) v
  = modify_apply_updates s (rev pre) v.
Proof.
  revert suf v. induction pre as [| u pre IH] using rev_ind;
    intros suf v Hn.
  - reflexivity.
  - rewrite length_app in *. cbn [length] in *.
    rewrite Nat.add_1_r in *. cbn [value_return_upd_replay].
    rewrite uint_sub_small by lia.
    replace (Z.of_nat (S (length pre)) - 1) with (Z.of_nat (length pre))
      by lia.
    rewrite <- app_assoc. cbn [app]. rewrite list_at_app. cbn [bind].
    rewrite rev_app_distr. cbn [rev app modify_apply_updates].
    destruct (__wt_modify_apply s v (WT_UPDATE_DATA u)) as [v1 | e |];
      cbn [bind]; try reflexivity.
    apply IH. lia.
Qed.
End WalkProperties.

(** ** Updates and the entries they pack *)

Lemma modify_apply_list_app (s : WT_SESSION_IMPL) (a b : list WT_MODIFY)
    (v : WT_ITEM) :
  modify_apply_list s (a ++ b) v
  = (v1 <- modify_apply_list s a v ;; modify_apply_list s b v1).
Proof.
  revert v. induction a as [| e a IH]; intros v.
  - reflexivity.
  - cbn [app modify_apply_list].
    destruct (__modify_apply_one s v _ _ _ _) as [v1 | err |];
      cbn [bind]; try reflexivity.
    apply IH.
Qed.

(** Replaying updates is applying the entries they pack, update after
    update and, within an update, entry after entry. *)
Lemma modify_apply_updates_entries (s : WT_SESSION_IMPL)
    (us : list WT_UPDATE) (Es : list (list WT_MODIFY)) (v : WT_ITEM) :
  Forall2 packed_from us Es ->
  modify_apply_updates s us v = modify_apply_list s (concat Es) v.
Proof.
  intros HF. revert v. induction HF as [| u E us Es Hp _ IH]; intros v.
  - reflexivity.
  - cbn [modify_apply_updates concat]. rewrite modify_apply_list_app.
    destruct Hp as (Hn & Hwf & Hout & sw & blob & Hpack & Hdata).
    rewrite Hdata,
      (modify_pack_apply_outside sw s [] E blob v Hn Hwf Hout Hpack).
    destruct (modify_apply_list s E v) as [v1 | err |];
      cbn [bind]; try reflexivity.
    apply IH.
Qed.

Lemma Forall2_rev {A B : Type} (R : A -> B -> Prop) (l : list A)
    (l' : list B) :
  Forall2 R l l' -> Forall2 R (rev l) (rev l').
Proof.
  induction 1 as [| a b l l' Hab _ IH]; cbn [rev].
  - constructor.
  - apply Forall2_app; [exact IH |]. constructor; [exact Hab | constructor].
Qed.

(** ** [__wt_buf_set] *)

(** Setting an item to the empty value never fails and keeps its memory. *)
Lemma buf_set_empty (s : WT_SESSION_IMPL) (buf : WT_ITEM) :
  __wt_buf_set s buf [] 0 = Ok (mkItem (InMem 0) 0 (mem buf)).
Proof.
  unfold __wt_buf_set, __wt_buf_grow, WT_DATA_IN_ITEM, memsize.
  cbn [data mem size data_bytes].
  destruct (Z.ltb_spec (len (mem buf)) 0) as [Hneg | _].
  - pose proof (len_nonneg (mem buf)). lia.
  - cbn [orb Z.leb Z.compare andb].
    destruct (Z.ltb_spec 0 (len (mem buf))) as [Hpos | Hzero];
      cbn [negb bind mem].
    + rewrite memmove_defined; try lia; [| apply len_nonneg].
      cbn [bind]. change (slice [] 0 0) with (@nil byte).
      rewrite splice_at_nil. reflexivity.
    + change (Z.to_nat 0) with 0%nat. cbn [skipn].
      assert (Hnil : mem buf = []).
      { destruct (mem buf); [reflexivity |]. unfold len in Hzero.
        cbn [length] in Hzero. lia. }
      rewrite Hnil. reflexivity.
Qed.

(** A successful [__wt_buf_set] leaves a well-formed item that owns a copy
    of the [n] bytes. *)
Lemma buf_set_Ok (s : WT_SESSION_IMPL) (buf : WT_ITEM) (d : list byte)
    (n : Z) (v : WT_ITEM) :
  in_size_t n -> len (mem buf) < SIZE_MOD ->
  __wt_buf_set s buf d n = Ok v ->
  wf_item v /\ data v = InMem 0 /\ size v = n /\ n <= len d /\
  item_bytes v = slice d 0 n.
Proof.
  intros Hn Hcap Hset. unfold __wt_buf_set in Hset.
  bind_inv Hset. rename a into v0.
  apply buf_grow_Ok in Hbind;
    [| unfold wf_item, in_size_t, memsize; cbn [size data mem];
       pose proof (len_nonneg (mem buf)); rewrite SIZE_MOD_eq in *; lia
     | exact Hn].
  destruct Hbind as (_ & _ & _ & Hcap0 & Hlen0 & _).
  bind_inv Hset. apply memmove_Ok in Hbind.
  destruct Hbind as (_ & Hn0 & Hsrc & _ & Hdst & -> & Hl & Hls).
  inversion Hset; subst v. clear Hset.
  unfold wf_item, memsize. cbn [size data mem]. rewrite item_bytes_InMem.
  rewrite Hl. repeat split; try lia; try exact Hn.
  pose proof (slice_splice_same (mem v0) 0 (slice d 0 n)) as Hs.
  rewrite Hls in Hs. apply Hs; lia.
Qed.

(** ** [__value_return_upd] as base and replay *)

Section ValueReturnUpd.
Context `{BtreeExtern}.

Lemma value_return_upd_replay_eq (s : WT_SESSION_IMPL)
    (cbt : WT_CURSOR_BTREE) (u : WT_UPDATE) (next : list WT_UPDATE) :
  upd_type_eqb (type u) WT_UPDATE_STANDARD = false ->
  Z.of_nat (length (pending s (u :: next))) < UINT_MOD ->
  spill_ok s (Z.of_nat (length (pending s (u :: next)))) ->
  __value_return_upd s cbt (u :: next) =
  (cbt0 <- value_from_base s cbt (base_of s (u :: next)) ;;
   v <- modify_apply_updates s (rev (pending s (u :: next)))
          (value (iface cbt0)) ;;
   Ok (set_iface cbt0 (set_value (iface cbt0) v))).
Proof.
  intros Hstd Hn Hsp. unfold __value_return_upd. rewrite Hstd.
  destruct (value_return_upd_walk_Ok s (u :: next) []) as (upd & Hw & Hhd);
    [exact Hn | exact Hsp |].
  change (Z.of_nat (length (@nil WT_UPDATE))) with 0 in Hw.
  cbn [length Nat.add app] in Hw. rewrite Hw. cbn [bind].
  rewrite <- Hhd. unfold value_from_base.
  assert (Hreplay : forall v,
            value_return_upd_replay s (pending s (u :: next))
              (Z.to_nat (Z.of_nat (length (pending s (u :: next)))))
              (Z.of_nat (length (pending s (u :: next)))) v
            = modify_apply_updates s (rev (pending s (u :: next))) v).
  { intros v. rewrite Nat2Z.id.
    rewrite <- (app_nil_r (pending s (u :: next))) at 1.
    apply value_return_upd_replay_rev. exact Hn. }
  destruct upd as [| b rest]; cbn [hd_error].
  - destruct (__value_return s cbt) as [cbt0 | e |]; cbn [bind];
      try reflexivity.
    rewrite Hreplay. reflexivity.
  - destruct (upd_type_eqb (type b) WT_UPDATE_DELETED).
    + destruct (__wt_buf_set s (value (iface cbt)) [] 0) as [v0 | e |];
        cbn [bind]; try reflexivity.
      rewrite Hreplay. reflexivity.
    + destruct (__wt_buf_set s (value (iface cbt)) _ _) as [v0 | e |];
        cbn [bind]; try reflexivity.
      rewrite Hreplay. reflexivity.
Qed.
End ValueReturnUpd.

(** ** Chains with a known base *)

Lemma above_base_app (s : WT_SESSION_IMPL) (above : list WT_UPDATE)
    (b : WT_UPDATE) (below : list WT_UPDATE) :
  Forall (fun u => is_base s u = false) above -> is_base s b = true ->
  above_base s (above ++ b :: below) = above /\
  base_of s (above ++ b :: below) = Some b.
Proof.
  intros Ha Hb. induction Ha as [| u above Hu _ IH].
  - cbn [app above_base]. unfold base_of. cbn [find]. rewrite Hb.
    split; reflexivity.
  - cbn [app above_base]. unfold base_of in *. cbn [find]. rewrite Hu.
    destruct IH as [IH1 IH2]. rewrite IH1, IH2. split; reflexivity.
Qed.

(** ** Cursor flags *)

Lemma F_ISSET_F_CLR_other (f a b : Z) :
  Z.land a b = 0 -> F_ISSET (F_CLR f a) b = F_ISSET f b.
Proof.
  intros Hd. unfold F_ISSET, F_CLR. f_equal. f_equal.
  apply Z.bits_inj'. intros n Hn.
  rewrite !Z.land_spec, Z.ldiff_spec.
  assert (Hab : Z.testbit a n && Z.testbit b n = false).
  { rewrite <- Z.land_spec, Hd. apply Z.bits_0. }
  destruct (Z.testbit f n), (Z.testbit a n), (Z.testbit b n);
    cbn in *; congruence.
Qed.

Lemma F_ISSET_F_SET_same (f m : Z) : m <> 0 -> F_ISSET (F_SET f m) m = true.
Proof.
  intros Hm. unfold F_ISSET, F_SET.
  assert (Hl : Z.land (Z.lor f m) m = m).
  { apply Z.bits_inj'. intros n Hn. rewrite Z.land_spec, Z.lor_spec.
    destruct (Z.testbit f n), (Z.testbit m n); reflexivity. }
  rewrite Hl. apply negb_true_iff. apply Z.eqb_neq. exact Hm.
Qed.

Lemma F_CLR_F_CLR (f a : Z) : F_CLR (F_CLR f a) a = F_CLR f a.
Proof.
  unfold F_CLR. apply Z.bits_inj'. intros n Hn. rewrite !Z.ldiff_spec.
  destruct (Z.testbit f n), (Z.testbit a n); reflexivity.
Qed.

Lemma F_CLR_F_SET_other (f a b : Z) :
  Z.land a b = 0 -> F_CLR (F_SET f b) a = F_SET (F_CLR f a) b.
Proof.
  intros Hd. unfold F_CLR, F_SET. apply Z.bits_inj'. intros n Hn.
  rewrite Z.ldiff_spec, !Z.lor_spec, Z.ldiff_spec.
  assert (Hab : Z.testbit a n && Z.testbit b n = false).
  { rewrite <- Z.land_spec, Hd. apply Z.bits_0. }
  destruct (Z.testbit f n), (Z.testbit a n), (Z.testbit b n);
    cbn in *; congruence.
Qed.

Lemma F_SET_F_SET (f m : Z) : F_SET (F_SET f m) m = F_SET f m.
Proof.
  unfold F_SET. rewrite <- Z.lor_assoc, Z.lor_diag. reflexivity.
Qed.
(** ** The value side does not look at the cursor's flags *)

Section ValueFlags.
Context `{BtreeExtern}.

Lemma value_return_any_flags (s : WT_SESSION_IMPL) (cbt : WT_CURSOR_BTREE)
    (f : Z) :
  __value_return s (set_iface cbt (set_flags (iface cbt) f)) =
  (c <- __value_return s cbt ;;
   Ok (set_iface c (set_flags (iface c) f))).
Proof.
  destruct cbt as [c pg sl i cm rk tp rn]. destruct c as [k v r f0].
  unfold __value_return.
  cbn [iface set_iface set_flags set_value ref_page slot key value recno
       flags].
  destruct (page_type_of pg).
  - destruct (__wt_row_leaf_value pg (pg_row pg sl) v); [reflexivity |].
    destruct (__wt_row_leaf_value_cell pg (pg_row pg sl)); [| reflexivity].
    destruct (__wt_page_cell_data_ref s pg _ v); reflexivity.
  - destruct (__wt_page_cell_data_ref s pg _ v); reflexivity.
  - destruct (__wt_buf_set s v _ 1); reflexivity.
Qed.

Lemma value_return_upd_any_flags (s : WT_SESSION_IMPL)
    (cbt : WT_CURSOR_BTREE) (upd : list WT_UPDATE) (f : Z) :
  __value_return_upd s (set_iface cbt (set_flags (iface cbt) f)) upd =
  (c <- __value_return_upd s cbt upd ;;
   Ok (set_iface c (set_flags (iface c) f))).
Proof.
  unfold __value_return_upd. destruct upd as [| u next]; [reflexivity |].
  destruct (upd_type_eqb (type u) WT_UPDATE_STANDARD).
  - destruct cbt as [c pg sl i cm rk tp rn]. destruct c as [k v r f0].
    reflexivity.
  - destruct (value_return_upd_walk s (u :: next) 0 [])
      as [[[upd' n] listp] | e |]; cbn [bind]; try reflexivity.
    assert (Hbase :
              match upd' with
              | [] => __value_return s
                        (set_iface cbt (set_flags (iface cbt) f))
              | b :: _ =>
                  if upd_type_eqb (type b) WT_UPDATE_DELETED
                  then
                    v <- __wt_buf_set s
                           (value (iface
                              (set_iface cbt (set_flags (iface cbt) f))))
                           [] 0 ;;
                    Ok (set_iface (set_iface cbt (set_flags (iface cbt) f))
                          (set_value
                             (iface
                                (set_iface cbt (set_flags (iface cbt) f)))
                             v))
                  else
                    v <- __wt_buf_set s
                           (value (iface
                              (set_iface cbt (set_flags (iface cbt) f))))
                           (WT_UPDATE_DATA b) (upd_size b) ;;
                    Ok (set_iface (set_iface cbt (set_flags (iface cbt) f))
                          (set_value
                             (iface
                                (set_iface cbt (set_flags (iface cbt) f)))
                             v))
              end =
              (c <- match upd' with
                    | [] => __value_return s cbt
                    | b :: _ =>
                        if upd_type_eqb (type b) WT_UPDATE_DELETED
                        then
                          v <- __wt_buf_set s (value (iface cbt)) [] 0 ;;
                          Ok (set_iface cbt (set_value (iface cbt) v))
                        else
                          v <- __wt_buf_set s (value (iface cbt))
                                 (WT_UPDATE_DATA b) (upd_size b) ;;
                          Ok (set_iface cbt (set_value (iface cbt) v))
                    end ;;
               Ok (set_iface c (set_flags (iface c) f)))).
    { destruct upd' as [| b rest]; [apply value_return_any_flags |].
      destruct cbt as [c pg sl i cm rk tp rn]. destruct c as [k v r f0].
      cbn [iface set_iface set_flags set_value value].
      destruct (upd_type_eqb (type b) WT_UPDATE_DELETED);
        destruct (__wt_buf_set s v _ _); reflexivity. }
    cbn [iface set_iface] in Hbase |- *. rewrite Hbase. clear Hbase.
    destruct (match upd' with
              | [] => __value_return s cbt
              | b :: _ => _
              end) as [c0 | e |]; cbn [bind]; try reflexivity.
    destruct c0 as [c pg sl i cm rk tp rn]. destruct c as [k v r f0].
    cbn [iface set_iface set_flags set_value value].
    destruct (value_return_upd_replay s listp (Z.to_nat n) n v);
      reflexivity.
Qed.

(** [__wt_value_return] with other flags: the same outcome and the same
    cursor, up to the flags. *)
Lemma wt_value_return_any_flags (s : WT_SESSION_IMPL)
    (cbt : WT_CURSOR_BTREE) (upd : list WT_UPDATE) (f : Z) :
  __wt_value_return s (set_iface cbt (set_flags (iface cbt) f)) upd =
  (c <- __wt_value_return s cbt upd ;;
   Ok (set_iface c
         (set_flags (iface c)
            (F_SET (F_CLR f WT_CURSTD_VALUE_EXT) WT_CURSTD_VALUE_INT)))).
Proof.
  unfold __wt_value_return.
  assert (Hcore : forall g,
            match upd with
            | [] => __value_return s (set_iface cbt (set_flags (iface cbt) g))
            | _ :: _ =>
                __value_return_upd s
                  (set_iface cbt (set_flags (iface cbt) g)) upd
            end =
            (c <- match upd with
                  | [] => __value_return s cbt
                  | _ :: _ => __value_return_upd s cbt upd
                  end ;;
             Ok (set_iface c (set_flags (iface c) g)))).
  { intros g. destruct upd as [| u next].
    - apply value_return_any_flags.
    - apply value_return_upd_any_flags. }
  replace (set_iface (set_iface cbt (set_flags (iface cbt) f)) _)
    with (set_iface cbt
            (set_flags (iface cbt) (F_CLR f WT_CURSTD_VALUE_EXT)))
    by (destruct cbt as [c pg sl i cm rk tp rn]; destruct c as [k v r f0];
        reflexivity).
  rewrite !Hcore.
  destruct (match upd with
            | [] => __value_return s cbt
            | _ :: _ => _
            end) as [c0 | e |]; cbn [bind]; reflexivity.
Qed.

(** The value [__wt_value_return] leaves is the one the page or the update
    gives. *)
Lemma wt_value_return_value (s : WT_SESSION_IMPL) (cbt cbt' : WT_CURSOR_BTREE)
    (upd : list WT_UPDATE) :
  __wt_value_return s cbt upd = Ok cbt' ->
  exists c,
    match upd with
    | [] => __value_return s cbt
    | _ :: _ => __value_return_upd s cbt upd
    end = Ok c /\
    value (iface cbt') = value (iface c).
Proof.
  unfold __wt_value_return. intros Hret. bind_inv Hret. rename a into c0.
  inversion Hret; subst cbt'. clear Hret.
  assert (Hcore :
            match upd with
            | [] => __value_return s
                      (set_iface cbt
                         (set_flags (iface cbt)
                            (F_CLR (flags (iface cbt)) WT_CURSTD_VALUE_EXT)))
            | _ :: _ =>
                __value_return_upd s
                  (set_iface cbt
                     (set_flags (iface cbt)
                        (F_CLR (flags (iface cbt)) WT_CURSTD_VALUE_EXT)))
                  upd
            end =
            (c <- match upd with
                  | [] => __value_return s cbt
                  | _ :: _ => __value_return_upd s cbt upd
                  end ;;
             Ok (set_iface c
                   (set_flags (iface c)
                      (F_CLR (flags (iface cbt)) WT_CURSTD_VALUE_EXT))))).
  { destruct upd as [| u next].
    - apply value_return_any_flags.
    - apply value_return_upd_any_flags. }
  rewrite Hcore in Hbind. clear Hcore. bind_inv Hbind. rename a into c.
  inversion Hbind; subst c0. exists c. split; [exact Hbind0 |].
  destruct c as [cu pg sl i cm rk tp rn]. destruct cu as [k v r f].
  reflexivity.
Qed.
End ValueFlags.

(** * The claims about [__modify_apply_one] *)

(** C2, as the code has it. After a successful [__modify_apply_one] the
    [data_size] bytes at [offset] of the resulting value are the data as it
    was when the call was made, on every path (interior overwrite, append
    with gap fill, size-changing splice), whether the value grew, shrank or
    kept its length, provided the data is not written before it is copied
    ([src_kept]): data outside the value's memory always; data inside the
    memory of a value that the item holds itself on the two paths that make
    one move, on the append path when it ends at or before the end of the
    value, and on the size-changing path when it starts at or before
    [offset]. *)
Theorem modify_apply_one_reads_back (s : WT_SESSION_IMPL) (v : WT_ITEM)
    (ds off sz : Z) (p : src_ptr) (v' : WT_ITEM) :
  wf_item v -> in_size_t ds -> in_size_t off -> in_size_t sz ->
  src_kept v ds off sz p ->
  __modify_apply_one s v ds off sz p = Ok v' ->
  off + ds <= size v' /\
  slice (item_bytes v') off ds = src_bytes (mem v) p ds.
Proof.
  intros Hwf Hds Hoff Hsz Hkept Hap0.
  destruct (modify_apply_one_src_Ok s v ds off sz p v' Hwf Hds Hoff Hsz Hap0)
    as (src & Hlsrc & Hap & Hsrc_eq).
  rewrite <- (Hsrc_eq Hkept). clear Hsrc_eq Hkept Hap0.
  pose proof (len_item_bytes v Hwf) as HlB.
  pose proof Hwf as (Hs & _ & _).
  destruct (modify_apply_one_Ok s v ds off sz src v' Hwf Hds Hoff Hsz Hap)
    as (Hwf' & _ & Htail & Hin).
  assert (Hall : slice src 0 ds = src) by (rewrite <- Hlsrc; apply slice_all).
  rewrite Hall in *.
  unfold in_size_t in *.
  destruct (Z.le_gt_cases (size v) off) as [Hc | Hc].
  - destruct (Htail Hc) as [Hsz' Hb]. split; [lia |].
    rewrite Hb, app_assoc.
    rewrite <- (app_nil_r src) at 1.
    apply slice_middle_at; [| exact Hlsrc].
    rewrite len_app, len_repeat by lia. lia.
  - destruct (Hin Hc) as [Hsz' Hb].
    pose proof (clamped_from_le (size v) off sz) as Hfrom.
    unfold in_size_t in Hfrom. specialize (Hfrom Hs Hoff ltac:(lia)).
    split; [lia |].
    rewrite Hb.
    apply slice_middle_at; [| exact Hlsrc].
    apply len_slice; lia.
Qed.


(** C7. On the size-changing path (the edit starts inside the value and the
    corrected replacement size differs from the data size) the new size is
    [size + (data_size - replace_size)] in [size_t] arithmetic, and as long as
    the corrected replacement size does not reach past the end of the value
    this is the exact integer [size + data_size - replace_size], for a growing
    and for a shrinking edit alike, wherever the data of the edit lies. *)
Theorem modify_apply_one_splice_size (s : WT_SESSION_IMPL) (v : WT_ITEM)
    (ds off sz : Z) (p : src_ptr) (v' : WT_ITEM) :
  wf_item v -> in_size_t ds -> in_size_t off -> in_size_t sz ->
  off < size v ->
  let c := clamped_size (size v) off sz in
  ds <> c -> c <= size v - off ->
  __modify_apply_one s v ds off sz p = Ok v' ->
  size v' = size_add (size v) (size_sub ds c) /\
  size_add (size v) (size_sub ds c) = size v + ds - c /\
  (c < ds -> size v' = size v + (ds - c)) /\
  (ds < c -> size v' = size v - (c - ds)).
Proof.
  intros Hwf Hds Hoff Hsz Hin c Hne Hle Hap0.
  destruct (modify_apply_one_src_Ok s v ds off sz p v' Hwf Hds Hoff Hsz Hap0)
    as (src & _ & Hap & _).
  pose proof Hwf as (Hs & _ & _).
  assert (Hc : 0 <= c <= size v - off).
  { split; [| exact Hle]. subst c. unfold clamped_size.
    destruct (size v <? size_add off sz).
    - apply wrap_range.
    - apply Hsz. }
  destruct (modify_apply_one_Ok s v ds off sz src v' Hwf Hds Hoff Hsz Hap)
    as (Hwf' & _ & _ & Hi).
  destruct (Hi Hin) as [Hsize _]. fold c in Hsize.
  destruct Hwf' as (Hs' & _ & _).
  unfold in_size_t in *. pose proof SIZE_MOD_eq as HM.
  assert (Hfrom : size_add off c = off + c).
  { unfold size_add. apply wrap_small. lia. }
  rewrite Hfrom in Hsize.
  assert (Hexact : size_add (size v) (size_sub ds c) = size v + ds - c).
  { unfold size_add, size_sub. apply wrap_eq_small; [lia |].
    destruct (wrap_decompose (ds - c)) as [k Hk].
    exists (- k). lia. }
  rewrite Hexact. repeat split; lia.
Qed.


(** C10. An edit that starts inside the value leaves the bytes before
    [offset] as they were, and the bytes that followed the replaced range,
    the old [offset + min replace_size (size - offset)] up to the old end,
    follow the new data unchanged and without a gap, wherever the data of
    the edit lies. *)
Theorem modify_apply_one_frame (s : WT_SESSION_IMPL) (v : WT_ITEM)
    (ds off sz : Z) (p : src_ptr) (v' : WT_ITEM) :
  wf_item v -> in_size_t ds -> in_size_t off -> in_size_t sz ->
  off < size v ->
  __modify_apply_one s v ds off sz p = Ok v' ->
  let r := Z.min sz (size v - off) in
  off + ds + (size v - (off + r)) <= size v' /\
  slice (item_bytes v') 0 off = slice (item_bytes v) 0 off /\
  slice (item_bytes v') (off + ds) (size v - (off + r))
  = slice (item_bytes v) (off + r) (size v - (off + r)).
Proof.
  intros Hwf Hds Hoff Hsz Hin Hap0 r.
  destruct (modify_apply_one_src_Ok s v ds off sz p v' Hwf Hds Hoff Hsz Hap0)
    as (src & _ & Hap & _).
  pose proof Hwf as (Hs & _ & _).
  pose proof (len_item_bytes v Hwf) as HlB.
  destruct (modify_apply_one_Ok s v ds off sz src v' Hwf Hds Hoff Hsz Hap)
    as (_ & Hsrc & _ & Hi).
  destruct (Hi Hin) as [Hsize Hb].
  pose proof (clamped_from_le (size v) off sz Hs Hoff Hin) as Hfrom.
  pose proof (wrap_range (off + clamped_size (size v) off sz)) as Hfr.
  fold (size_add off (clamped_size (size v) off sz)) in Hfr.
  set (from := size_add off (clamped_size (size v) off sz)) in *.
  unfold in_size_t in *. pose proof SIZE_MOD_eq as HM.
  assert (Hl1 : len (slice (item_bytes v) 0 off) = off)
    by (apply len_slice; lia).
  assert (Hl2 : len (slice src 0 ds) = ds) by (apply len_slice; lia).
  assert (Hl3 : len (slice (item_bytes v) from (size v - from))
                = size v - from) by (apply len_slice; lia).
  assert (Hpre : slice (item_bytes v') 0 off = slice (item_bytes v) 0 off).
  { rewrite Hb. apply slice_prefix_at. exact Hl1. }
  destruct (Z.lt_ge_cases (off + sz) SIZE_MOD) as [Hno | Hov].
  - (* the end of the replaced range is representable *)
    assert (Hfr' : from = off + r).
    { subst from r. rewrite clamped_size_min by (unfold in_size_t; lia).
      unfold size_add. apply wrap_small. lia. }
    rewrite <- Hfr'. split; [lia | split; [exact Hpre |]].
    rewrite Hb, app_assoc.
    apply slice_suffix_at; [| exact Hl3].
    rewrite len_app. lia.
  - (* it is not: the replaced range reaches the end of the value *)
    assert (Hr : r = size v - off) by (subst r; lia).
    rewrite Hr. replace (size v - (off + (size v - off))) with 0 by lia.
    split; [lia | split; [exact Hpre | reflexivity]].
Qed.
(** * The claim about the codec *)

(** C3, as the code has it. Whatever the buffer and the sessions, applying
    the value that [__wt_modify_pack] made of the entries [e1 .. en] is
    applying [e1], then [e2], and so on to [en], each with the data bytes
    that were found at its data pointer when the entries were packed. When
    no entry has its data in the memory of the buffer this is
    [__wt_modify_apply_api] on the entries themselves: same outcome, same
    buffer. [__wt_modify_apply_api] is [__modify_apply_one] entry after
    entry, reading the data through the caller's pointers as it goes. *)
Theorem modify_pack_apply_roundtrip (s s' : WT_SESSION_IMPL)
    (vmem : list byte) (entries : list WT_MODIFY) (blob v : WT_ITEM) :
  Z.of_nat (length entries) <= INT_MAX -> Forall wf_modify entries ->
  __wt_modify_pack s vmem entries (Z.of_nat (length entries)) = Ok blob ->
  __wt_modify_apply s' v (data_bytes blob)
  = __wt_modify_apply_api s' v (map (modify_resolve vmem) entries)
      (Z.of_nat (length entries)) /\
  (Forall modify_outside entries ->
   __wt_modify_apply s' v (data_bytes blob)
   = __wt_modify_apply_api s' v entries (Z.of_nat (length entries))) /\
  __wt_modify_apply_api s' v entries (Z.of_nat (length entries))
  = modify_apply_list s' entries v.
Proof.
  intros Hn Hwf Hp. split; [| split].
  - rewrite <- (length_map (modify_resolve vmem) entries).
    rewrite modify_apply_api_list.
    apply (modify_pack_apply s s' vmem entries blob v Hn Hwf Hp).
  - intros Hout. rewrite modify_apply_api_list.
    apply (modify_pack_apply_outside s s' vmem entries blob v Hn Hwf Hout Hp).
  - apply modify_apply_api_list.
Qed.

(** * The claims about the cursor's return value *)

Section ReturnClaims.
Context `{BtreeExtern}.

(** C1. With the base of the chain (the nearest visible standard update or
    tombstone, the on-page value when there is none) and the pending
    modifications (the visible modify updates above it, newest first, the
    list [Es] giving the entries each one packs), [__value_return_upd]
    sets the value from the base and then applies the entries of the
    oldest pending update first, those of the newest last, each update's
    entries in the order they were packed. Called on a standard update it
    returns that update's value, the base with nothing to apply. *)
Theorem value_return_upd_chronological (s : WT_SESSION_IMPL)
    (cbt : WT_CURSOR_BTREE) (u : WT_UPDATE) (next : list WT_UPDATE)
    (Es : list (list WT_MODIFY)) :
  __wt_txn_upd_visible s u = true ->
  Forall2 packed_from (pending s (u :: next)) Es ->
  Z.of_nat (length (pending s (u :: next))) < UINT_MOD ->
  spill_ok s (Z.of_nat (length (pending s (u :: next)))) ->
  (type u <> WT_UPDATE_STANDARD ->
   __value_return_upd s cbt (u :: next) =
   (cbt0 <- value_from_base s cbt (base_of s (u :: next)) ;;
    v <- modify_apply_list s (concat (rev Es)) (value (iface cbt0)) ;;
    Ok (set_iface cbt0 (set_value (iface cbt0) v)))) /\
  (type u = WT_UPDATE_STANDARD ->
   base_of s (u :: next) = Some u /\ pending s (u :: next) = [] /\
   exists cbt',
     __value_return_upd s cbt (u :: next) = Ok cbt' /\
     item_bytes (value (iface cbt'))
     = firstn (Z.to_nat (upd_size u)) (WT_UPDATE_DATA u)).
Proof.
  intros Hvis Hpk Hn Hsp. split.
  - intros Hty.
    assert (Hstd : upd_type_eqb (type u) WT_UPDATE_STANDARD = false).
    { destruct (type u); try reflexivity. congruence. }
    rewrite (value_return_upd_replay_eq s cbt u next Hstd Hn Hsp).
    destruct (value_from_base s cbt (base_of s (u :: next)))
      as [cbt0 | e |]; cbn [bind]; try reflexivity.
    rewrite (modify_apply_updates_entries s _ (rev Es));
      [reflexivity | apply Forall2_rev; exact Hpk].
  - intros Hty.
    assert (Hb : is_base s u = true).
    { unfold is_base, WT_UPDATE_DATA_VALUE. rewrite Hvis, Hty.
      reflexivity. }
    rewrite base_of_cons, pending_cons, Hb.
    split; [reflexivity | split; [reflexivity |]].
    unfold __value_return_upd. rewrite Hty. cbn [upd_type_eqb].
    eexists. split; [reflexivity |]. reflexivity.
Qed.

(** C4, as the code has it. When the base of the chain is a tombstone,
    [__value_return_upd] sets the value to the empty value, which cannot
    fail, and then replays the pending modifications collected above the
    tombstone onto it, oldest first; what lies below the tombstone is
    never reached and plays no part. The result is empty when nothing was
    collected. *)
Theorem value_return_upd_tombstone (s : WT_SESSION_IMPL)
    (cbt : WT_CURSOR_BTREE) (u : WT_UPDATE)
    (above : list WT_UPDATE) (b : WT_UPDATE) (below : list WT_UPDATE) :
  __wt_txn_upd_visible s u = true ->
  hd_error (above ++ [b]) = Some u ->
  Forall (fun x => is_base s x = false) above ->
  is_base s b = true -> type b = WT_UPDATE_DELETED ->
  let ps := filter (fun x => __wt_txn_upd_visible s x
                             && upd_type_eqb (type x) WT_UPDATE_MODIFIED)
              above in
  Z.of_nat (length ps) < UINT_MOD -> spill_ok s (Z.of_nat (length ps)) ->
  __value_return_upd s cbt (above ++ b :: below) =
  (v <- modify_apply_updates s (rev ps)
          (mkItem (InMem 0) 0 (mem (value (iface cbt)))) ;;
   Ok (set_iface cbt (set_value (iface cbt) v))) /\
  (ps = [] ->
   __value_return_upd s cbt (above ++ b :: below) =
   Ok (set_iface cbt
         (set_value (iface cbt)
            (mkItem (InMem 0) 0 (mem (value (iface cbt))))))).
Proof.
  intros Hvis Hhd Habove Hb Hdel ps Hn Hsp.
  destruct (above_base_app s above b below Habove Hb) as [Hab Hbase].
  assert (Hps : pending s (above ++ b :: below) = ps).
  { unfold pending. rewrite Hab. reflexivity. }
  assert (Hchain : exists next, above ++ b :: below = u :: next).
  { destruct above as [| a above']; cbn in Hhd |- *; inversion Hhd; subst;
      eexists; reflexivity. }
  destruct Hchain as [next Hchain].
  assert (Hstd : upd_type_eqb (type u) WT_UPDATE_STANDARD = false).
  { destruct above as [| a above']; cbn in Hhd; inversion Hhd; subst.
    - rewrite Hdel. reflexivity.
    - pose proof (Forall_inv Habove) as Hu. cbn beta in Hu.
      unfold is_base, WT_UPDATE_DATA_VALUE in Hu. rewrite Hvis in Hu.
      destruct (type u); try reflexivity. discriminate. }
  assert (Heq : __value_return_upd s cbt (above ++ b :: below) =
                (v <- modify_apply_updates s (rev ps)
                        (mkItem (InMem 0) 0 (mem (value (iface cbt)))) ;;
                 Ok (set_iface cbt (set_value (iface cbt) v)))).
  { rewrite Hchain in *.
    rewrite (value_return_upd_replay_eq s cbt u next Hstd)
      by (rewrite Hps; assumption).
    rewrite Hbase, Hps. unfold value_from_base. rewrite Hdel.
    cbn [upd_type_eqb]. rewrite buf_set_empty. cbn [bind].
    destruct cbt as [c pg sl i cm rk tp rn]. destruct c as [k v r f].
    reflexivity. }
  split; [exact Heq |].
  intros Hnil. rewrite Heq, Hnil. reflexivity.
Qed.

(** C5, as the code has it. The key side is guarded: [__wt_key_return]
    clears the external flag and, when the internal flag is already set,
    does nothing else, so that the key and the search state are left
    alone; hence a second call after a successful one changes nothing. The
    value side has no guard: whatever the flags of the cursor are,
    [__wt_value_return] has the same outcome and leaves the same cursor, up
    to the flags themselves; the value it leaves is the one that the page
    (without an update) or the update chain gives, for a standard update
    the update's own bytes; and the internal flag is set afterwards. *)
Theorem key_return_guarded_value_return_not (s : WT_SESSION_IMPL)
    (cbt : WT_CURSOR_BTREE) :
  Z.land WT_CURSTD_KEY_EXT WT_CURSTD_KEY_INT = 0 ->
  WT_CURSTD_KEY_INT <> 0 -> WT_CURSTD_VALUE_INT <> 0 ->
  (F_ISSET (flags (iface cbt)) WT_CURSTD_KEY_INT = true ->
   __wt_key_return s cbt =
   Ok (set_iface cbt
         (set_flags (iface cbt)
            (F_CLR (flags (iface cbt)) WT_CURSTD_KEY_EXT)))) /\
  (forall cbt', __wt_key_return s cbt = Ok cbt' ->
                __wt_key_return s cbt' = Ok cbt') /\
  (forall upd f,
     __wt_value_return s (set_iface cbt (set_flags (iface cbt) f)) upd =
     (c <- __wt_value_return s cbt upd ;;
      Ok (set_iface c
            (set_flags (iface c)
               (F_SET (F_CLR f WT_CURSTD_VALUE_EXT) WT_CURSTD_VALUE_INT))))) /\
  (forall upd cbt',
     __wt_value_return s cbt upd = Ok cbt' ->
     F_ISSET (flags (iface cbt')) WT_CURSTD_VALUE_INT = true /\
     exists c,
       match upd with
       | [] => __value_return s cbt
       | _ :: _ => __value_return_upd s cbt upd
       end = Ok c /\
       value (iface cbt') = value (iface c)) /\
  (forall u next, type u = WT_UPDATE_STANDARD ->
     __wt_value_return s cbt (u :: next) =
     Ok (set_iface cbt
           (mkCursor (key (iface cbt))
              (mkItem (External (WT_UPDATE_DATA u)) (upd_size u)
                 (mem (value (iface cbt))))
              (recno (iface cbt))
              (F_SET (F_CLR (flags (iface cbt)) WT_CURSTD_VALUE_EXT)
                 WT_CURSTD_VALUE_INT)))).
Proof.
  intros Hdisj Hkint Hvint.
  assert (Hguard : forall c : WT_CURSOR_BTREE,
            F_ISSET (flags (iface c)) WT_CURSTD_KEY_INT = true ->
            __wt_key_return s c =
            Ok (set_iface c
                  (set_flags (iface c)
                     (F_CLR (flags (iface c)) WT_CURSTD_KEY_EXT)))).
  { intros c Hint. unfold __wt_key_return. cbn [iface set_iface flags set_flags].
    rewrite (F_ISSET_F_CLR_other _ _ _ Hdisj), Hint. reflexivity. }
  split; [apply Hguard | split; [| split; [| split]]].
  - intros cbt' Hret.
    assert (Hstate : F_ISSET (flags (iface cbt')) WT_CURSTD_KEY_INT = true
                     /\ F_CLR (flags (iface cbt')) WT_CURSTD_KEY_EXT
                        = flags (iface cbt')).
    { unfold __wt_key_return in Hret.
      cbn [iface set_iface flags set_flags] in Hret.
      rewrite (F_ISSET_F_CLR_other _ _ _ Hdisj) in Hret.
      destruct (F_ISSET (flags (iface cbt)) WT_CURSTD_KEY_INT) eqn:Hint;
        cbn [negb] in Hret.
      - inversion Hret; subst cbt'. cbn [iface set_iface flags set_flags].
        rewrite (F_ISSET_F_CLR_other _ _ _ Hdisj), Hint, F_CLR_F_CLR.
        split; reflexivity.
      - bind_inv Hret. inversion Hret; subst cbt'.
        cbn [iface set_iface flags set_flags].
        rewrite (F_ISSET_F_SET_same _ _ Hkint).
        split; [reflexivity |].
        assert (Hf : exists f0, flags (iface a)
                                = F_CLR f0 WT_CURSTD_KEY_EXT).
        { exists (flags (iface cbt)). unfold __key_return in Hbind.
          cbn [iface set_iface flags set_flags ref_page slot ins compare
               row_key tmp cbt_recno key value recno] in Hbind.
          destruct (page_type_of (ref_page cbt));
            [destruct (ins cbt);
             [| destruct (compare cbt =? 0);
                [| bind_inv Hbind ]] | |];
            inversion Hbind; subst a; reflexivity. }
        destruct Hf as [f0 Hf]. rewrite Hf.
        rewrite (F_CLR_F_SET_other _ _ _ Hdisj), F_CLR_F_CLR.
        reflexivity. }
    destruct Hstate as [Hint Hclr].
    rewrite (Hguard cbt' Hint), Hclr.
    destruct cbt' as [c pg sl i cm rk tp rn]. destruct c as [k v r f].
    reflexivity.
  - intros upd f. apply wt_value_return_any_flags.
  - intros upd cbt' Hret.
    split; [| apply (wt_value_return_value s cbt cbt' upd Hret)].
    unfold __wt_value_return in Hret. bind_inv Hret.
    inversion Hret; subst cbt'. cbn [iface set_iface flags set_flags].
    apply F_ISSET_F_SET_same. exact Hvint.
  - intros u next Hty. unfold __wt_value_return, __value_return_upd.
    cbn [iface set_iface flags set_flags]. rewrite Hty.
    cbn [upd_type_eqb bind]. reflexivity.
Qed.
End ReturnClaims.

(** * The code at concrete inputs *)

Ltac by_compute :=
  vm_compute; repeat split; try reflexivity; try discriminate.

(** C8. The correction of the replacement size misses the sizes for which
    [offset + size] wraps around. On the 10 bytes [0123456789], in a memory
    of 16, the edit "replace [2^64 - 1] bytes at offset 2 by [abc]" starts
    inside the value and reaches past its end, yet it is not corrected to
    the 8 bytes that remain: the sum wraps to 1, the bytes from offset 1 on
    are moved behind the data and the value becomes the 14 bytes
    [01abc123456789], where the splice of the specification gives [01abc].
    When the value references the same bytes and the memory is grown to
    the 13 bytes asked for, the move runs past the end of the memory. *)
Theorem modify_apply_one_wrapped_size_not_corrected :
  2 < size (ex_owned ex_digits 6) /\
  size (ex_owned ex_digits 6) < 2 + (2 ^ 64 - 1) /\
  in_size_t (2 ^ 64 - 1) /\
  __modify_apply_one ex_session (ex_owned ex_digits 6) 3 2 (2 ^ 64 - 1)
    (Outside ex_abc)
  = Ok (mkItem (InMem 0) 14
          ([Byte.x30; Byte.x31] ++ ex_abc
             ++ [Byte.x31; Byte.x32; Byte.x33; Byte.x34; Byte.x35; Byte.x36;
                 Byte.x37; Byte.x38; Byte.x39]
             ++ [Byte.xff; Byte.xff])) /\
  apply_edit ex_digits 2 (2 ^ 64 - 1) ex_abc = [Byte.x30; Byte.x31] ++ ex_abc /\
  __modify_apply_one ex_session (ex_ref ex_digits) 3 2 (2 ^ 64 - 1)
    (Outside ex_abc)
  = Undef.
Proof. by_compute. Qed.

(** C2, the claim as stated fails. The value is the 10 bytes [0123456789]
    in a memory of 16; the edit replaces the one byte at offset 2 by three
    bytes, and its data pointer is the value's own memory at offset 5, where
    [567] is found. The trailing bytes are moved two places up before the
    data is copied, so that [345] is copied: the value becomes
    [013453456789], and reading back the three bytes at offset 2 does not
    give the data. *)
Lemma modify_apply_one_aliased_data_not_read_back :
  wf_item (ex_owned ex_digits 6) /\
  src_bytes (mem (ex_owned ex_digits 6)) (InValue 16 5) 3
  = [Byte.x35; Byte.x36; Byte.x37] /\
  exists v',
    __modify_apply_one ex_session (ex_owned ex_digits 6) 3 2 1 (InValue 16 5)
    = Ok v' /\
    item_bytes v' =
      [Byte.x30; Byte.x31; Byte.x33; Byte.x34; Byte.x35; Byte.x33; Byte.x34;
       Byte.x35; Byte.x36; Byte.x37; Byte.x38; Byte.x39] /\
    slice (item_bytes v') 2 3 = [Byte.x33; Byte.x34; Byte.x35] /\
    slice (item_bytes v') 2 3
    <> src_bytes (mem (ex_owned ex_digits 6)) (InValue 16 5) 3.
Proof.
  split; [| split; [reflexivity |]].
  - unfold wf_item, in_size_t, memsize. vm_compute.
    repeat split; congruence.
  - exists (result_get
              (__modify_apply_one ex_session (ex_owned ex_digits 6) 3 2 1
                 (InValue 16 5)) (ex_ref [])).
    by_compute.
Qed.

(** C3, the claim as stated fails. With the same value and the same edit
    as an entry, the packed value holds a copy of [567], and applying it
    gives [015673456789]; [__wt_modify_apply_api] on the entry reads the
    data through the pointer after the trailing bytes were moved and gives
    [013453456789]. *)
Lemma modify_pack_apply_aliased_data_differs :
  exists blob a b,
    __wt_modify_pack ex_session (mem (ex_owned ex_digits 6))
      [ex_entry_in 2 1 16 5 3] 1 = Ok blob /\
    __wt_modify_apply ex_session (ex_owned ex_digits 6) (data_bytes blob)
    = Ok a /\
    __wt_modify_apply_api ex_session (ex_owned ex_digits 6)
      [ex_entry_in 2 1 16 5 3] 1 = Ok b /\
    item_bytes a =
      [Byte.x30; Byte.x31; Byte.x35; Byte.x36; Byte.x37; Byte.x33; Byte.x34;
       Byte.x35; Byte.x36; Byte.x37; Byte.x38; Byte.x39] /\
    item_bytes b =
      [Byte.x30; Byte.x31; Byte.x33; Byte.x34; Byte.x35; Byte.x33; Byte.x34;
       Byte.x35; Byte.x36; Byte.x37; Byte.x38; Byte.x39] /\
    __wt_modify_apply ex_session (ex_owned ex_digits 6) (data_bytes blob)
    <> __wt_modify_apply_api ex_session (ex_owned ex_digits 6)
         [ex_entry_in 2 1 16 5 3] 1.
Proof.
  exists (ex_pack_in (mem (ex_owned ex_digits 6)) [ex_entry_in 2 1 16 5 3]).
  exists (result_get
            (__wt_modify_apply ex_session (ex_owned ex_digits 6)
               (data_bytes
                  (ex_pack_in (mem (ex_owned ex_digits 6))
                     [ex_entry_in 2 1 16 5 3]))) (ex_ref [])).
  exists (result_get
            (__wt_modify_apply_api ex_session (ex_owned ex_digits 6)
               [ex_entry_in 2 1 16 5 3] 1) (ex_ref [])).
  by_compute.
Qed.

(** C4, the claim as stated fails: with one modification, [abc] at offset
    3, above a tombstone, the base is the tombstone and the value returned
    is not empty; it is three zero bytes and [abc]. *)
Lemma value_return_upd_tombstone_not_empty :
  base_of ex_session ex_chain_tombstone = Some (ex_tombstone 1) /\
  exists cbt',
    @__value_return_upd ex_extern ex_session (ex_cbt 0) ex_chain_tombstone
    = Ok cbt' /\
    item_bytes (value (iface cbt'))
    = [Byte.x00; Byte.x00; Byte.x00] ++ ex_abc /\
    size (value (iface cbt')) <> 0.
Proof.
  split; [reflexivity |].
  exists (result_get
            (@__value_return_upd ex_extern ex_session (ex_cbt 0)
               ex_chain_tombstone) (ex_cbt 0)).
  by_compute.
Qed.

(** C5, the claim as stated fails on the value side: with the internal
    value flag set and the value [old], [__wt_value_return] on a standard
    update [new] sets the value to [new]. *)
Lemma value_return_internal_rematerializes :
  F_ISSET (flags (iface (ex_cbt 2048))) (@WT_CURSTD_VALUE_INT ex_extern)
  = true /\
  item_bytes (value (iface (ex_cbt 2048))) = ex_old /\
  exists cbt',
    @__wt_value_return ex_extern ex_session (ex_cbt 2048)
      [ex_standard_upd 1 ex_new] = Ok cbt' /\
    item_bytes (value (iface cbt')) = ex_new /\
    item_bytes (value (iface cbt')) <> item_bytes (value (iface (ex_cbt 2048))).
Proof.
  split; [reflexivity | split; [reflexivity |]].
  exists (result_get
            (@__wt_value_return ex_extern ex_session (ex_cbt 2048)
               [ex_standard_upd 1 ex_new]) (ex_cbt 2048)).
  by_compute.
Qed.

(** * The theorems at concrete inputs *)

Lemma wf_ex_ref (bs : list byte) : len bs < SIZE_MOD -> wf_item (ex_ref bs).
Proof.
  intros Hl. unfold wf_item, ex_ref, in_size_t, memsize. cbn [size data mem].
  pose proof (len_nonneg bs). change (len []) with 0.
  rewrite SIZE_MOD_eq in *. lia.
Qed.

Lemma in_size_t_small (z : Z) : 0 <= z < 1000 -> in_size_t z.
Proof. unfold in_size_t. rewrite SIZE_MOD_eq. lia. Qed.

Lemma wf_ex_entry (off sz : Z) (bs : list byte) :
  0 <= off < 1000 -> 0 <= sz < 1000 -> len bs < 1000 ->
  wf_modify (ex_entry off sz bs).
Proof.
  intros Ho Hs Hl. pose proof (len_nonneg bs).
  unfold wf_modify, ex_entry. cbn [mod_data_size mod_offset mod_size].
  repeat split; apply in_size_t_small; lia.
Qed.

Ltac small := first [ apply in_size_t_small; lia
                    | apply wf_ex_ref; vm_compute; reflexivity
                    | apply wf_ex_entry; vm_compute; split; congruence ].

Lemma wf_ex_owned (bs : list byte) (spare : nat) :
  len bs + Z.of_nat spare < 1000 -> wf_item (ex_owned bs spare).
Proof.
  intros Hl. pose proof (len_nonneg bs).
  unfold wf_item, ex_owned, in_size_t, memsize. cbn [size data mem].
  assert (Hr : len (repeat Byte.xff spare) = Z.of_nat spare)
    by (unfold len; rewrite repeat_length; reflexivity).
  rewrite len_app, Hr, SIZE_MOD_eq. lia.
Qed.

Lemma ex_entry_outside (off sz : Z) (bs : list byte) :
  modify_outside (ex_entry off sz bs).
Proof. exists bs. reflexivity. Qed.

(** The data [567] lies in the value itself, the edit overwrites [234] in
    place, and [567] is read back. *)
Lemma modify_apply_one_reads_back_witness :
  let v' := result_get
              (__modify_apply_one ex_session (ex_owned ex_digits 6) 3 2 3
                 (InValue 16 5))
              (ex_ref []) in
  2 + 3 <= size v' /\
  slice (item_bytes v') 2 3 = [Byte.x35; Byte.x36; Byte.x37].
Proof.
  apply (modify_apply_one_reads_back ex_session (ex_owned ex_digits 6) 3 2 3
           (InValue 16 5)); try small.
  - apply wf_ex_owned. vm_compute. reflexivity.
  - cbn [src_kept]. repeat split; try reflexivity.
    + intros Hc. vm_compute in Hc. exfalso. apply Hc. reflexivity.
    + intros _ Hne. exfalso. apply Hne. reflexivity.
  - vm_compute. reflexivity.
Defined.


Lemma modify_apply_one_splice_size_witness :
  let v' := result_get
              (__modify_apply_one ex_session (ex_ref ex_digits) 3 2 5
                 (Outside ex_abc))
              (ex_ref []) in
  size v' = 10 + 3 - 5.
Proof.
  intros v'.
  assert (Hap : __modify_apply_one ex_session (ex_ref ex_digits) 3 2 5
                  (Outside ex_abc)
                = Ok v') by (vm_compute; reflexivity).
  assert (Hin : 2 < size (ex_ref ex_digits)) by reflexivity.
  assert (Hne : 3 <> clamped_size (size (ex_ref ex_digits)) 2 5)
    by (vm_compute; congruence).
  assert (Hc : clamped_size (size (ex_ref ex_digits)) 2 5
               <= size (ex_ref ex_digits) - 2)
    by (vm_compute; congruence).
  destruct (modify_apply_one_splice_size ex_session (ex_ref ex_digits) 3 2 5
              (Outside ex_abc) v' ltac:(small) ltac:(small) ltac:(small)
              ltac:(small)
              Hin Hne Hc Hap)
    as (Hsize & Hexact & _).
  rewrite Hsize, Hexact. reflexivity.
Defined.


Lemma modify_apply_one_frame_witness :
  let v' := result_get
              (__modify_apply_one ex_session (ex_ref ex_digits) 3 2 5
                 (Outside ex_abc))
              (ex_ref []) in
  slice (item_bytes v') 0 2 = [Byte.x30; Byte.x31] /\
  slice (item_bytes v') (2 + 3) 3 = [Byte.x37; Byte.x38; Byte.x39].
Proof.
  intros v'.
  assert (Hap : __modify_apply_one ex_session (ex_ref ex_digits) 3 2 5
                  (Outside ex_abc)
                = Ok v') by (vm_compute; reflexivity).
  assert (Hin : 2 < size (ex_ref ex_digits)) by reflexivity.
  destruct (modify_apply_one_frame ex_session (ex_ref ex_digits) 3 2 5
              (Outside ex_abc) v' ltac:(small) ltac:(small) ltac:(small)
              ltac:(small)
              Hin Hap)
    as (_ & Hpre & Hpost).
  split; [rewrite Hpre; reflexivity |].
  change 3 with (size (ex_ref ex_digits)
                 - (2 + Z.min 5 (size (ex_ref ex_digits) - 2))) at 2.
  rewrite Hpost. reflexivity.
Defined.

Lemma modify_pack_apply_roundtrip_witness :
  __wt_modify_apply ex_session (ex_ref ex_hello)
    (data_bytes (ex_pack [ex_entry 0 1 ex_H; ex_entry 5 0 ex_world]))
  = __wt_modify_apply_api ex_session (ex_ref ex_hello)
      [ex_entry 0 1 ex_H; ex_entry 5 0 ex_world] 2.
Proof.
  refine (proj1 (proj2
            (modify_pack_apply_roundtrip ex_session ex_session []
               [ex_entry 0 1 ex_H; ex_entry 5 0 ex_world]
               (ex_pack [ex_entry 0 1 ex_H; ex_entry 5 0 ex_world])
               (ex_ref ex_hello) _ _ _)) _).
  - vm_compute. congruence.
  - repeat constructor; small.
  - vm_compute. reflexivity.
  - repeat constructor; apply ex_entry_outside.
Defined.

Lemma packed_from_ex (txn : Z) (es : list WT_MODIFY) :
  Z.of_nat (length es) <= INT_MAX -> Forall wf_modify es ->
  Forall modify_outside es ->
  __wt_modify_pack ex_session [] es (Z.of_nat (length es))
  = Ok (ex_pack es) ->
  packed_from (ex_modify_upd txn es) es.
Proof.
  intros Hn Hwf Hout Hp.
  split; [exact Hn | split; [exact Hwf | split; [exact Hout |]]].
  exists ex_session, (ex_pack es). split; [exact Hp | reflexivity].
Qed.

Lemma spill_ok_short (n : Z) : n <= 200 -> @spill_ok ex_extern ex_session n.
Proof. intros Hn i Hi. cbn in Hi. lia. Qed.

Lemma value_return_upd_chronological_witness :
  @__value_return_upd ex_extern ex_session (ex_cbt 0) ex_chain_hello =
  (cbt0 <- @value_from_base ex_extern ex_session (ex_cbt 0)
             (Some (ex_standard_upd 1 ex_hello)) ;;
   v <- modify_apply_list ex_session
          [ex_entry 0 1 ex_H; ex_entry 5 0 ex_world] (value (iface cbt0)) ;;
   Ok (set_iface cbt0 (set_value (iface cbt0) v))).
Proof.
  refine (proj1 (@value_return_upd_chronological ex_extern ex_session
                   (ex_cbt 0) (ex_modify_upd 3 [ex_entry 5 0 ex_world])
                   [ex_modify_upd 2 [ex_entry 0 1 ex_H];
                    ex_standard_upd 1 ex_hello]
                   [[ex_entry 5 0 ex_world]; [ex_entry 0 1 ex_H]]
                   _ _ _ _) _).
  - reflexivity.
  - change (Forall2 packed_from
              [ex_modify_upd 3 [ex_entry 5 0 ex_world];
               ex_modify_upd 2 [ex_entry 0 1 ex_H]]
              [[ex_entry 5 0 ex_world]; [ex_entry 0 1 ex_H]]).
    apply Forall2_cons; [| apply Forall2_cons; [| apply Forall2_nil]];
      (apply packed_from_ex;
       [ vm_compute; congruence
       | apply Forall_cons; [small | apply Forall_nil]
       | apply Forall_cons; [apply ex_entry_outside | apply Forall_nil]
       | vm_compute; reflexivity ]).
  - vm_compute. reflexivity.
  - apply spill_ok_short. vm_compute. congruence.
  - discriminate.
Defined.

Lemma value_return_upd_tombstone_witness :
  @__value_return_upd ex_extern ex_session (ex_cbt 0) ex_chain_tombstone =
  (v <- modify_apply_updates ex_session
          [ex_modify_upd 2 [ex_entry 3 0 ex_abc]]
          (mkItem (InMem 0) 0 ex_old) ;;
   Ok (set_iface (ex_cbt 0) (set_value (iface (ex_cbt 0)) v))).
Proof.
  refine (proj1 (@value_return_upd_tombstone ex_extern ex_session (ex_cbt 0)
                   (ex_modify_upd 2 [ex_entry 3 0 ex_abc])
                   [ex_modify_upd 2 [ex_entry 3 0 ex_abc]]
                   (ex_tombstone 1) [] _ _ _ _ _ _ _)).
  - reflexivity.
  - reflexivity.
  - repeat constructor.
  - reflexivity.
  - reflexivity.
  - vm_compute. reflexivity.
  - apply spill_ok_short. vm_compute. congruence.
Defined.

(** A key that is flagged internal is left alone; a value that is flagged
    internal is returned like one that is not. *)
Lemma key_return_guarded_value_return_not_witness :
  @__wt_key_return ex_extern ex_session (ex_cbt 64) =
  Ok (set_iface (ex_cbt 64)
        (set_flags (iface (ex_cbt 64))
           (F_CLR (flags (iface (ex_cbt 64))) 32))) /\
  @__wt_value_return ex_extern ex_session
    (set_iface (ex_cbt 64) (set_flags (iface (ex_cbt 64)) 2048))
    [ex_standard_upd 1 ex_new] =
  (c <- @__wt_value_return ex_extern ex_session (ex_cbt 64)
          [ex_standard_upd 1 ex_new] ;;
   Ok (set_iface c (set_flags (iface c) (F_SET (F_CLR 2048 1024) 2048)))).
Proof.
  destruct (@key_return_guarded_value_return_not ex_extern ex_session
              (ex_cbt 64)) as (Hkey & _ & Hval & _).
  - reflexivity.
  - discriminate.
  - discriminate.
  - split; [apply Hkey; reflexivity | apply Hval].
Defined.

(** * Further properties of [modify.c] *)

(** ** Outcomes that are never an error code *)

Lemma no_err_bind {A B : Type} (m : result A) (k : A -> result B) :
  no_err m -> (forall a, no_err (k a)) -> no_err (bind m k).
Proof.
  intros Hm Hk e. destruct m as [a | e' |]; cbn [bind].
  - apply Hk.
  - exfalso. apply (Hm e'). reflexivity.
  - discriminate.
Qed.

Lemma no_err_Ok {A : Type} (a : A) : no_err (Ok a).
Proof. intros e. discriminate. Qed.

Lemma no_err_Undef {A : Type} : no_err (@Undef A).
Proof. intros e. discriminate. Qed.

Lemma no_err_memmove (m : list byte) (to : Z) (src : list byte) (from n : Z) :
  no_err (memmove m to src from n).
Proof.
  unfold memmove, mem_read, mem_write.
  destruct (in_bounds src from n); cbn [bind]; [| apply no_err_Undef].
  destruct (in_bounds m to _); [apply no_err_Ok | apply no_err_Undef].
Qed.

Lemma no_err_data_memmove (v : WT_ITEM) (to : Z) (src : list byte)
    (from n : Z) :
  no_err (data_memmove v to src from n).
Proof.
  unfold data_memmove. destruct (data v); [| apply no_err_Undef].
  apply no_err_bind; [apply no_err_memmove | intros; apply no_err_Ok].
Qed.

Lemma no_err_data_memmove_self (v : WT_ITEM) (to from n : Z) :
  no_err (data_memmove_self v to from n).
Proof.
  unfold data_memmove_self. destruct (data v); [| apply no_err_Undef].
  apply no_err_bind; [apply no_err_memmove | intros; apply no_err_Ok].
Qed.

Lemma no_err_data_memset (v : WT_ITEM) (a : Z) (c : byte) (n : Z) :
  no_err (data_memset v a c n).
Proof.
  unfold data_memset, memset, mem_write.
  destruct (data v); [| apply no_err_Undef].
  apply no_err_bind; [| intros; apply no_err_Ok].
  destruct (0 <=? n); [| apply no_err_Undef].
  destruct (in_bounds _ _ _); [apply no_err_Ok | apply no_err_Undef].
Qed.

Lemma no_err_src_memmove (v : WT_ITEM) (to : Z) (p : src_ptr) (n : Z) :
  no_err (src_memmove v to p n).
Proof.
  destruct p as [bs | cap o]; cbn [src_memmove].
  - apply no_err_data_memmove.
  - destruct (_ =? _); [apply no_err_data_memmove | apply no_err_Undef].
Qed.

Lemma buf_grow_Err (s : WT_SESSION_IMPL) (v : WT_ITEM) (n e : Z) :
  __wt_buf_grow s v n = Err e ->
  e = ENOMEM /\ memsize v < n /\ alloc_ok s n = false.
Proof.
  unfold __wt_buf_grow, realloc.
  destruct (Z.ltb_spec (memsize v) n) as [Hlt | Hge]; cbn [orb].
  - destruct (alloc_ok s n) eqn:Ha; cbn [bind].
    + destruct (WT_DATA_IN_ITEM v); [discriminate |].
      intros Hm. exfalso.
      refine (no_err_bind _ _ (no_err_memmove _ _ _ _ _) _ e Hm).
      intros; apply no_err_Ok.
    + intros Hm. inversion Hm. repeat split; assumption.
  - destruct (negb (WT_DATA_IN_ITEM v)) eqn:Hin; [| discriminate].
    cbn [bind]. apply negb_true_iff in Hin. rewrite Hin.
    intros Hm. exfalso.
    refine (no_err_bind _ _ (no_err_memmove _ _ _ _ _) _ e Hm).
    intros; apply no_err_Ok.
Qed.

(** X1. The only error [__modify_apply_one] returns is [ENOMEM], and it
    returns it only when the buffer had to grow and the allocator refused
    the capacity asked for, wherever the data of the edit lies. *)
Theorem modify_apply_one_error_is_enomem (s : WT_SESSION_IMPL) (v : WT_ITEM)
    (ds off sz : Z) (p : src_ptr) (e : Z) :
  __modify_apply_one s v ds off sz p = Err e ->
  let n := size_add
             (size_add (if WT_DATA_IN_ITEM v then data_offset v else 0)
                (WT_MAX (size v) off)) ds in
  e = ENOMEM /\ memsize v < n /\ alloc_ok s n = false.
Proof.
  intros Hap n. unfold __modify_apply_one in Hap. fold n in Hap.
  destruct (__wt_buf_grow s v n) as [v0 | e0 |] eqn:Hg; cbn [bind] in Hap.
  - exfalso. revert Hap.
    destruct (_ && _); [apply no_err_src_memmove |].
    destruct (size v0 <=? off).
    + apply no_err_bind.
      * destruct (size v0 <? off); [apply no_err_data_memset | apply no_err_Ok].
      * intros v1. apply no_err_bind; [apply no_err_src_memmove |].
        intros; apply no_err_Ok.
    + destruct (ds =? _).
      * apply no_err_bind; [apply no_err_src_memmove |].
        intros; apply no_err_Ok.
      * apply no_err_bind; [apply no_err_data_memmove_self |].
        intros v1. apply no_err_bind; [apply no_err_src_memmove |].
        intros; apply no_err_Ok.
  - inversion Hap; subst e0. apply (buf_grow_Err s v n e Hg).
  - discriminate.
Qed.

(** X2. No edit is refused for its offset or sizes. For data that does
    not lie in the memory of the value: with a representable capacity and a
    representable end of the replaced range, the call succeeds whenever the
    allocator delivers, and the value it leaves is the splice of the
    specification. *)
Theorem modify_apply_one_succeeds_with_splice (s : WT_SESSION_IMPL)
    (v : WT_ITEM) (ds off sz : Z) (src : list byte) :
  wf_item v -> in_size_t ds -> in_size_t off -> in_size_t sz ->
  ds <= len src ->
  let d := if WT_DATA_IN_ITEM v then data_offset v else 0 in
  let n := d + Z.max (size v) off + ds in
  n < SIZE_MOD -> off + sz < SIZE_MOD ->
  (memsize v < n -> alloc_ok s n = true) ->
  exists v',
    __modify_apply_one s v ds off sz (Outside src) = Ok v' /\
    item_bytes v' = apply_edit (item_bytes v) off sz (slice src 0 ds) /\
    size v' = len (apply_edit (item_bytes v) off sz (slice src 0 ds)).
Proof.
  intros Hwf Hds Hoff Hsz Hsrc d n Hn Hno Halloc.
  destruct (modify_apply_one_defined s v ds off sz src Hwf Hds Hoff Hsz Hsrc
              Hn Hno Halloc) as [v' Hap].
  exists v'. split; [exact Hap |].
  pose proof (modify_apply_one_refines s v ds off sz src v' Hwf Hds Hoff Hsz
                Hno Hap) as Hb.
  split; [exact Hb |]. rewrite <- Hb. symmetry. apply len_item_bytes.
  apply (modify_apply_one_Ok s v ds off sz src v' Hwf Hds Hoff Hsz Hap).
Qed.

(** ** The item after an edit *)

Lemma data_memmove_keeps (v : WT_ITEM) (to : Z) (src : list byte)
    (from n : Z) (v' : WT_ITEM) :
  data_memmove v to src from n = Ok v' ->
  data v' = data v /\ size v' = size v /\ len (mem v') = len (mem v).
Proof.
  unfold data_memmove. destruct (data v) as [d | bs] eqn:Hd; [| discriminate].
  intros Hm. bind_inv Hm. apply memmove_Ok in Hbind.
  destruct Hbind as (_ & _ & _ & _ & _ & _ & Hl & _).
  inversion Hm; subst v'. cbn [set_mem data size mem]. tauto.
Qed.

Lemma data_memmove_self_keeps (v : WT_ITEM) (to from n : Z) (v' : WT_ITEM) :
  data_memmove_self v to from n = Ok v' ->
  data v' = data v /\ size v' = size v /\ len (mem v') = len (mem v).
Proof.
  unfold data_memmove_self.
  destruct (data v) as [d | bs] eqn:Hd; [| discriminate].
  intros Hm. bind_inv Hm. apply memmove_Ok in Hbind.
  destruct Hbind as (_ & _ & _ & _ & _ & _ & Hl & _).
  inversion Hm; subst v'. cbn [set_mem data size mem]. tauto.
Qed.

Lemma data_memset_keeps (v : WT_ITEM) (a : Z) (c : byte) (n : Z)
    (v' : WT_ITEM) :
  data_memset v a c n = Ok v' ->
  data v' = data v /\ size v' = size v /\ len (mem v') = len (mem v).
Proof.
  unfold data_memset. destruct (data v) as [d | bs] eqn:Hd; [| discriminate].
  intros Hm. bind_inv Hm. apply memset_Ok in Hbind.
  destruct Hbind as (_ & _ & _ & _ & Hl).
  inversion Hm; subst v'. cbn [set_mem data size mem]. tauto.
Qed.

Lemma buf_grow_mono (s : WT_SESSION_IMPL) (v : WT_ITEM) (n : Z)
    (v0 : WT_ITEM) :
  __wt_buf_grow s v n = Ok v0 -> memsize v <= memsize v0.
Proof.
  unfold __wt_buf_grow, memsize. intros Hg.
  destruct (Z.ltb_spec (len (mem v)) n) as [Hlt | Hge]; cbn [orb] in Hg.
  - bind_inv Hg. apply realloc_Ok in Hbind; [| exact Hlt].
    destruct Hbind as [Hl _].
    destruct (WT_DATA_IN_ITEM v).
    + inversion Hg; subst v0. cbn [set_mem mem]. lia.
    + bind_inv Hg. apply memmove_Ok in Hbind.
      destruct Hbind as (_ & _ & _ & _ & _ & _ & Hl' & _).
      inversion Hg; subst v0. cbn [mem]. lia.
  - destruct (WT_DATA_IN_ITEM v); cbn [negb bind] in Hg.
    + inversion Hg; subst v0. lia.
    + bind_inv Hg. apply memmove_Ok in Hbind.
      destruct Hbind as (_ & _ & _ & _ & _ & _ & Hl' & _).
      inversion Hg; subst v0. cbn [mem]. lia.
Qed.

Lemma modify_apply_one_owned (s : WT_SESSION_IMPL) (v : WT_ITEM)
    (ds off sz : Z) (p : src_ptr) (v' : WT_ITEM) :
  wf_item v -> in_size_t ds -> in_size_t off -> in_size_t sz ->
  __modify_apply_one s v ds off sz p = Ok v' ->
  let d := if WT_DATA_IN_ITEM v then data_offset v else 0 in
  data v' = InMem d /\ wf_item v' /\
  memsize v <= memsize v' /\
  size_add (size_add d (WT_MAX (size v) off)) ds <= memsize v'.
Proof.
  intros Hwf Hds Hoff Hsz Hap0 d.
  destruct (modify_apply_one_src_Ok s v ds off sz p v' Hwf Hds Hoff Hsz Hap0)
    as (src & _ & Hap & _).
  pose proof (modify_apply_one_Ok s v ds off sz src v' Hwf Hds Hoff Hsz Hap)
    as (Hwf' & _).
  unfold __modify_apply_one, src_memmove in Hap. fold d in Hap. bind_inv Hap.
  rename a into v0.
  pose proof (buf_grow_mono _ _ _ _ Hbind) as Hmono.
  apply buf_grow_Ok in Hbind; [| exact Hwf | apply wrap_range].
  fold d in Hbind. destruct Hbind as (Hv0 & _ & _ & Hcap & _ & _).
  assert (Hkeep : data v' = data v0 /\ len (mem v') = len (mem v0)).
  { destruct (_ && _).
    - apply data_memmove_keeps in Hap. tauto.
    - destruct (size v0 <=? off).
      + bind_inv Hap. rename a into v1. bind_inv Hap. rename a into v2.
        inversion Hap; subst v'.
        apply data_memmove_keeps in Hbind0.
        destruct Hbind0 as (K2a & _ & K2b).
        assert (K1 : data v1 = data v0 /\ len (mem v1) = len (mem v0)).
        { destruct (size v0 <? off).
          - apply data_memset_keeps in Hbind. tauto.
          - inversion Hbind; subst v1. tauto. }
        destruct K1 as [K1a K1b].
        cbn [set_size data mem]. split; congruence.
      + destruct (ds =? _).
        * bind_inv Hap. inversion Hap; subst v'.
          apply data_memmove_keeps in Hbind. cbn [set_size data mem]. tauto.
        * bind_inv Hap. rename a into v1. bind_inv Hap. rename a into v2.
          inversion Hap; subst v'.
          apply data_memmove_self_keeps in Hbind.
          apply data_memmove_keeps in Hbind0.
          destruct Hbind as (K1a & _ & K1b).
          destruct Hbind0 as (K2a & _ & K2b).
          cbn [set_size data mem]. split; congruence. }
  destruct Hkeep as [Hdat Hlen]. unfold memsize in *.
  assert (Hdv0 : data v0 = InMem d) by (rewrite Hv0; reflexivity).
  rewrite Hdat, Hlen, Hdv0.
  split; [reflexivity | split; [exact Hwf' | split; assumption]].
Qed.

(** X3. An edit leaves the value in the item's own memory, even when the
    item referenced memory it did not own: the data is at the offset it had
    in the item (at the start when it was outside), the memory is at least
    the capacity asked for and never smaller than before, and the item is
    well formed again, wherever the data of the edit lies. *)
Theorem modify_apply_one_owns_value (s : WT_SESSION_IMPL) (v : WT_ITEM)
    (ds off sz : Z) (p : src_ptr) (v' : WT_ITEM) :
  wf_item v -> in_size_t ds -> in_size_t off -> in_size_t sz ->
  __modify_apply_one s v ds off sz p = Ok v' ->
  let d := if WT_DATA_IN_ITEM v then data_offset v else 0 in
  data v' = InMem d /\ wf_item v' /\
  memsize v <= memsize v' /\
  size_add (size_add d (WT_MAX (size v) off)) ds <= memsize v'.
Proof. apply modify_apply_one_owned. Qed.


Lemma splice_at_twice (m : list byte) (a : Z) (bs : list byte) :
  0 <= a -> a + len bs <= len m ->
  splice_at (splice_at m a bs) a bs = splice_at m a bs.
Proof.
  intros Ha Hb. unfold splice_at at 1.
  pose proof (len_nonneg bs) as Hl.
  assert (Hf : firstn (Z.to_nat a) (splice_at m a bs) = firstn (Z.to_nat a) m).
  { change (slice (splice_at m a bs) 0 a = slice m 0 a).
    apply slice_splice_before; lia. }
  assert (Hs : skipn (Z.to_nat (a + len bs)) (splice_at m a bs)
               = skipn (Z.to_nat (a + len bs)) m).
  { unfold splice_at. rewrite app_assoc. rewrite skipn_app.
    assert (Hlen : length (firstn (Z.to_nat a) m ++ bs)
                   = Z.to_nat (a + len bs)).
    { rewrite length_app, length_firstn. unfold len in *. lia. }
    rewrite <- Hlen at 1. rewrite skipn_all. rewrite Hlen, Nat.sub_diag.
    reflexivity. }
  rewrite Hf, Hs. reflexivity.
Qed.

(** X4. An interior overwrite with data that does not lie in the memory of
    the value is idempotent: once it has been applied, applying the same
    edit again changes nothing, neither the value nor the item's memory. *)
Theorem modify_apply_one_interior_idempotent (s : WT_SESSION_IMPL)
    (v : WT_ITEM) (ds off : Z) (src : list byte) (v1 : WT_ITEM) :
  wf_item v -> in_size_t ds -> in_size_t off ->
  off + ds < size v ->
  __modify_apply_one s v ds off ds (Outside src) = Ok v1 ->
  __modify_apply_one s v1 ds off ds (Outside src) = Ok v1.
Proof.
  intros Hwf Hds Hoff Hint Hap.
  pose proof Hwf as ((Hs0 & Hs1) & _ & _).
  unfold in_size_t in *. pose proof SIZE_MOD_eq as HM.
  assert (Hsum : size_add off ds = off + ds).
  { unfold size_add. apply wrap_small. lia. }
  unfold __modify_apply_one, src_memmove in Hap. bind_inv Hap.
  rename a into v0.
  apply buf_grow_Ok in Hbind; [| exact Hwf | apply wrap_range].
  set (d := if WT_DATA_IN_ITEM v then data_offset v else 0) in *.
  destruct Hbind as (Hv0 & Hd0 & Hd1 & Hcap & Hlen & _).
  rewrite Hv0 in Hap. cbn [size] in Hap. rewrite Hsum, Z.eqb_refl in Hap.
  destruct (Z.ltb_spec (off + ds) (size v)) as [_ | Hc]; [| lia].
  cbn [andb] in Hap. apply data_memmove_Ok in Hap.
  destruct Hap as (_ & _ & Hsrc & _ & Hdst & Hls & ->).
  set (bs := slice src 0 ds) in *. set (m0 := mem v0) in *.
  assert (Hl1 : len (splice_at m0 (d + off) bs) = len m0)
    by (apply len_splice_at; lia).
  unfold __modify_apply_one, src_memmove, WT_DATA_IN_ITEM, data_offset,
    memsize.
  cbn [data size mem]. rewrite Hl1.
  destruct (Z.leb_spec 0 d) as [_ | Hc]; [| lia].
  destruct (Z.ltb_spec d (len m0)) as [_ | Hc]; [| lia].
  cbn [andb].
  unfold __wt_buf_grow, WT_DATA_IN_ITEM, memsize. cbn [data size mem].
  rewrite Hl1.
  destruct (Z.ltb_spec (len m0)
              (size_add (size_add d (WT_MAX (size v) off)) ds))
    as [Hc | _]; [lia |].
  destruct (Z.leb_spec 0 d) as [_ | Hc]; [| lia].
  destruct (Z.ltb_spec d (len m0)) as [_ | Hc]; [| lia].
  cbn [andb negb orb bind size]. rewrite Hsum, Z.eqb_refl.
  destruct (Z.ltb_spec (off + ds) (size v)) as [_ | Hc]; [| lia].
  cbn [andb]. rewrite data_memmove_defined by lia.
  fold bs. rewrite splice_at_twice by lia. reflexivity.
Qed.

(** X5. A replacement size that reaches the end of the value or beyond has
    the effect of the size that reaches exactly the end, as long as
    [offset + size] is representable: same outcome, same item, wherever the
    data of the edit lies. *)
Theorem modify_apply_one_size_corrected (s : WT_SESSION_IMPL) (v : WT_ITEM)
    (ds off sz : Z) (p : src_ptr) :
  wf_item v -> in_size_t ds -> in_size_t off -> in_size_t sz ->
  off < size v -> size v - off <= sz -> off + sz < SIZE_MOD ->
  __modify_apply_one s v ds off sz p
  = __modify_apply_one s v ds off (size v - off) p.
Proof.
  intros Hwf Hds Hoff Hsz Hin Hbig Hno.
  pose proof Hwf as ((Hs0 & Hs1) & _ & _).
  unfold in_size_t in *. pose proof SIZE_MOD_eq as HM.
  unfold __modify_apply_one.
  set (grown := __wt_buf_grow s v _).
  destruct grown as [v0 | e |] eqn:Hg; cbn [bind]; try reflexivity.
  subst grown. apply buf_grow_Ok in Hg; [| exact Hwf | apply wrap_range].
  destruct Hg as (Hv0 & _). rewrite Hv0. cbn [size].
  set (vs := size v) in *.
  assert (Hc1 : (if vs <? size_add off sz then size_sub vs off else sz)
                = vs - off).
  { change (clamped_size vs off sz = vs - off).
    rewrite clamped_size_min by (unfold in_size_t; lia). lia. }
  assert (Hc2 : (if vs <? size_add off (vs - off) then size_sub vs off
                 else vs - off) = vs - off).
  { change (clamped_size vs off (vs - off) = vs - off).
    rewrite clamped_size_min by (unfold in_size_t; lia). lia. }
  rewrite Hc1, Hc2.
  destruct (Z.leb_spec vs off) as [Hc | _]; [lia |].
  assert (Hfast : forall x, vs - off <= x -> off + x < SIZE_MOD ->
            (size_add off ds <? vs) && (ds =? x) = false).
  { intros x Hx Hxno. destruct (Z.eqb_spec ds x) as [-> | Hne];
      [| apply andb_false_r].
    unfold size_add. rewrite wrap_small by lia.
    destruct (Z.ltb_spec (off + x) vs); [lia | reflexivity]. }
  rewrite (Hfast sz) by lia. rewrite (Hfast (vs - off)) by lia.
  reflexivity.
Qed.

(** X6. [__wt_modify_apply_api] on two arrays of entries one after the other
    is [__wt_modify_apply_api] on the first, then on the second from the
    item the first left; a failure of the first is the failure of the
    whole. *)
Theorem modify_apply_api_app (s : WT_SESSION_IMPL) (v : WT_ITEM)
    (a b : list WT_MODIFY) :
  __wt_modify_apply_api s v (a ++ b) (Z.of_nat (length (a ++ b))) =
  (v1 <- __wt_modify_apply_api s v a (Z.of_nat (length a)) ;;
   __wt_modify_apply_api s v1 b (Z.of_nat (length b))).
Proof.
  rewrite !modify_apply_api_list, modify_apply_list_app.
  destruct (modify_apply_list s a v) as [v1 | e |]; cbn [bind];
    try reflexivity.
  rewrite modify_apply_api_list. reflexivity.
Qed.

(** ** The packed value *)

(** X7. The layout of a packed value: its data is its whole memory; the
    first word is the number of entries; the triples (data size, offset,
    size) follow from byte 8 on in input order, the data of the entries, as
    found behind their data pointers, from byte [8 + 24 n] on in the same
    order; its size is [8 + 24 n] plus the data sizes, the end of the last
    data. *)
Theorem modify_pack_layout (s : WT_SESSION_IMPL) (vmem : list byte)
    (entries : list WT_MODIFY) (blob : WT_ITEM) :
  let n := Z.of_nat (length entries) in
  n <= INT_MAX -> Forall wf_modify entries ->
  __wt_modify_pack s vmem entries n = Ok blob ->
  data blob = InMem 0 /\
  size blob = 8 + 24 * n + data_total entries /\
  size blob <= len (mem blob) /\ len (mem blob) < SIZE_MOD /\
  load_size_t (mem blob) 0 = Ok n /\
  holds_entries vmem (mem blob) 8 (8 + 24 * n) entries.
Proof. apply modify_pack_Ok. Qed.

(** X8. Packing succeeds whenever the packed length is representable, the
    allocator delivers it and the data of every entry is there to be read;
    the sizes and offsets of the entries are not looked at. *)
Theorem modify_pack_succeeds (s : WT_SESSION_IMPL) (vmem : list byte)
    (entries : list WT_MODIFY) :
  let n := Z.of_nat (length entries) in
  n <= INT_MAX -> Forall wf_modify entries ->
  Forall (modify_readable vmem) entries ->
  8 + 24 * n + data_total entries < SIZE_MOD ->
  alloc_ok s (8 + 24 * n + data_total entries) = true ->
  exists blob, __wt_modify_pack s vmem entries n = Ok blob.
Proof. apply modify_pack_defined. Qed.

(** * Further properties of [bt_ret.c] *)

Lemma walk_agree_refl (r : result (list WT_UPDATE * Z * list WT_UPDATE)) :
  walk_agree r r.
Proof.
  destruct r as [[[u i] l] | e |]; cbn; auto.
Qed.

Lemma walk_agree_bind {A : Type} (m : result A)
    (k1 k2 : A -> result (list WT_UPDATE * Z * list WT_UPDATE)) :
  (forall a, walk_agree (k1 a) (k2 a)) ->
  walk_agree (bind m k1) (bind m k2).
Proof.
  intros Hk. destruct m as [a | e |]; cbn [bind]; [apply Hk | |];
    cbn; auto.
Qed.

Section WalkAgree.
Context `{BtreeExtern}.

(** The step of the walk on one update, then any two continuations that
    agree. *)
Lemma walk_agree_cons (s : WT_SESSION_IMPL) (u : WT_UPDATE)
    (n1 n2 : list WT_UPDATE) :
  (forall i l, walk_agree (value_return_upd_walk s n1 i l)
                 (value_return_upd_walk s n2 i l)) ->
  forall i l, walk_agree (value_return_upd_walk s (u :: n1) i l)
                (value_return_upd_walk s (u :: n2) i l).
Proof.
  intros Hn i l. cbn [value_return_upd_walk].
  destruct (negb (__wt_txn_upd_visible s u)); [apply Hn |].
  destruct (WT_UPDATE_DATA_VALUE u); [cbn; auto |].
  destruct (upd_type_eqb (type u) WT_UPDATE_MODIFIED); [| apply Hn].
  apply walk_agree_bind. intros _. apply walk_agree_bind. intros l'.
  apply Hn.
Qed.

Lemma walk_agree_filter (s : WT_SESSION_IMPL) (chain : list WT_UPDATE) :
  forall i l,
    walk_agree (value_return_upd_walk s chain i l)
      (value_return_upd_walk s (filter (__wt_txn_upd_visible s) chain) i l).
Proof.
  induction chain as [| u next IH]; intros i l.
  - apply walk_agree_refl.
  - cbn [filter]. destruct (__wt_txn_upd_visible s u) eqn:Hvis.
    + apply walk_agree_cons. exact IH.
    + cbn [value_return_upd_walk]. rewrite Hvis. cbn [negb]. apply IH.
Qed.

Lemma walk_agree_below (s : WT_SESSION_IMPL) (above : list WT_UPDATE)
    (b : WT_UPDATE) (below below' : list WT_UPDATE) :
  is_base s b = true ->
  forall i l,
    walk_agree (value_return_upd_walk s (above ++ b :: below) i l)
      (value_return_upd_walk s (above ++ b :: below') i l).
Proof.
  intros Hb. induction above as [| u above IH]; intros i l.
  - cbn [app value_return_upd_walk]. unfold is_base in Hb.
    apply andb_true_iff in Hb. destruct Hb as [Hv Hd].
    rewrite Hv, Hd. cbn. auto.
  - cbn [app]. apply walk_agree_cons. exact IH.
Qed.

(** Two chains with the same first update on which the walks agree give
    the same return value. *)
Lemma value_return_upd_agree (s : WT_SESSION_IMPL) (cbt : WT_CURSOR_BTREE)
    (u : WT_UPDATE) (n1 n2 : list WT_UPDATE) :
  walk_agree (value_return_upd_walk s (u :: n1) 0 [])
    (value_return_upd_walk s (u :: n2) 0 []) ->
  __value_return_upd s cbt (u :: n1) = __value_return_upd s cbt (u :: n2).
Proof.
  intros Hw. unfold __value_return_upd.
  destruct (upd_type_eqb (type u) WT_UPDATE_STANDARD); [reflexivity |].
  destruct (value_return_upd_walk s (u :: n1) 0 []) as [[[u1 i1] l1] | e1 |];
    destruct (value_return_upd_walk s (u :: n2) 0 []) as [[[u2 i2] l2] | e2 |];
    cbn in Hw; try contradiction; cbn [bind].
  - destruct Hw as (Hhd & <- & <-).
    destruct u1 as [| b1 r1], u2 as [| b2 r2]; cbn in Hhd;
      try discriminate; [reflexivity |].
    inversion Hhd; subst b2. reflexivity.
  - subst e2. reflexivity.
  - reflexivity.
Qed.

(** X9. Updates that are not visible to the reader play no part: the value
    returned for a chain is the value returned for the chain without the
    invisible updates that follow its first update. *)
Theorem value_return_upd_ignores_invisible (s : WT_SESSION_IMPL)
    (cbt : WT_CURSOR_BTREE) (u : WT_UPDATE) (next : list WT_UPDATE) :
  __value_return_upd s cbt (u :: next)
  = __value_return_upd s cbt (u :: filter (__wt_txn_upd_visible s) next).
Proof.
  apply value_return_upd_agree. apply walk_agree_cons.
  apply walk_agree_filter.
Qed.

(** X10. The walk stops at the base: whatever follows the first visible
    standard update or tombstone in the chain, the outcome and the value
    returned are the same. *)
Theorem value_return_upd_stops_at_base (s : WT_SESSION_IMPL)
    (cbt : WT_CURSOR_BTREE) (above : list WT_UPDATE) (b : WT_UPDATE)
    (below below' : list WT_UPDATE) :
  is_base s b = true ->
  __value_return_upd s cbt (above ++ b :: below)
  = __value_return_upd s cbt (above ++ b :: below').
Proof.
  intros Hb. destruct above as [| u above].
  - cbn [app]. apply value_return_upd_agree.
    apply (walk_agree_below s [] b below below' Hb).
  - cbn [app]. apply value_return_upd_agree.
    apply (walk_agree_below s (u :: above) b below below' Hb).
Qed.
End WalkAgree.

(** ** Flags and what the return functions leave alone *)

Lemma F_ISSET_F_CLR_same (f a : Z) : F_ISSET (F_CLR f a) a = false.
Proof.
  unfold F_ISSET, F_CLR.
  assert (Hz : Z.land (Z.ldiff f a) a = 0).
  { apply Z.bits_inj'. intros n Hn.
    rewrite Z.land_spec, Z.ldiff_spec, Z.bits_0.
    destruct (Z.testbit f n), (Z.testbit a n); reflexivity. }
  rewrite Hz. reflexivity.
Qed.

Lemma F_ISSET_F_SET_other (f b m : Z) :
  Z.land m b = 0 -> F_ISSET (F_SET f b) m = F_ISSET f m.
Proof.
  intros Hd. unfold F_ISSET, F_SET. f_equal. f_equal.
  apply Z.bits_inj'. intros n Hn. rewrite !Z.land_spec, Z.lor_spec.
  assert (Hmb : Z.testbit m n && Z.testbit b n = false).
  { rewrite <- Z.land_spec, Hd. apply Z.bits_0. }
  destruct (Z.testbit f n), (Z.testbit b n), (Z.testbit m n);
    cbn in *; congruence.
Qed.

Section ReturnFrames.
Context `{BtreeExtern}.

Lemma key_return_keeps (s : WT_SESSION_IMPL) (cbt cbt' : WT_CURSOR_BTREE) :
  __key_return s cbt = Ok cbt' ->
  flags (iface cbt') = flags (iface cbt) /\
  value (iface cbt') = value (iface cbt).
Proof.
  unfold __key_return. intros Hk.
  destruct (page_type_of (ref_page cbt));
    [destruct (ins cbt);
     [| destruct (compare cbt =? 0); [| bind_inv Hk] ] | |];
    inversion Hk; subst cbt'; split; reflexivity.
Qed.

Lemma value_return_keeps (s : WT_SESSION_IMPL) (cbt cbt' : WT_CURSOR_BTREE) :
  __value_return s cbt = Ok cbt' ->
  cbt' = set_iface cbt (set_value (iface cbt) (value (iface cbt'))).
Proof.
  unfold __value_return. intros Hv.
  destruct (page_type_of (ref_page cbt)).
  - destruct (__wt_row_leaf_value _ _ _).
    + inversion Hv; subst cbt'. reflexivity.
    + destruct (__wt_row_leaf_value_cell _ _).
      * bind_inv Hv. inversion Hv; subst cbt'. reflexivity.
      * inversion Hv; subst cbt'. reflexivity.
  - bind_inv Hv. inversion Hv; subst cbt'. reflexivity.
  - bind_inv Hv. inversion Hv; subst cbt'. reflexivity.
Qed.

Lemma value_return_upd_keeps (s : WT_SESSION_IMPL)
    (cbt cbt' : WT_CURSOR_BTREE) (upd : list WT_UPDATE) :
  __value_return_upd s cbt upd = Ok cbt' ->
  cbt' = set_iface cbt (set_value (iface cbt) (value (iface cbt'))).
Proof.
  unfold __value_return_upd. intros Hv.
  destruct upd as [| u next]; [discriminate |].
  destruct (upd_type_eqb (type u) WT_UPDATE_STANDARD).
  - inversion Hv; subst cbt'. reflexivity.
  - bind_inv Hv. destruct a as [[upd' i] listp].
    bind_inv Hv. rename a into cbt0. bind_inv Hv.
    inversion Hv; subst cbt'. clear Hv.
    assert (H0 : cbt0 = set_iface cbt
                          (set_value (iface cbt) (value (iface cbt0)))).
    { destruct upd' as [| b rest].
      - apply value_return_keeps in Hbind0. exact Hbind0.
      - destruct (upd_type_eqb (type b) WT_UPDATE_DELETED);
          bind_inv Hbind0; inversion Hbind0; subst cbt0; reflexivity. }
    rewrite H0. reflexivity.
Qed.

(** X11. After a successful [__wt_key_return] the key is flagged internal
    and not external, every flag outside these two is as before, and the
    cursor's value is untouched. *)
Theorem key_return_flags (s : WT_SESSION_IMPL) (cbt cbt' : WT_CURSOR_BTREE) :
  Z.land WT_CURSTD_KEY_EXT WT_CURSTD_KEY_INT = 0 ->
  WT_CURSTD_KEY_INT <> 0 ->
  __wt_key_return s cbt = Ok cbt' ->
  F_ISSET (flags (iface cbt')) WT_CURSTD_KEY_INT = true /\
  F_ISSET (flags (iface cbt')) WT_CURSTD_KEY_EXT = false /\
  (forall m, Z.land WT_CURSTD_KEY_EXT m = 0 ->
             Z.land m WT_CURSTD_KEY_INT = 0 ->
             F_ISSET (flags (iface cbt')) m = F_ISSET (flags (iface cbt)) m) /\
  value (iface cbt') = value (iface cbt).
Proof.
  intros Hdisj Hint Hret. unfold __wt_key_return in Hret.
  cbn [iface set_iface flags set_flags] in Hret.
  rewrite (F_ISSET_F_CLR_other _ _ _ Hdisj) in Hret.
  assert (Hdisj' : Z.land WT_CURSTD_KEY_INT WT_CURSTD_KEY_EXT = 0)
    by (rewrite Z.land_comm; exact Hdisj).
  destruct (F_ISSET (flags (iface cbt)) WT_CURSTD_KEY_INT) eqn:Hset;
    cbn [negb] in Hret.
  - inversion Hret; subst cbt'. cbn [iface set_iface flags set_flags value].
    rewrite (F_ISSET_F_CLR_other _ _ _ Hdisj), Hset, F_ISSET_F_CLR_same.
    repeat split.
    intros m Hm1 Hm2. apply F_ISSET_F_CLR_other. exact Hm1.
  - bind_inv Hret. inversion Hret; subst cbt'.
    apply key_return_keeps in Hbind.
    cbn [iface set_iface flags set_flags value] in Hbind |- *.
    destruct Hbind as [Hf Hv]. rewrite Hf, Hv.
    rewrite (F_ISSET_F_SET_same _ _ Hint).
    rewrite (F_ISSET_F_SET_other _ _ _ Hdisj), F_ISSET_F_CLR_same.
    repeat split.
    intros m Hm1 Hm2. rewrite (F_ISSET_F_SET_other _ _ _ Hm2).
    apply F_ISSET_F_CLR_other. exact Hm1.
Qed.

(** X12. After a successful [__wt_value_return] the value is flagged
    internal and not external, every flag outside these two is as before,
    and the key, the record number and the search state of the cursor are
    untouched. *)
Theorem value_return_flags (s : WT_SESSION_IMPL)
    (cbt cbt' : WT_CURSOR_BTREE) (upd : list WT_UPDATE) :
  Z.land WT_CURSTD_VALUE_EXT WT_CURSTD_VALUE_INT = 0 ->
  WT_CURSTD_VALUE_INT <> 0 ->
  __wt_value_return s cbt upd = Ok cbt' ->
  F_ISSET (flags (iface cbt')) WT_CURSTD_VALUE_INT = true /\
  F_ISSET (flags (iface cbt')) WT_CURSTD_VALUE_EXT = false /\
  (forall m, Z.land WT_CURSTD_VALUE_EXT m = 0 ->
             Z.land m WT_CURSTD_VALUE_INT = 0 ->
             F_ISSET (flags (iface cbt')) m = F_ISSET (flags (iface cbt)) m) /\
  key (iface cbt') = key (iface cbt) /\
  recno (iface cbt') = recno (iface cbt) /\
  row_key cbt' = row_key cbt /\ tmp cbt' = tmp cbt.
Proof.
  intros Hdisj Hint Hret. unfold __wt_value_return in Hret.
  bind_inv Hret. rename a into cbt0. inversion Hret; subst cbt'. clear Hret.
  assert (H0 : cbt0 =
               set_iface
                 (set_iface cbt
                    (set_flags (iface cbt)
                       (F_CLR (flags (iface cbt)) WT_CURSTD_VALUE_EXT)))
                 (set_value
                    (iface
                       (set_iface cbt
                          (set_flags (iface cbt)
                             (F_CLR (flags (iface cbt))
                                WT_CURSTD_VALUE_EXT))))
                    (value (iface cbt0)))).
  { destruct upd as [| u next].
    - apply value_return_keeps in Hbind. exact Hbind.
    - apply value_return_upd_keeps in Hbind. exact Hbind. }
  rewrite H0. cbn [iface set_iface flags set_flags set_value key recno
                   row_key tmp].
  rewrite (F_ISSET_F_SET_same _ _ Hint).
  rewrite (F_ISSET_F_SET_other _ _ _ Hdisj), F_ISSET_F_CLR_same.
  repeat split.
  intros m Hm1 Hm2. rewrite (F_ISSET_F_SET_other _ _ _ Hm2).
  apply F_ISSET_F_CLR_other. exact Hm1.
Qed.

End ReturnFrames.

(** ** The list of pending modifications and the allocator *)

Section Spill.
Context `{BtreeExtern}.

Lemma value_return_upd_walk_spill (s : WT_SESSION_IMPL)
    (chain listp : list WT_UPDATE) :
  0 <= WT_MAX_MODIFY_UPDATE -> WT_MAX_MODIFY_UPDATE + 1 < UINT_MOD ->
  alloc_ok s (size_mul (uint_add WT_MAX_MODIFY_UPDATE 1) sizeof_size_t)
  = false ->
  Z.of_nat (length listp) <= WT_MAX_MODIFY_UPDATE ->
  WT_MAX_MODIFY_UPDATE
  < Z.of_nat (length listp + length (pending s chain)) ->
  value_return_upd_walk s chain (Z.of_nat (length listp)) listp
  = Err ENOMEM.
Proof.
  intros Hmax0 Hmax1 Hno. revert listp.
  induction chain as [| u next IH]; intros listp Hl Hp.
  - cbn [pending above_base filter length] in Hp. lia.
  - cbn [value_return_upd_walk]. rewrite pending_cons in Hp.
    unfold is_base in Hp.
    destruct (__wt_txn_upd_visible s u) eqn:Hvis; cbn [negb andb] in *.
    + destruct (WT_UPDATE_DATA_VALUE u) eqn:Hdv.
      * cbn [length] in Hp. lia.
      * destruct (upd_type_eqb (type u) WT_UPDATE_MODIFIED) eqn:Hmod.
        -- destruct (Z.leb_spec WT_MAX_MODIFY_UPDATE
                       (Z.of_nat (length listp))) as [Hge | Hlt].
           ++ assert (Heq : Z.of_nat (length listp) = WT_MAX_MODIFY_UPDATE)
                by lia.
              rewrite Heq. unfold __wt_realloc_def. rewrite Hno.
              reflexivity.
           ++ cbn [bind]. rewrite list_store_end. cbn [bind].
              rewrite uint_add_small by lia.
              replace (Z.of_nat (length listp) + 1)
                with (Z.of_nat (length (listp ++ [u])))
                by (rewrite length_app; cbn [length]; lia).
              apply IH.
              ** rewrite length_app. cbn [length]. lia.
              ** rewrite length_app. cbn [length] in *. lia.
        -- apply IH; assumption.
    + apply IH; assumption.
Qed.

(** X15. The list of pending modifications has room for
    [WT_MAX_MODIFY_UPDATE] entries without allocation. With more pending
    modifications above the base the list has to grow, and when the
    allocator refuses that first growth the call returns [ENOMEM]. *)
Theorem value_return_upd_spill_enomem (s : WT_SESSION_IMPL)
    (cbt : WT_CURSOR_BTREE) (u : WT_UPDATE) (next : list WT_UPDATE) :
  0 <= WT_MAX_MODIFY_UPDATE -> WT_MAX_MODIFY_UPDATE + 1 < UINT_MOD ->
  type u <> WT_UPDATE_STANDARD ->
  alloc_ok s (size_mul (uint_add WT_MAX_MODIFY_UPDATE 1) sizeof_size_t)
  = false ->
  WT_MAX_MODIFY_UPDATE < Z.of_nat (length (pending s (u :: next))) ->
  __value_return_upd s cbt (u :: next) = Err ENOMEM.
Proof.
  intros Hmax0 Hmax1 Hty Hno Hp. unfold __value_return_upd.
  assert (Hstd : upd_type_eqb (type u) WT_UPDATE_STANDARD = false).
  { destruct (type u); try reflexivity. congruence. }
  rewrite Hstd.
  change 0 with (Z.of_nat (length (@nil WT_UPDATE))).
  rewrite value_return_upd_walk_spill; try assumption.
  reflexivity.
Qed.
End Spill.

(** ** Sequences of edits *)

(** X16. A sequence of edits applied with [__wt_modify_apply_api] to a
    well-formed item leaves a well-formed item, and when at least one edit
    was applied the value is in the item's own memory, wherever the data of
    the edits lies. *)
Theorem modify_apply_api_keeps_wf (s : WT_SESSION_IMPL) (v : WT_ITEM)
    (entries : list WT_MODIFY) (v' : WT_ITEM) :
  wf_item v -> Forall wf_modify entries ->
  __wt_modify_apply_api s v entries (Z.of_nat (length entries)) = Ok v' ->
  wf_item v' /\ (entries <> [] -> exists d, data v' = InMem d).
Proof.
  rewrite modify_apply_api_list. revert v.
  induction entries as [| e es IH]; intros v Hwf Hes Hap.
  - cbn in Hap. inversion Hap; subst v'. split; [exact Hwf | congruence].
  - cbn [modify_apply_list] in Hap. bind_inv Hap. rename a into v1.
    pose proof (Forall_inv Hes) as (Hds & Hof & Hsz).
    pose proof (Forall_inv_tail Hes) as Hes'.
    pose proof (modify_apply_one_owned s v _ _ _ _ v1 Hwf Hds Hof Hsz
                  Hbind) as (Hdat1 & Hwf1 & _).
    destruct (IH v1 Hwf1 Hes' Hap) as [Hwf' Hown].
    split; [exact Hwf' |]. intros _.
    destruct es as [| e' es'].
    + cbn in Hap. inversion Hap; subst v'. eexists. exact Hdat1.
    + apply Hown. discriminate.
Qed.

(** * The further properties at concrete inputs *)

Ltac concrete :=
  first [ small
        | discriminate
        | repeat (apply Forall_cons; [small |]); apply Forall_nil
        | intros _; vm_compute; reflexivity
        | vm_compute; first [ reflexivity | congruence | split; congruence ] ].

Lemma modify_apply_one_error_is_enomem_witness :
  ENOMEM = ENOMEM /\ memsize (ex_ref ex_digits) < 13 /\
  alloc_ok ex_session_nomem 13 = false.
Proof.
  apply (modify_apply_one_error_is_enomem ex_session_nomem (ex_ref ex_digits)
           3 2 5 (Outside ex_abc) ENOMEM).
  vm_compute. reflexivity.
Defined.

Lemma modify_apply_one_succeeds_with_splice_witness :
  exists v',
    __modify_apply_one ex_session (ex_ref ex_digits) 3 2 5 (Outside ex_abc)
    = Ok v' /\
    item_bytes v' = apply_edit (item_bytes (ex_ref ex_digits)) 2 5
                      (slice ex_abc 0 3) /\
    size v' = len (apply_edit (item_bytes (ex_ref ex_digits)) 2 5
                     (slice ex_abc 0 3)).
Proof.
  apply (modify_apply_one_succeeds_with_splice ex_session (ex_ref ex_digits)
           3 2 5 ex_abc); concrete.
Defined.

Lemma modify_apply_one_owns_value_witness :
  let v' := result_get
              (__modify_apply_one ex_session (ex_ref ex_digits) 3 2 5
                 (Outside ex_abc))
              (ex_ref []) in
  data v' = InMem 0 /\ wf_item v' /\
  memsize (ex_ref ex_digits) <= memsize v' /\ 13 <= memsize v'.
Proof.
  apply (modify_apply_one_owns_value ex_session (ex_ref ex_digits) 3 2 5
           (Outside ex_abc)); concrete.
Defined.

Lemma modify_apply_one_interior_idempotent_witness :
  let v1 := result_get
              (__modify_apply_one ex_session (ex_ref ex_digits) 3 2 3
                 (Outside ex_abc))
              (ex_ref []) in
  __modify_apply_one ex_session v1 3 2 3 (Outside ex_abc) = Ok v1.
Proof.
  apply (modify_apply_one_interior_idempotent ex_session (ex_ref ex_digits)
           3 2 ex_abc); concrete.
Defined.

Lemma modify_apply_one_size_corrected_witness :
  __modify_apply_one ex_session (ex_ref ex_digits) 3 2 50 (Outside ex_abc)
  = __modify_apply_one ex_session (ex_ref ex_digits) 3 2 (10 - 2)
      (Outside ex_abc).
Proof.
  apply (modify_apply_one_size_corrected ex_session (ex_ref ex_digits)
           3 2 50 (Outside ex_abc)); concrete.
Defined.

Lemma modify_pack_layout_witness :
  let blob := ex_pack [ex_entry 0 1 ex_H; ex_entry 5 0 ex_world] in
  data blob = InMem 0 /\
  size blob = 8 + 24 * 2 + (1 + (6 + 0)) /\
  size blob <= len (mem blob) /\ len (mem blob) < SIZE_MOD /\
  load_size_t (mem blob) 0 = Ok 2 /\
  holds_entries [] (mem blob) 8 (8 + 24 * 2)
    [ex_entry 0 1 ex_H; ex_entry 5 0 ex_world].
Proof.
  apply (modify_pack_layout ex_session []
           [ex_entry 0 1 ex_H; ex_entry 5 0 ex_world]); concrete.
Defined.

Lemma modify_pack_succeeds_witness :
  exists blob,
    __wt_modify_pack ex_session [] [ex_entry 0 1 ex_H; ex_entry 5 0 ex_world]
      2 = Ok blob.
Proof.
  apply (modify_pack_succeeds ex_session []
           [ex_entry 0 1 ex_H; ex_entry 5 0 ex_world]); concrete.
Defined.

Lemma value_return_upd_stops_at_base_witness :
  @__value_return_upd ex_extern ex_session (ex_cbt 0)
    ([ex_modify_upd 2 [ex_entry 3 0 ex_abc]] ++ ex_tombstone 1 :: [])
  = @__value_return_upd ex_extern ex_session (ex_cbt 0)
      ([ex_modify_upd 2 [ex_entry 3 0 ex_abc]]
         ++ ex_tombstone 1 :: [ex_standard_upd 0 ex_hello]).
Proof.
  apply (@value_return_upd_stops_at_base ex_extern ex_session (ex_cbt 0)
           [ex_modify_upd 2 [ex_entry 3 0 ex_abc]] (ex_tombstone 1)
           [] [ex_standard_upd 0 ex_hello]).
  reflexivity.
Defined.

Lemma key_return_flags_witness :
  let cbt' := result_get (@__wt_key_return ex_extern ex_session (ex_cbt 32))
                (ex_cbt 0) in
  F_ISSET (flags (iface cbt')) 64 = true /\
  F_ISSET (flags (iface cbt')) 32 = false.
Proof.
  intros cbt'.
  destruct (@key_return_flags ex_extern ex_session (ex_cbt 32) cbt')
    as (Hint & Hext & _).
  - reflexivity.
  - discriminate.
  - vm_compute. reflexivity.
  - split; [exact Hint | exact Hext].
Defined.

Lemma value_return_flags_witness :
  let cbt' := result_get
                (@__wt_value_return ex_extern ex_session (ex_cbt 1024)
                   [ex_standard_upd 1 ex_new]) (ex_cbt 0) in
  F_ISSET (flags (iface cbt')) 2048 = true /\
  F_ISSET (flags (iface cbt')) 1024 = false /\
  key (iface cbt') = key (iface (ex_cbt 1024)).
Proof.
  intros cbt'.
  destruct (@value_return_flags ex_extern ex_session (ex_cbt 1024) cbt'
              [ex_standard_upd 1 ex_new])
    as (Hint & Hext & _ & Hkey & _).
  - reflexivity.
  - discriminate.
  - vm_compute. reflexivity.
  - split; [exact Hint | split; [exact Hext | exact Hkey]].
Defined.

Lemma value_return_upd_spill_enomem_witness :
  @__value_return_upd ex_extern_small ex_session_nomem ex_cbt_small
    ex_chain_hello = Err ENOMEM.
Proof.
  apply (@value_return_upd_spill_enomem ex_extern_small ex_session_nomem
           ex_cbt_small (ex_modify_upd 3 [ex_entry 5 0 ex_world])
           [ex_modify_upd 2 [ex_entry 0 1 ex_H]; ex_standard_upd 1 ex_hello]);
    concrete.
Defined.

Lemma modify_apply_api_keeps_wf_witness :
  let v' := result_get
              (__wt_modify_apply_api ex_session (ex_ref ex_hello)
                 [ex_entry 0 1 ex_H; ex_entry 5 0 ex_world] 2) (ex_ref []) in
  wf_item v' /\
  ([ex_entry 0 1 ex_H; ex_entry 5 0 ex_world] <> [] ->
   exists d, data v' = InMem d).
Proof.
  apply (modify_apply_api_keeps_wf ex_session (ex_ref ex_hello)
           [ex_entry 0 1 ex_H; ex_entry 5 0 ex_world]); concrete.
Defined.
